(** * perfectns: analysis of nested sampling runs

    A shallow embedding of [pns/analysis_utils.py] and of functions of
    [pns/maths_functions.py], with the properties of the specification
    stated and proved over it.

    Numbers.  numpy's float64 values are modelled as extended reals with a
    NaN: rounding, overflow and the sign of zero are abstracted away, the
    special values NaN, -inf and +inf and the way comparisons and arithmetic
    treat them are kept.  The one place where the source decides between
    raising and running on a product of rounded numbers, the first
    assertion of [run_ci_bootstrap], is computed in binary64.

    Effects.  Python exceptions are an explicit [result]; the global numpy
    random state is an explicit [rng] threaded through a state-and-error
    monad [M]. *)

From Stdlib Require Import String.
From Stdlib Require Import Reals Lra Lia ZArith List Bool.
From Stdlib Require Import Permutation Sorted.
From Stdlib Require Import Floats.
Import ListNotations.

Set Warnings "-inexact-float".

Open Scope R_scope.

(* ================================================================== *)
(** ** numpy floats *)

Module Np.

Inductive npfloat : Type :=
| NaN
| NInf
| PInf
| Fin (x : R).

Definition Rltb (x y : R) : bool := if Rlt_dec x y then true else false.
Definition Rleb (x y : R) : bool := if Rle_dec x y then true else false.
Definition Reqb (x y : R) : bool := if Req_dec_T x y then true else false.

Definition isnan (a : npfloat) : bool :=
  match a with NaN => true | _ => false end.

Definition isfinite (a : npfloat) : bool :=
  match a with Fin _ => true | _ => false end.

Definition neg (a : npfloat) : npfloat :=
  match a with
  | NaN => NaN
  | NInf => PInf
  | PInf => NInf
  | Fin x => Fin (- x)
  end.

Definition add (a b : npfloat) : npfloat :=
  match a, b with
  | NaN, _ | _, NaN => NaN
  | PInf, NInf | NInf, PInf => NaN
  | PInf, _ | _, PInf => PInf
  | NInf, _ | _, NInf => NInf
  | Fin x, Fin y => Fin (x + y)
  end.

Definition sub (a b : npfloat) : npfloat := add a (neg b).

(** An infinity [s] times the finite number [x]. *)
Definition scale_inf (s : npfloat) (x : R) : npfloat :=
  if Reqb x 0 then NaN else if Rltb 0 x then s else neg s.

Definition mul (a b : npfloat) : npfloat :=
  match a, b with
  | NaN, _ | _, NaN => NaN
  | Fin x, Fin y => Fin (x * y)
  | Fin x, s | s, Fin x => scale_inf s x
  | PInf, PInf | NInf, NInf => PInf
  | PInf, NInf | NInf, PInf => NInf
  end.

(** [a ** -1]. *)
Definition recip (a : npfloat) : npfloat :=
  match a with
  | NaN => NaN
  | NInf | PInf => Fin 0
  | Fin x => if Reqb x 0 then PInf else Fin (/ x)
  end.

Definition div (a b : npfloat) : npfloat := mul a (recip b).

(** Comparisons: every comparison with a NaN is false. *)
Definition lt (a b : npfloat) : bool :=
  match a, b with
  | NaN, _ | _, NaN => false
  | _, NInf => false
  | NInf, _ => true
  | PInf, _ => false
  | Fin _, PInf => true
  | Fin x, Fin y => Rltb x y
  end.

Definition le (a b : npfloat) : bool :=
  match a, b with
  | NaN, _ | _, NaN => false
  | NInf, _ => true
  | _, PInf => true
  | _, NInf => false
  | PInf, _ => false
  | Fin x, Fin y => Rleb x y
  end.

Definition gt (a b : npfloat) : bool := lt b a.
Definition ge (a b : npfloat) : bool := le b a.

Definition exp (a : npfloat) : npfloat :=
  match a with
  | NaN => NaN
  | NInf => Fin 0
  | PInf => PInf
  | Fin x => Fin (Rtrigo_def.exp x)
  end.

Definition log (a : npfloat) : npfloat :=
  match a with
  | NaN | NInf => NaN
  | PInf => PInf
  | Fin x => if Rltb x 0 then NaN else if Reqb x 0 then NInf else Fin (ln x)
  end.

Definition sqrt (a : npfloat) : npfloat :=
  match a with
  | NaN | NInf => NaN
  | PInf => PInf
  | Fin x => if Rltb x 0 then NaN else Fin (R_sqrt.sqrt x)
  end.

(** Minimum and maximum of two elements as [ndarray.min] and [np.amax]
    combine them: a NaN wins. *)
Definition min2 (a b : npfloat) : npfloat :=
  if isnan a || isnan b then NaN else if le a b then a else b.

Definition max2 (a b : npfloat) : npfloat :=
  if isnan a || isnan b then NaN else if le a b then b else a.

(** The order [np.sort] and [np.argsort] put floats in: NaN last. *)
Definition sort_le (a b : npfloat) : bool :=
  match a, b with
  | _, NaN => true
  | NaN, _ => false
  | _, _ => le a b
  end.

Definition zeros (n : nat) : list npfloat := repeat (Fin 0) n.

Definition sum (l : list npfloat) : npfloat := fold_left add l (Fin 0).

Fixpoint cumsum_from (acc : npfloat) (l : list npfloat) : list npfloat :=
  match l with
  | [] => []
  | x :: t => add acc x :: cumsum_from (add acc x) t
  end.

(** [np.cumsum]. *)
Definition cumsum (l : list npfloat) : list npfloat :=
  cumsum_from (Fin 0) l.

(** Element-wise binary operation on two arrays of one shape. *)
Fixpoint map2 {A B C : Type} (f : A -> B -> C) (l : list A) (m : list B)
  : list C :=
  match l, m with
  | x :: l', y :: m' => f x y :: map2 f l' m'
  | _, _ => []
  end.

End Np.

Import Np.

(* ================================================================== *)
(** ** Python floats *)

(** The builtin [min(a, b)]: [b] when [b < a], and [a] otherwise, also when
    one of them is a NaN. *)
Definition py_min (a b : float) : float := if (b <? a)%float then b else a.

(** [2 ** e] as a real number. *)
Definition pow2 (e : Z) : R :=
  if (0 <=? e)%Z then IZR (2 ^ e) else / IZR (2 ^ (- e)).

(** The number a binary64 float stands for. *)
Definition float_value (f : float) : npfloat :=
  match Prim2SF f with
  | S754_nan => NaN
  | S754_infinity s => if s then NInf else PInf
  | S754_zero _ => Fin 0
  | S754_finite s m e => Fin (IZR (cond_Zopp s (Zpos m)) * pow2 e)
  end.

(* ================================================================== *)
(** ** Python exceptions and the random state *)

(** [str(a)] of a one-dimensional array of floats, up to the formatting of
    the numbers: numpy prints every element of an array of at most 1000
    elements, and of a longer one the first three and the last three
    elements with an ellipsis between them.  No index is printed. *)
Inductive array_str : Type :=
| str_all (elements : list npfloat)
| str_summary (leading trailing : list npfloat).

Definition np_array_str (a : list npfloat) : array_str :=
  if (1000 <? length a)%nat
  then str_summary (firstn 3 a) (skipn (length a - 3) a)
  else str_all a.

(** The messages of the assertions of the source, with what they print. *)
Inductive assert_msg : Type :=
| logx_nlive_contains_zeros (nlive_array : array_str)
| dynamic_run_without_thread_logl_min_max
| threads_with_neither_start_nor_end
| nlive_array_contains_zeros (nlive_array : array_str)
| n_simulate_not_big_enough (n_simulate : Z) (cred_int : float).

Inductive exn : Type :=
| AssertionError (m : assert_msg)
| KeyError (key : string)
| IndexError
| ValueError
| TypeError
| OverflowError.

Inductive result (A : Type) : Type :=
| Ok (a : A)
| Raise (e : exn).

Arguments Ok {A} a.
Arguments Raise {A} e.

Definition rbind {A B : Type} (c : result A) (k : A -> result B) : result B :=
  match c with
  | Ok a => k a
  | Raise e => Raise e
  end.

Definition assert (b : bool) (m : assert_msg) : result unit :=
  if b then Ok tt else Raise (AssertionError m).

(** The conversion of a Python int in [float * int]: the nearest float,
    ties to even, and an OverflowError when it is out of range. *)
Definition float_of_int (n : Z) : result float :=
  match binary_normalize prec emax n 0 false with
  | S754_infinity _ => Raise OverflowError
  | f => Ok (SF2Prim f)
  end.

Declare Scope result_scope.
Delimit Scope result_scope with res.
Notation "x <- c ;; k" := (rbind c (fun x => k))
  (at level 61, c at next level, right associativity) : result_scope.
Notation "c ;; k" := (rbind c (fun _ => k))
  (at level 61, right associativity) : result_scope.

(** The numpy random state: the raw integers and the uniform floats it will
    hand out, and how many draws were made so far. *)
Record rng : Type := mk_rng {
  rand_ints : nat -> nat;
  rand_floats : nat -> R;
  consumed : nat
}.

Definition advance (n : nat) (g : rng) : rng :=
  mk_rng (rand_ints g) (rand_floats g) (consumed g + n).

(** Computations that draw random numbers and may raise.  The random state
    after a raise is the state at the raise. *)
Definition M (A : Type) : Type := rng -> result A * rng.

Definition ret {A : Type} (a : A) : M A := fun g => (Ok a, g).

Definition raise {A : Type} (e : exn) : M A := fun g => (Raise e, g).

Definition lift {A : Type} (c : result A) : M A := fun g => (c, g).

Definition bind {A B : Type} (c : M A) (k : A -> M B) : M B :=
  fun g =>
    match c g with
    | (Ok a, g') => k a g'
    | (Raise e, g') => (Raise e, g')
    end.

Declare Scope M_scope.
Delimit Scope M_scope with M.
Notation "x <- c ;; k" := (bind c (fun x => k))
  (at level 61, c at next level, right associativity) : M_scope.
Notation "c ;; k" := (bind c (fun _ => k))
  (at level 61, right associativity) : M_scope.

(** [np.random.random(n)]: [n] uniform draws. *)
Definition np_random_random (n : nat) : M (list npfloat) :=
  fun g =>
    (Ok (map (fun k => Fin (rand_floats g (consumed g + k))) (seq 0 n)),
     advance n g).

(** [np.random.randint(low, high, size)]: [size] integers of
    [low .. high - 1]; a ValueError when the range is empty ([low >= high])
    or the size negative. *)
Definition np_random_randint (low high size : Z) : M (list Z) :=
  fun g =>
    if ((high <=? low) || (size <? 0))%Z then (Raise ValueError, g)
    else
      (Ok (map (fun k =>
                  (low + Z.of_nat (rand_ints g (consumed g + k))
                         mod (high - low))%Z)
               (seq 0 (Z.to_nat size))),
       advance (Z.to_nat size) g).

(* ================================================================== *)
(** ** numpy arrays: reductions and indexing *)

(** [a.min()]: a ValueError on an empty array. *)
Definition np_amin (a : list npfloat) : result npfloat :=
  match a with
  | [] => Raise ValueError
  | x :: t => Ok (fold_left min2 t x)
  end.

Definition np_amax (a : list npfloat) : result npfloat :=
  match a with
  | [] => Raise ValueError
  | x :: t => Ok (fold_left max2 t x)
  end.

(** The position a Python index denotes in a sequence of length [n]. *)
Definition norm_index (n : nat) (i : Z) : option nat :=
  if (0 <=? i)%Z then
    if (i <? Z.of_nat n)%Z then Some (Z.to_nat i) else None
  else
    if (- Z.of_nat n <=? i)%Z then Some (Z.to_nat (Z.of_nat n + i)) else None.

(** [a[i]]. *)
Definition getitem {A : Type} (a : list A) (i : Z) : result A :=
  match norm_index (length a) i with
  | Some k =>
      match nth_error a k with
      | Some x => Ok x
      | None => Raise IndexError
      end
  | None => Raise IndexError
  end.

Fixpoint update {A : Type} (a : list A) (k : nat) (v : A) : list A :=
  match a, k with
  | [], _ => []
  | _ :: t, O => v :: t
  | x :: t, S k' => x :: update t k' v
  end.

(** [a[i] = v]. *)
Definition setitem {A : Type} (a : list A) (i : Z) (v : A) : result (list A) :=
  match norm_index (length a) i with
  | Some k => Ok (update a k v)
  | None => Raise IndexError
  end.

(** Broadcasting a one-dimensional value to a slice of [n] elements. *)
Definition broadcast_to (n : nat) (v : list npfloat) : result (list npfloat) :=
  if (length v =? n)%nat then Ok v
  else
    match v with
    | [x] => Ok (repeat x n)
    | _ => Raise ValueError
    end.

(** [scipy.misc.logsumexp] on a one-dimensional array: the maximum is taken
    out of the exponentials, unless it is not finite. *)
Definition logsumexp (a : list npfloat) : result npfloat :=
  (a_max <- np_amax a ;;
   let a_max := if isfinite a_max then a_max else Fin 0 in
   Ok (add (log (sum (map (fun x => exp (sub x a_max)) a))) a_max))%res.

(** Running a list of fallible computations in order. *)
Fixpoint sequence {A : Type} (l : list (result A)) : result (list A) :=
  match l with
  | [] => Ok []
  | c :: t => (x <- c ;; xs <- sequence t ;; Ok (x :: xs))%res
  end.

(** [a[start:stop] = v], for [start <= stop <= len(a)]. *)
Definition assign_slice (a : list npfloat) (start stop : nat)
    (v : list npfloat) : result (list npfloat) :=
  (v' <- broadcast_to (stop - start) v ;;
   Ok (firstn start a ++ v' ++ skipn stop a))%res.

(** Insertion of [x] in a list sorted by [key]. *)
Fixpoint insert_by {A : Type} (key : A -> npfloat) (x : A) (l : list A)
  : list A :=
  match l with
  | [] => [x]
  | y :: t => if sort_le (key x) (key y) then x :: y :: t
              else y :: insert_by key x t
  end.

(** Sorting by [key], as [a[np.argsort(key(a))]] does.  numpy leaves the
    order of rows with equal keys unspecified; this sort fixes one. *)
Fixpoint sort_by {A : Type} (key : A -> npfloat) (l : list A) : list A :=
  match l with
  | [] => []
  | x :: t => insert_by key x (sort_by key t)
  end.

(** [np.sort]. *)
Definition np_sort (a : list npfloat) : list npfloat := sort_by (fun x => x) a.

(** The interpolation between consecutive sample points, for [x] not left of
    the first one. *)
Fixpoint interp_from (x : npfloat) (xp fp : list npfloat) : npfloat :=
  match xp, fp with
  | x0 :: ((x1 :: _) as xp'), f0 :: ((f1 :: _) as fp') =>
      if lt x x1 then add (mul (div (sub f1 f0) (sub x1 x0)) (sub x x0)) f0
      else interp_from x xp' fp'
  | _, f0 :: _ => f0
  | _, [] => NaN
  end.

(** [np.interp(x, xp, fp)] at a scalar [x], for increasing [xp]: linear
    interpolation, and the first or last value outside of the sample
    points. *)
Definition np_interp (x : npfloat) (xp fp : list npfloat) : result npfloat :=
  match xp, fp with
  | [], _ => Raise ValueError
  | x0 :: _, f0 :: _ =>
      if negb (length xp =? length fp)%nat then Raise ValueError
      else if isnan x then Ok NaN
      else if lt x x0 then Ok f0
      else Ok (interp_from x xp fp)
  | _ :: _, [] => Raise ValueError
  end.

(** [np.std(a, ddof=1)]. *)
Definition np_std_ddof1 (a : list npfloat) : npfloat :=
  let n := length a in
  let mean := div (sum a) (Fin (INR n)) in
  let sq := map (fun x => mul (sub x mean) (sub x mean)) a in
  sqrt (div (sum sq) (Fin (INR (n - 1)))).

(* ================================================================== *)
(** ** pns/maths_functions.py *)

(** The value [log_subtract] computes. *)
Definition log_subtract_value (loga logb : npfloat) : npfloat :=
  add loga (log (sub (Fin 1) (exp (sub logb loga)))).

(** [log_subtract(loga, logb)].  The assertion [loga >= logb] of the source
    is commented out: no path of the function raises. *)
Definition log_subtract (loga logb : npfloat) : result npfloat :=
  Ok (log_subtract_value loga logb).

(** [log_subtract] on two arrays of one shape, element by element. *)
Definition log_subtract_array (loga logb : list npfloat)
  : result (list npfloat) :=
  sequence (map2 log_subtract loga logb).

(* ================================================================== *)
(** ** The data of a run *)

(** A row of a thread's table: columns [logl, r, logx, theta...]. *)
Record sample_row : Type := mk_row {
  row_logl : npfloat;
  row_r : npfloat;
  row_logx : npfloat;
  row_theta : list npfloat
}.

(** A thread: a table, or [None] for a thread without a point. *)
Definition thread : Type := option (list sample_row).

(** A row of [thread_logl_min_max]: columns 0, 1 and 2. *)
Record lmm_row : Type := mk_lmm {
  logl_min : npfloat;
  logl_max : npfloat;
  multiplicity : npfloat
}.

Record settings_t : Type := mk_settings {
  dynamic_goal : option R;
  nlive : Z;
  nlive_1 : Z
}.

(** The run dictionary.  The keys ['nlive_array'] and
    ['thread_logl_min_max'] may be missing. *)
Record ns_run_t : Type := mk_run {
  threads : list thread;
  thread_logl_min_max : option (list lmm_row);
  nlive_array : option (list npfloat);
  settings : settings_t
}.

(** An estimator object: its name and its method [estimator]. *)
Record estimator_t : Type := mk_estimator {
  name : string;
  estimator :
    list npfloat -> list npfloat -> list npfloat -> list (list npfloat) ->
    npfloat
}.

(* ================================================================== *)
(** ** pns/analysis_utils.py *)

(** [get_logx].  The first assertion of the source, that [nlive_array] is
    a numpy array, holds by typing. *)
Definition get_logx (nlive_array : list npfloat) (simulate : bool)
  : M (list npfloat) :=
  (m <- lift (np_amin nlive_array) ;;
   lift (assert (gt m (Fin 0))
                (logx_nlive_contains_zeros (np_array_str nlive_array))) ;;
   logx_steps <-
     (if simulate then
        u <- np_random_random (length nlive_array) ;;
        ret (map2 div (map log u) nlive_array)
      else
        ret (map (fun n => mul (Fin (-1)) (recip n)) nlive_array)) ;;
   ret (cumsum logx_steps))%M.

Definition get_logw (logl nlive_array : list npfloat) (simulate : bool)
  : M (list npfloat) :=
  (let n := length logl in
   let logx_inc_start := zeros (n + 1) in
   logx <- get_logx nlive_array simulate ;;
   logx_inc_start <- lift (assign_slice logx_inc_start 1 (n + 1) logx) ;;
   let logw := zeros n in
   trapezium <- lift (log_subtract_array
                        (firstn (length logx_inc_start - 2) logx_inc_start)
                        (skipn 2 logx_inc_start)) ;;
   logw <- lift (assign_slice logw 0 (n - 1) trapezium) ;;
   let logw := map (fun w => sub w (log (Fin 2))) logw in
   logw_0 <- lift (getitem logw 0) ;;
   x_0 <- lift (getitem logx_inc_start 0) ;;
   x_1 <- lift (getitem logx_inc_start 1) ;;
   first_cell <- lift (log_subtract x_0 x_1) ;;
   first <- lift (logsumexp [logw_0; add (log (Fin (1 / 2))) first_cell]) ;;
   logw <- lift (setitem logw 0 first) ;;
   before_last <- lift (getitem logw (-2)) ;;
   logw <- lift (setitem logw (-1) before_last) ;;
   ret (map2 add logw logl))%M.

Definition get_n_calls (ns_run : ns_run_t) : nat :=
  fold_left
    (fun n_calls thread =>
       match thread with
       | Some t => (n_calls + length t)%nat
       | None => n_calls
       end)
    (threads ns_run) O.

(** [nlive_array[np.where(cond)] += v]. *)
Definition add_where (cond : npfloat -> bool) (logl : list npfloat)
    (v : npfloat) (nlive_array : list npfloat) : list npfloat :=
  map2 (fun l n => if cond l then add n v else n) logl nlive_array.

(** The branches of [get_nlive] that find the live counts (lines 86 to 108
    of the source), before the final assertion on them. *)
Definition nlive_of_run (run_dict : ns_run_t) (logl : list npfloat)
  : result (list npfloat) :=
  match nlive_array run_dict with
  | Some a => Ok a
  | None =>
      match thread_logl_min_max run_dict with
      | None =>
          (assert (match dynamic_goal (settings run_dict) with
                   | None => true
                   | Some _ => false
                   end)
                  dynamic_run_without_thread_logl_min_max ;;
           let nl := nlive (settings run_dict) in
           let a := map (fun z => add z (Fin (IZR nl))) (zeros (length logl)) in
           fold_left
             (fun acc i => a <- acc ;; setitem a (- i) (Fin (IZR i)))
             (map Z.of_nat (seq 1 (Z.to_nat nl - 1)))
             (Ok a))%res
      | Some lmm_ar =>
          let a := zeros (length logl) in
          let a :=
            fold_left
              (fun a r => add_where (fun l => ge (logl_max r) l) logl
                                    (multiplicity r) a)
              (filter (fun r => isnan (logl_min r)) lmm_ar) a in
          let a :=
            fold_left
              (fun a r => add_where (fun l => gt l (logl_min r)) logl
                                    (multiplicity r) a)
              (filter (fun r => isnan (logl_max r)) lmm_ar) a in
          let a :=
            fold_left
              (fun a r =>
                 add_where (fun l => ge (logl_max r) l && gt l (logl_min r))
                           logl (multiplicity r) a)
              (filter (fun r => negb (isnan (logl_min r)) &&
                                negb (isnan (logl_max r))) lmm_ar) a in
          (assert (length (filter (fun r => isnan (logl_min r) &&
                                            isnan (logl_max r)) lmm_ar)
                   =? 0)%nat
                  threads_with_neither_start_nor_end ;;
           Ok a)%res
      end
  end.

Definition get_nlive (run_dict : ns_run_t) (logl : list npfloat)
  : result (list npfloat) :=
  (a <- nlive_of_run run_dict logl ;;
   m <- np_amin a ;;
   assert (gt m (Fin 0)) (nlive_array_contains_zeros (np_array_str a)) ;;
   Ok a)%res.

Definition merge_lrxp (array_list : list thread) : option (list sample_row) :=
  let output :=
    fold_left
      (fun output array =>
         match array with
         | Some a =>
             match output with
             | Some o => Some (o ++ a)
             | None => Some a
             end
         | None => output
         end)
      array_list None in
  match output with
  | Some o => Some (sort_by row_logl o)
  | None => None
  end.

Definition get_estimators (lrxp : list sample_row) (logw : list npfloat)
    (estimator_list : list estimator_t) : list npfloat :=
  map (fun f => estimator f logw (map row_logl lrxp) (map row_r lrxp)
                          (map row_theta lrxp))
      estimator_list.

(** [run_estimators]; [lrxp[:, 0]] is a TypeError when [merge_lrxp] returned
    None. *)
Definition run_estimators (ns_run : ns_run_t) (estimator_list : list estimator_t)
    (simulate : bool) : M (list npfloat) :=
  match merge_lrxp (threads ns_run) with
  | None => raise TypeError
  | Some lrxp =>
      (nlive <- lift (get_nlive ns_run (map row_logl lrxp)) ;;
       logw <- get_logw (map row_logl lrxp) nlive simulate ;;
       ret (get_estimators lrxp logw estimator_list))%M
  end.

(** Row [i] of a matrix of zeros whose columns were assigned [cols]. *)
Definition matrix_row (cols : list (list npfloat)) (i : nat) : list npfloat :=
  map (fun col => nth i col (Fin 0)) cols.

(** [n] rounds of [body], the values in order. *)
Fixpoint repeat_M {A : Type} (n : nat) (body : M A) : M (list A) :=
  match n with
  | O => ret []
  | S n' => (x <- body ;; xs <- repeat_M n' body ;; ret (x :: xs))%M
  end.

(** [run_std_simulate]: the standard deviations and the matrix of values;
    the source returns the pair or the deviations alone, as [return_values]
    asks. *)
Definition run_std_simulate (ns_run : ns_run_t)
    (estimator_list : list estimator_t) (n_simulate : Z)
  : M (list npfloat * list (list npfloat)) :=
  if (n_simulate <? 0)%Z then raise ValueError
  else
    match merge_lrxp (threads ns_run) with
    | None => raise TypeError
    | Some lrxp =>
        (nlive <- lift (get_nlive ns_run (map row_logl lrxp)) ;;
         all_values <-
           repeat_M (Z.to_nat n_simulate)
             (logw <- get_logw (map row_logl lrxp) nlive true ;;
              ret (get_estimators lrxp logw estimator_list)) ;;
         ret (map (fun i => np_std_ddof1 (matrix_row all_values i))
                  (seq 0 (length estimator_list)),
              all_values))%M
    end.

Definition bootstrap_resample_run (ns_run : ns_run_t) (sample_ninit_sep : bool)
  : M ns_run_t :=
  (let n_threads := Z.of_nat (length (threads ns_run)) in
   inds <-
     (if match dynamic_goal (settings ns_run) with
         | Some _ => sample_ninit_sep
         | None => false
         end
      then
        let ninit := nlive_1 (settings ns_run) in
        inds <- np_random_randint 0 ninit ninit ;;
        more <- np_random_randint ninit n_threads (n_threads - ninit) ;;
        ret (inds ++ more)
      else np_random_randint 0 n_threads n_threads) ;;
   threads_temp <- lift (sequence (map (getitem (threads ns_run)) inds)) ;;
   match thread_logl_min_max ns_run with
   | None => raise (KeyError "thread_logl_min_max")
   | Some lmm_ar =>
       logl_min_max_temp <- lift (sequence (map (getitem lmm_ar) inds)) ;;
       ret (mk_run threads_temp (Some logl_min_max_temp) None
                   (settings ns_run))
   end)%M.

(** The matrix [bs_values] of [run_std_bootstrap] and [run_ci_bootstrap],
    as the list of its columns; [np.zeros] refuses a negative dimension. *)
Definition bootstrap_values (ns_run : ns_run_t)
    (estimator_list : list estimator_t) (n_simulate : Z)
  : M (list (list npfloat)) :=
  if (n_simulate <? 0)%Z then raise ValueError
  else
    repeat_M (Z.to_nat n_simulate)
      (ns_run_temp <- bootstrap_resample_run ns_run true ;;
       run_estimators ns_run_temp estimator_list false)%M.

Definition run_std_bootstrap (ns_run : ns_run_t)
    (estimator_list : list estimator_t) (n_simulate : Z) : M (list npfloat) :=
  (bs_values <- bootstrap_values ns_run estimator_list n_simulate ;;
   ret (map (fun j => np_std_ddof1 (matrix_row bs_values j))
            (seq 0 (length estimator_list))))%M.

(** The grid [(j + 0.5) / n] for [j] in [range(n)]. *)
Definition cdf_grid (n : nat) : list npfloat :=
  map (fun j => div (add (Fin (INR j)) (Fin (1 / 2))) (Fin (INR n))) (seq 0 n).

Definition run_ci_bootstrap (ns_run : ns_run_t)
    (estimator_list : list estimator_t) (n_simulate : Z) (cred_int : float)
  : M (list npfloat) :=
  (n <- lift (float_of_int n_simulate) ;;
   lift (assert (1 <? py_min cred_int (1 - cred_int) * n)%float
                (n_simulate_not_big_enough n_simulate cred_int)) ;;
   bs_values <- bootstrap_values ns_run estimator_list n_simulate ;;
   expected_estimators <- run_estimators ns_run estimator_list false ;;
   let cdf := cdf_grid (length bs_values) in
   let ci_output := map (fun e => mul e (Fin 2)) expected_estimators in
   lift (sequence
           (map (fun i =>
                   (q <- np_interp (float_value (1 - cred_int)%float) cdf
                                   (np_sort (matrix_row bs_values i)) ;;
                    Ok (sub (nth i ci_output (Fin 0)) q))%res)
                (seq 0 (length ci_output)))))%M.

(* ================================================================== *)
(** ** Further functions of pns/maths_functions.py *)

(** [np.absolute]. *)
Definition np_absolute (a : npfloat) : npfloat :=
  match a with
  | NaN => NaN
  | NInf | PInf => PInf
  | Fin x => Fin (Rabs x)
  end.

(** [a ** 2]. *)
Definition square (a : npfloat) : npfloat := mul a a.

Definition logx_terminate_bound
    (logl_max zv_termination_fraction logz_analytic : npfloat) : npfloat :=
  sub (add (log zv_termination_fraction) logz_analytic) logl_max.

Definition nsphere_r_given_logx (logx r_max : npfloat) (n_dim : Z) : npfloat :=
  let r := mul (exp (div logx (Fin (IZR n_dim)))) r_max in
  r.

Definition nsphere_logx_given_r (r r_max : npfloat) (n_dim : Z) : npfloat :=
  let logx := mul (sub (log r) (log r_max)) (Fin (IZR n_dim)) in
  logx.

Definition log_gaussian_given_r (r sigma : npfloat) (n_dim : Z) : npfloat :=
  let logl := mul (Fin (-0.5)) (div (square r) (square sigma)) in
  let logl := sub logl (mul (Fin (IZR n_dim)) (log sigma)) in
  let logl := sub logl (mul (log (Fin (2 * PI))) (Fin (IZR n_dim / 2))) in
  logl.

(** [entropy_num_samples]; the source returns the integer 0 on an empty
    array. *)
Definition entropy_num_samples (w : list npfloat) : npfloat :=
  if (length w =? 0)%nat then Fin 0
  else
    let w := map np_absolute w in
    let w := map (fun x => div x (sum w)) w in
    let w := filter (fun x => gt x (Fin 0)) w in
    exp (mul (Fin (-1)) (sum (map (fun x => mul x (log x)) w))).

(* ================================================================== *)
(** ** Further functions of pns/analysis_utils.py *)

(** A row of the array of [logl_mm_array], as an interval record. *)
Definition lmm_of_row (row : list npfloat) : lmm_row :=
  mk_lmm (nth 0 row NaN) (nth 1 row NaN) (nth 2 row NaN).

(** [logl_mm_array]: every row starts as [[0, 0, 1]] and gets the entry of
    the list written over its first [len(logl_mm)] columns. *)
Definition logl_mm_array (logl_mm_list : list (list npfloat))
  : result (list lmm_row) :=
  sequence
    (map (fun logl_mm =>
            (row <- assign_slice [Fin 0; Fin 0; Fin 1] 0
                                 (Nat.min (length logl_mm) 3) logl_mm ;;
             Ok (lmm_of_row row))%res)
         logl_mm_list).

(* ================================================================== *)
(** ** The vocabulary of the specification *)

(** A live count is strictly positive. *)
Definition positive (n : npfloat) : Prop := gt n (Fin 0) = true.

(** The deterministic step [-1 / nlive[i]]. *)
Definition logx_step (n : npfloat) : npfloat := div (Fin (-1)) n.

(** The sum of the first [i + 1] elements. *)
Definition prefix_sum (steps : list npfloat) (i : nat) : npfloat :=
  sum (firstn (S i) steps).

(** A list of floats never increases from one element to the next. *)
Definition non_increasing (l : list npfloat) : Prop :=
  forall i, (S i < length l)%nat ->
            le (nth (S i) l NaN) (nth i l NaN) = true.

(** Every error [c] can raise satisfies [P]. *)
Definition raises_only {A : Type} (P : exn -> Prop) (c : result A) : Prop :=
  forall e, c = Raise e -> P e.

Definition raises_only_M {A : Type} (P : exn -> Prop) (c : M A) : Prop :=
  forall g e g', c g = (Raise e, g') -> P e.

(** The error of the assertion that opens [run_ci_bootstrap]. *)
Definition insufficient_sample (e : exn) : Prop :=
  match e with
  | AssertionError (n_simulate_not_big_enough _ _) => True
  | _ => False
  end.

(** The comparison [min(cred_int, 1. - cred_int) * n_simulate > 1] of
    [run_ci_bootstrap], computed in binary64, is false, respectively
    true. *)
Definition guard_fails (n_simulate : Z) (cred_int : float) : Prop :=
  exists n,
    float_of_int n_simulate = Ok n /\
    (1 <? py_min cred_int (1 - cred_int) * n)%float = false.

Definition guard_passes (n_simulate : Z) (cred_int : float) : Prop :=
  exists n,
    float_of_int n_simulate = Ok n /\
    (1 <? py_min cred_int (1 - cred_int) * n)%float = true.

(** The trapezium term of sample [i] over the augmented volumes [X]:
    [log_subtract(X[i], X[i+2]) - log(2)]. *)
Definition trapezium_term (X : list npfloat) (i : nat) : npfloat :=
  sub (log_subtract_value (nth i X NaN) (nth (i + 2) X NaN)) (log (Fin 2)).

(** The volume weight of sample [i] of [N] as the specification gives it:
    the trapezium term inside, [first] for the first sample, and for the
    last sample the weight of the one before it. *)
Definition volume_weight (X : list npfloat) (N : nat) (first : npfloat)
    (i : nat) : npfloat :=
  let w j := if (j =? 0)%nat then first else trapezium_term X j in
  if (i =? N - 1)%nat then w (N - 2)%nat else w i.

(** Whether the interval of a record contains the log-likelihood [L], as
    the specification words it for the three kinds of record. *)
Definition interval_contains (r : lmm_row) (L : npfloat) : bool :=
  match isnan (logl_min r), isnan (logl_max r) with
  | true, _ => le L (logl_max r)
  | false, true => gt L (logl_min r)
  | false, false => lt (logl_min r) L && le L (logl_max r)
  end.

(** The sum of [multiplicity] over the records whose interval contains
    [L]. *)
Definition stabbing_sum (lmm_ar : list lmm_row) (L : npfloat) : npfloat :=
  sum (map multiplicity (filter (fun r => interval_contains r L) lmm_ar)).

(** No record has both bounds NaN. *)
Definition no_unbounded_record (lmm_ar : list lmm_row) : Prop :=
  Forall (fun r => isnan (logl_min r) && isnan (logl_max r) = false) lmm_ar.

(** The records of the specification's scenario: [(NaN, -2, 3)] and
    [(-2, NaN, 2)]. *)
Definition scenario_records : list lmm_row :=
  [mk_lmm NaN (Fin (-2)) (Fin 3); mk_lmm (Fin (-2)) NaN (Fin 2)].

(** The rows of the threads that are not None, in the order of the list. *)
Definition present_rows (array_list : list thread) : list sample_row :=
  flat_map (fun t => match t with Some a => a | None => [] end) array_list.

Definition is_present (t : thread) : bool :=
  match t with Some _ => true | None => false end.

(** Ascending by the first column, in the order of [np.sort]. *)
Definition ascending_logl (a b : sample_row) : Prop :=
  sort_le (row_logl a) (row_logl b) = true.

(** The elements of [l] at the positions [inds], as [[l[i] for i in inds]]
    and [l[inds]] pick them. *)
Definition take {A : Type} (d : A) (l : list A) (inds : list Z) : list A :=
  map (fun i => nth (Z.to_nat i) l d) inds.

(** Every element of [inds] is one of [low .. high - 1]. *)
Definition all_within (low high : Z) (inds : list Z) : Prop :=
  Forall (fun i => (low <= i < high)%Z) inds.

(** The [size] draws [np.random.randint(low, high, size)] makes from the
    state [g]: draw [k] is decided by the raw integer number
    [consumed g + k] alone. *)
Definition draws (low high : Z) (size : nat) (g : rng) : list Z :=
  map (fun k => (low + Z.of_nat (rand_ints g (consumed g + k))
                       mod (high - low))%Z)
      (seq 0 size).

(** The default of [take] on interval records; never picked when the
    indices are within the records. *)
Definition absent_lmm : lmm_row := mk_lmm NaN NaN NaN.

(** Whether [bootstrap_resample_run] takes its stratified branch. *)
Definition stratified (ns_run : ns_run_t) (sample_ninit_sep : bool) : bool :=
  match dynamic_goal (settings ns_run) with
  | Some _ => sample_ninit_sep
  | None => false
  end.

(** The slot ranges [bootstrap_resample_run] draws its indices from are
    not empty: the initial threads and the threads after them on the
    stratified branch, all the threads otherwise. *)
Definition index_ranges_nonempty (ns_run : ns_run_t)
    (sample_ninit_sep : bool) : Prop :=
  let n_threads := Z.of_nat (length (threads ns_run)) in
  let ninit := nlive_1 (settings ns_run) in
  if stratified ns_run sample_ninit_sep then (0 < ninit < n_threads)%Z
  else (0 < n_threads)%Z.

(** [col] holds the values of the estimators on one bootstrap resample of
    [ns_run], weighted without simulation. *)
Definition bootstrap_replicate (ns_run : ns_run_t)
    (estimator_list : list estimator_t) (col : list npfloat) : Prop :=
  exists ns_run_temp g g1 g2,
    bootstrap_resample_run ns_run true g = (Ok ns_run_temp, g1) /\
    run_estimators ns_run_temp estimator_list false g1 = (Ok col, g2).

(** A dynamic run of two threads of one sample each, an initial thread and
    one added where it ends, and an estimator: the first weight. *)
Definition two_thread_run : ns_run_t :=
  mk_run [Some [mk_row (Fin 1) (Fin 0) (Fin 0) []];
          Some [mk_row (Fin 2) (Fin 0) (Fin 0) []]]
         (Some [mk_lmm NaN (Fin 1) (Fin 1); mk_lmm (Fin 1) (Fin 2) (Fin 1)])
         None (mk_settings (Some 1) 0 1).

Definition first_weight : estimator_t :=
  mk_estimator "first weight" (fun logw _ _ _ => nth 0 logw NaN).

(** A dynamic run of four threads, two initial ones and two added where
    the first one ends, with the samples of every thread inside its
    interval; and a random state whose raw integers are listed. *)
Definition sample (logl : R) : sample_row :=
  mk_row (Fin logl) (Fin 0) (Fin 0) [].

Definition four_threads : list thread :=
  [Some [sample 1]; Some [sample 1; sample 2];
   Some [sample 3]; Some [sample 2; sample 3; sample 4]].

Definition four_records : list lmm_row :=
  [mk_lmm NaN (Fin 1) (Fin 1); mk_lmm NaN (Fin 2) (Fin 1);
   mk_lmm (Fin 1) (Fin 3) (Fin 1); mk_lmm (Fin 1) (Fin 4) (Fin 1)].

Definition four_thread_run : ns_run_t :=
  mk_run four_threads (Some four_records) None (mk_settings (Some 1) 0 2).

Definition listed_rng (raw : list nat) : rng :=
  mk_rng (fun k => nth k raw O) (fun _ => 0) O.

(** The resample of [four_thread_run] with the threads and the records at
    the indices [inds]. *)
Definition resampled (inds : list Z) : ns_run_t :=
  mk_run (take None four_threads inds)
         (Some (take absent_lmm four_records inds))
         None (settings four_thread_run).

(** The number of records whose interval contains [L]. *)
Definition threads_alive (lmm_ar : list lmm_row) (L : npfloat) : nat :=
  length (filter (fun r => interval_contains r L) lmm_ar).

(** The live counts of a standard run of [N] samples with [nl] live
    points: [nl], and over the last [nl - 1] samples the number of samples
    that remain. *)
Definition standard_nlive (nl N : nat) : list npfloat :=
  map (fun j => if (j + nl <=? N)%nat then Fin (INR nl) else Fin (INR (N - j)))
      (seq 0 N).

(** Strictly ascending by the first column. *)
Definition strictly_ascending_logl (a b : sample_row) : Prop :=
  lt (row_logl a) (row_logl b) = true.

(** A finite float. *)
Definition finite (a : npfloat) : Prop := isfinite a = true.

(** A live count that is positive and finite. *)
Definition positive_finite (n : npfloat) : Prop :=
  exists x, n = Fin x /\ 0 < x.

(** The live counts after the first [m] assignments [nlive_array[-i] = i]
    over the array filled with [nl]. *)
Definition ramp_after (nl : Z) (N m : nat) : list npfloat :=
  map (fun j => if (N <=? j + m)%nat then Fin (INR (N - j))
                else Fin (0 + IZR nl))
      (seq 0 N).


(** The steps of the simulated mode of [get_logx] from the state [g]:
    [log(U_k) / nlive[k]], with [U_k] the [k]-th uniform draw. *)
Definition simulated_steps (g : rng) (nlive_array : list npfloat)
  : list npfloat :=
  map2 (fun k n => div (log (Fin (rand_floats g (consumed g + k)))) n)
       (seq 0 (length nlive_array)) nlive_array.

(** The interval record of an entry of the list given to [logl_mm_array]:
    the columns the entry does not give are 0, 0 and 1. *)
Definition padded_record (logl_mm : list npfloat) : lmm_row :=
  mk_lmm (nth 0 logl_mm (Fin 0)) (nth 1 logl_mm (Fin 0))
         (nth 2 logl_mm (Fin 1)).

(** The grid point [(j + 0.5) / n]. *)
Definition grid_point (n j : nat) : R := (INR j + 1 / 2) / INR n.

(** [q] is the value at [x] of the piecewise linear function through the
    points [(grid_point n j, s[j])], [j < n], continued to the left by its
    first and to the right by its last value; at a NaN it is NaN. *)
Definition linear_interpolation (n : nat) (s : list npfloat) (x q : npfloat)
  : Prop :=
  (isnan x = true -> q = NaN) /\
  (lt x (Fin (grid_point n 0)) = true -> q = nth 0 s NaN) /\
  (le (Fin (grid_point n (n - 1))) x = true -> q = nth (n - 1) s NaN) /\
  (forall j, (S j < n)%nat ->
             le (Fin (grid_point n j)) x = true ->
             lt x (Fin (grid_point n (S j))) = true ->
             q = add (mul (div (sub (nth (S j) s NaN) (nth j s NaN))
                               (Fin (grid_point n (S j) - grid_point n j)))
                          (sub x (Fin (grid_point n j))))
                     (nth j s NaN)).

(** A finite float between [lo] and [hi]. *)
Definition within (lo hi : R) (v : npfloat) : Prop :=
  match v with
  | Fin r => lo <= r <= hi
  | _ => False
  end.

(** An estimator for the examples: the number of samples. *)
Definition sample_count : estimator_t :=
  mk_estimator "number of samples"
               (fun _ logl _ _ => Fin (INR (length logl))).

(* ================================================================== *)
(** * Properties *)

(** ** Comparisons of reals as booleans *)

Lemma Rltb_lt (x y : R) : Rltb x y = true <-> x < y.
Proof. unfold Rltb; destruct (Rlt_dec x y); split; auto; discriminate. Qed.

Lemma Rltb_ge (x y : R) : Rltb x y = false <-> y <= x.
Proof.
  unfold Rltb; destruct (Rlt_dec x y); split; auto; try discriminate; lra.
Qed.

Lemma Rleb_le (x y : R) : Rleb x y = true <-> x <= y.
Proof. unfold Rleb; destruct (Rle_dec x y); split; auto; discriminate. Qed.

Lemma Rleb_gt (x y : R) : Rleb x y = false <-> y < x.
Proof.
  unfold Rleb; destruct (Rle_dec x y); split; auto; try discriminate; lra.
Qed.

Lemma Reqb_eq (x y : R) : Reqb x y = true <-> x = y.
Proof. unfold Reqb; destruct (Req_dec_T x y); split; auto; discriminate. Qed.

Lemma Reqb_neq (x y : R) : Reqb x y = false <-> x <> y.
Proof.
  unfold Reqb; destruct (Req_dec_T x y); split; auto; try discriminate.
  intros H; contradiction.
Qed.

(** Deciding the comparisons of the goal between concrete reals. *)
Ltac Rbool :=
  unfold Rltb, Rleb, Reqb;
  repeat match goal with
    | |- context [Rlt_dec ?a ?b] => destruct (Rlt_dec a b); try lra
    | |- context [Rle_dec ?a ?b] => destruct (Rle_dec a b); try lra
    | |- context [Req_dec_T ?a ?b] => destruct (Req_dec_T a b); try lra
    end.

(** ** Addition of numpy floats is a commutative monoid *)

Lemma add_comm (a b : npfloat) : add a b = add b a.
Proof. destruct a, b; simpl; try reflexivity; f_equal; lra. Qed.

Lemma add_assoc (a b c : npfloat) : add a (add b c) = add (add a b) c.
Proof. destruct a, b, c; simpl; try reflexivity; f_equal; lra. Qed.

Lemma add_0_l (a : npfloat) : add (Fin 0) a = a.
Proof. destruct a; simpl; try reflexivity; f_equal; lra. Qed.

Lemma add_0_r (a : npfloat) : add a (Fin 0) = a.
Proof. rewrite add_comm; apply add_0_l. Qed.

(* ------------------------------------------------------------------ *)
(** ** log_subtract *)

Lemma log_subtract_value_lt (a b : npfloat) :
  lt a b = true -> log_subtract_value a b = NaN.
Proof.
  unfold log_subtract_value.
  destruct a as [| | |x], b as [| | |y]; simpl; try discriminate; auto.
  intros H; apply Rltb_lt in H.
  assert (E : 1 < Rtrigo_def.exp (y + - x)).
  { pose proof (exp_ineq1 (y + - x)) as I. lra. }
  replace (Rltb (1 + - Rtrigo_def.exp (y + - x)) 0) with true; [reflexivity|].
  symmetry; apply Rltb_lt; lra.
Qed.

(** C9, as the code has it: [log_subtract] has no raising path.  Called
    with [log_a < log_b] it returns a value, and that value is NaN. *)
Theorem log_subtract_lt_returns_nan (log_a log_b : npfloat) :
  lt log_a log_b = true ->
  log_subtract log_a log_b = Ok NaN /\
  (forall e, log_subtract log_a log_b <> Raise e).
Proof.
  intros H; unfold log_subtract; rewrite (log_subtract_value_lt _ _ H).
  split; [reflexivity | intros e; discriminate].
Qed.

Lemma log_subtract_lt_returns_nan_witness :
  lt (Fin 0) (Fin 1) = true /\ log_subtract (Fin 0) (Fin 1) = Ok NaN.
Proof.
  assert (H : lt (Fin 0) (Fin 1) = true) by (apply Rltb_lt; lra).
  split; [exact H | exact (proj1 (log_subtract_lt_returns_nan _ _ H))].
Defined.

(** C9 as the specification states it fails: with [log_a = 0 < 1 = log_b]
    the call raises nothing and returns NaN. *)
Lemma log_subtract_does_not_raise :
  lt (Fin 0) (Fin 1) = true /\
  log_subtract (Fin 0) (Fin 1) = Ok NaN /\
  ~ (exists e, log_subtract (Fin 0) (Fin 1) = Raise e).
Proof.
  assert (H : lt (Fin 0) (Fin 1) = true) by (apply Rltb_lt; lra).
  split; [exact H|].
  unfold log_subtract; rewrite (log_subtract_value_lt _ _ H).
  split; [reflexivity | intros [e E]; discriminate].
Qed.

(* ------------------------------------------------------------------ *)
(** ** get_logx *)

Lemma min2_gt_0 (a b : npfloat) :
  positive a -> positive b -> positive (min2 a b).
Proof.
  unfold positive, min2; intros Ha Hb.
  destruct a, b; simpl in *; try discriminate; auto;
    match goal with |- context [if ?c then _ else _] => destruct c end; auto.
Qed.

Lemma fold_min2_positive (l : list npfloat) (a : npfloat) :
  positive a -> Forall positive l -> positive (fold_left min2 l a).
Proof.
  revert a; induction l as [|x l IH]; intros a Ha Hl; simpl; auto.
  inversion Hl; subst. apply IH; auto using min2_gt_0.
Qed.

Lemma np_amin_positive (l : list npfloat) :
  l <> [] -> Forall positive l ->
  exists m, np_amin l = Ok m /\ positive m.
Proof.
  destruct l as [|x l]; [congruence|]; intros _ H; inversion H; subst.
  eexists; split; [reflexivity|]. apply fold_min2_positive; auto.
Qed.

Lemma min2_positive_inv (a b : npfloat) :
  positive (min2 a b) -> positive a /\ positive b.
Proof.
  unfold positive, min2, gt.
  destruct a as [| | |x], b as [| | |y]; simpl; try discriminate; auto;
    unfold Rleb; try destruct (Rle_dec x y) as [L|L]; simpl;
    intros H; try apply Rltb_lt in H; split; try reflexivity;
    try discriminate; apply Rltb_lt; lra.
Qed.

Lemma fold_min2_positive_inv (l : list npfloat) (a : npfloat) :
  positive (fold_left min2 l a) -> positive a /\ Forall positive l.
Proof.
  revert a; induction l as [|x l IH]; intros a H; simpl in *; auto.
  apply IH in H; destruct H as [H Hl].
  apply min2_positive_inv in H; destruct H; auto.
Qed.

Lemma np_amin_positive_inv (l : list npfloat) (m : npfloat) :
  np_amin l = Ok m -> positive m -> l <> [] /\ Forall positive l.
Proof.
  destruct l as [|x l]; simpl; [discriminate|].
  intros E H; inversion E; subst.
  apply fold_min2_positive_inv in H; destruct H.
  split; [discriminate | auto].
Qed.

Lemma cumsum_from_prefix (l : list npfloat) (acc : npfloat) :
  cumsum_from acc l =
  map (fun i => fold_left add (firstn (S i) l) acc) (seq 0 (length l)).
Proof.
  revert acc; induction l as [|x l IH]; intros acc; simpl; [reflexivity|].
  f_equal. rewrite IH, <- seq_shift, map_map. reflexivity.
Qed.

Lemma cumsum_prefix_sum (l : list npfloat) :
  cumsum l = map (prefix_sum l) (seq 0 (length l)).
Proof. apply cumsum_from_prefix. Qed.

Lemma logx_step_nonpos (n : npfloat) :
  positive n -> exists s, logx_step n = Fin s /\ s <= 0.
Proof.
  unfold positive, logx_step, div, recip.
  destruct n as [| | |x]; simpl; try discriminate.
  - intros _. exists (-1 * 0); split; [reflexivity | lra].
  - intros H; apply Rltb_lt in H.
    replace (Reqb x 0) with false by (symmetry; apply Reqb_neq; lra).
    exists (-1 * / x); split; [reflexivity|].
    assert (0 < / x) by (apply Rinv_0_lt_compat; lra). lra.
Qed.

Lemma cumsum_from_non_increasing (l : list npfloat) (a : R) :
  Forall (fun s => exists x, s = Fin x /\ x <= 0) l ->
  non_increasing (cumsum_from (Fin a) l) /\
  Forall (fun v => exists b, v = Fin b /\ b <= a) (cumsum_from (Fin a) l).
Proof.
  revert a; induction l as [|s l IH]; intros a H.
  - simpl. split; [intros i Hi; simpl in Hi; lia | constructor].
  - inversion H as [|? ? [x [-> Hx]] Hl]; subst. simpl.
    destruct (IH (a + x) Hl) as [Hni Hall].
    split.
    + intros [|i] Hi.
      * simpl in *. destruct l as [|s' l']; [simpl in Hi; lia|].
        simpl in Hall. inversion Hall as [|? ? [b [Eb Hb]] _]; subst.
        simpl. rewrite Eb. simpl. apply Rleb_le; lra.
      * simpl in Hi. apply (Hni i). lia.
    + constructor; [exists (a + x); split; [reflexivity | lra]|].
      eapply Forall_impl; [|exact Hall].
      intros v [b [-> Hb]]. exists b; split; [reflexivity | lra].
Qed.

Lemma get_logx_false (nlive_array : list npfloat) (g : rng) :
  nlive_array <> [] -> Forall positive nlive_array ->
  get_logx nlive_array false g =
  (Ok (cumsum (map logx_step nlive_array)), g).
Proof.
  intros Hne Hpos.
  destruct (np_amin_positive _ Hne Hpos) as [m [Em Hm]].
  unfold get_logx, bind, lift, ret. rewrite Em.
  unfold positive in Hm. rewrite Hm. reflexivity.
Qed.

(** C3: in deterministic mode [get_logx] returns, without touching the
    random state, the prefix sums of the decrements [-1 / nlive[i]]; the
    sequence never increases; for [nlive = [5, 5, 5, 5, 5]] it is
    [[-0.2, -0.4, -0.6, -0.8, -1.0]]. *)
Theorem get_logx_deterministic :
  (forall (nlive_array : list npfloat) (g : rng),
      nlive_array <> [] -> Forall positive nlive_array ->
      let steps := map logx_step nlive_array in
      get_logx nlive_array false g =
      (Ok (map (prefix_sum steps) (seq 0 (length nlive_array))), g) /\
      non_increasing (map (prefix_sum steps) (seq 0 (length nlive_array)))) /\
  (forall g : rng,
      get_logx [Fin 5; Fin 5; Fin 5; Fin 5; Fin 5] false g =
      (Ok [Fin (-0.2); Fin (-0.4); Fin (-0.6); Fin (-0.8); Fin (-1.0)], g)).
Proof.
  split.
  - intros nlive_array g Hne Hpos steps.
    rewrite (get_logx_false _ g Hne Hpos).
    rewrite cumsum_prefix_sum. fold steps.
    replace (length steps) with (length nlive_array)
      by (unfold steps; now rewrite length_map).
    split; [reflexivity|].
    rewrite <- (length_map logx_step nlive_array). fold steps.
    rewrite <- cumsum_prefix_sum. unfold cumsum.
    apply cumsum_from_non_increasing.
    unfold steps. apply Forall_map.
    eapply Forall_impl; [|exact Hpos].
    intros n Hn. destruct (logx_step_nonpos n Hn) as [s [E Hs]].
    exists s; auto.
  - intros g. rewrite get_logx_false.
    + unfold cumsum, logx_step, div, recip; simpl.
      replace (Reqb 5 0) with false by (symmetry; apply Reqb_neq; lra).
      simpl. repeat f_equal; lra.
    + discriminate.
    + repeat constructor; apply Rltb_lt; lra.
Qed.

Lemma get_logx_deterministic_witness :
  let nlive_array := [Fin 2; Fin 4] in
  let g := mk_rng (fun _ => O) (fun _ => 0) O in
  nlive_array <> [] /\ Forall positive nlive_array /\
  get_logx nlive_array false g =
  (Ok (map (prefix_sum (map logx_step nlive_array)) (seq 0 2)), g).
Proof.
  intros nlive_array g.
  assert (Hne : nlive_array <> []) by discriminate.
  assert (Hpos : Forall positive nlive_array)
    by (repeat constructor; apply Rltb_lt; lra).
  split; [exact Hne|]. split; [exact Hpos|].
  exact (proj1 (proj1 get_logx_deterministic nlive_array g Hne Hpos)).
Defined.

(* ------------------------------------------------------------------ *)
(** ** Which errors a computation can raise *)

Section RaisesOnly.

Variable P : exn -> Prop.

Lemma raises_only_Ok {A} (a : A) : raises_only P (Ok a).
Proof. intros e H; discriminate. Qed.

Lemma raises_only_Raise {A} (e : exn) : P e -> raises_only P (@Raise A e).
Proof. intros H e' E; inversion E; subst; exact H. Qed.

Lemma raises_only_rbind {A B} (c : result A) (k : A -> result B) :
  raises_only P c -> (forall a, raises_only P (k a)) ->
  raises_only P (rbind c k).
Proof.
  intros Hc Hk e. destruct c as [a|e']; simpl.
  - apply Hk.
  - intros E; inversion E; subst. apply Hc; reflexivity.
Qed.

Lemma raises_only_assert (b : bool) (m : assert_msg) :
  P (AssertionError m) -> raises_only P (assert b m).
Proof.
  intros H; unfold assert; destruct b;
    [apply raises_only_Ok | apply raises_only_Raise; exact H].
Qed.

Lemma raises_only_sequence {A} (l : list (result A)) :
  Forall (raises_only P) l -> raises_only P (sequence l).
Proof.
  induction 1 as [|c l Hc Hl IH]; simpl.
  - apply raises_only_Ok.
  - apply raises_only_rbind; [exact Hc|]. intros x.
    apply raises_only_rbind; [exact IH|]. intros xs. apply raises_only_Ok.
Qed.

Lemma raises_only_ret {A} (a : A) : raises_only_M P (ret a).
Proof. intros g e g' H; discriminate. Qed.

Lemma raises_only_raise {A} (e : exn) : P e -> raises_only_M P (@raise A e).
Proof. intros H g e' g' E; inversion E; subst; exact H. Qed.

Lemma raises_only_lift {A} (c : result A) :
  raises_only P c -> raises_only_M P (lift c).
Proof. intros H g e g' E; inversion E; subst; apply H; reflexivity. Qed.

Lemma raises_only_bind {A B} (c : M A) (k : A -> M B) :
  raises_only_M P c -> (forall a, raises_only_M P (k a)) ->
  raises_only_M P (bind c k).
Proof.
  intros Hc Hk g e g'. unfold bind.
  destruct (c g) as [[a|e'] g1] eqn:E.
  - apply Hk.
  - intros E'; inversion E'; subst. eapply Hc; exact E.
Qed.

Lemma raises_only_repeat_M {A} (n : nat) (body : M A) :
  raises_only_M P body -> raises_only_M P (repeat_M n body).
Proof.
  intros H; induction n as [|n IH]; simpl.
  - apply raises_only_ret.
  - apply raises_only_bind; [exact H|]. intros x.
    apply raises_only_bind; [exact IH|]. intros xs. apply raises_only_ret.
Qed.

(** The errors of the library functions and of indexing. *)
Hypothesis P_IndexError : P IndexError.
Hypothesis P_ValueError : P ValueError.

Lemma raises_only_getitem {A} (a : list A) (i : Z) :
  raises_only P (getitem a i).
Proof.
  unfold getitem. destruct (norm_index _ _);
    [destruct (nth_error _ _)|];
    auto using raises_only_Ok, raises_only_Raise.
Qed.

Lemma raises_only_setitem {A} (a : list A) (i : Z) (v : A) :
  raises_only P (setitem a i v).
Proof.
  unfold setitem. destruct (norm_index _ _);
    auto using raises_only_Ok, raises_only_Raise.
Qed.

Lemma raises_only_np_amin (a : list npfloat) : raises_only P (np_amin a).
Proof.
  destruct a; simpl; auto using raises_only_Ok, raises_only_Raise.
Qed.

Lemma raises_only_np_amax (a : list npfloat) : raises_only P (np_amax a).
Proof.
  destruct a; simpl; auto using raises_only_Ok, raises_only_Raise.
Qed.

Lemma raises_only_assign_slice (a : list npfloat) (i j : nat)
    (v : list npfloat) :
  raises_only P (assign_slice a i j v).
Proof.
  unfold assign_slice, broadcast_to.
  destruct (_ =? _)%nat; simpl; [apply raises_only_Ok|].
  destruct v as [|x [|y v]]; simpl;
    auto using raises_only_Ok, raises_only_Raise.
Qed.

Lemma raises_only_logsumexp (a : list npfloat) :
  raises_only P (logsumexp a).
Proof.
  unfold logsumexp. apply raises_only_rbind;
    [apply raises_only_np_amax | intros; apply raises_only_Ok].
Qed.

Lemma raises_only_log_subtract_array (a b : list npfloat) :
  raises_only P (log_subtract_array a b).
Proof.
  unfold log_subtract_array. apply raises_only_sequence.
  revert b; induction a as [|x a IH]; intros [|y b]; simpl; constructor;
    [apply raises_only_Ok | apply IH].
Qed.

Lemma raises_only_np_interp (x : npfloat) (xp fp : list npfloat) :
  raises_only P (np_interp x xp fp).
Proof.
  unfold np_interp. destruct xp, fp;
    auto using raises_only_Ok, raises_only_Raise.
  destruct (negb _); [auto using raises_only_Raise|].
  destruct (isnan x); [apply raises_only_Ok|].
  destruct (lt x n); apply raises_only_Ok.
Qed.

Lemma raises_only_np_random_randint (low high size : Z) :
  raises_only_M P (np_random_randint low high size).
Proof.
  intros g e g'. unfold np_random_randint.
  destruct (_ || _); intros E; inversion E; subst; exact P_ValueError.
Qed.

Lemma raises_only_np_random_random (n : nat) :
  raises_only_M P (np_random_random n).
Proof. intros g e g' E; discriminate. Qed.

(** The assertions of [get_logx] and [get_nlive], the missing key of
    [bootstrap_resample_run] and the missing table of [run_estimators]. *)
Hypothesis P_logx : forall a, P (AssertionError (logx_nlive_contains_zeros a)).
Hypothesis P_dynamic :
  P (AssertionError dynamic_run_without_thread_logl_min_max).
Hypothesis P_neither : P (AssertionError threads_with_neither_start_nor_end).
Hypothesis P_nlive : forall a, P (AssertionError (nlive_array_contains_zeros a)).
Hypothesis P_KeyError : forall k, P (KeyError k).
Hypothesis P_TypeError : P TypeError.

Lemma raises_only_get_logx (nlive_array : list npfloat) (simulate : bool) :
  raises_only_M P (get_logx nlive_array simulate).
Proof.
  unfold get_logx.
  apply raises_only_bind;
    [apply raises_only_lift, raises_only_np_amin | intros m].
  apply raises_only_bind;
    [apply raises_only_lift, raises_only_assert, P_logx | intros _].
  apply raises_only_bind; [|intros; apply raises_only_ret].
  destruct simulate; [|apply raises_only_ret].
  apply raises_only_bind;
    [apply raises_only_np_random_random | intros; apply raises_only_ret].
Qed.

Lemma raises_only_get_logw (logl nlive_array : list npfloat)
    (simulate : bool) :
  raises_only_M P (get_logw logl nlive_array simulate).
Proof.
  unfold get_logw.
  repeat first
    [ apply raises_only_ret
    | apply raises_only_get_logx
    | apply raises_only_bind; [|intros ?]
    | apply raises_only_lift
    | apply raises_only_assign_slice
    | apply raises_only_log_subtract_array
    | apply raises_only_getitem
    | apply raises_only_setitem
    | apply raises_only_logsumexp
    | apply raises_only_Ok
    | progress unfold log_subtract ].
Qed.

Lemma raises_only_nlive_of_run (run_dict : ns_run_t) (logl : list npfloat) :
  raises_only P (nlive_of_run run_dict logl).
Proof.
  unfold nlive_of_run.
  destruct (nlive_array run_dict); [apply raises_only_Ok|].
  destruct (thread_logl_min_max run_dict).
  - apply raises_only_rbind;
      [apply raises_only_assert, P_neither | intros; apply raises_only_Ok].
  - apply raises_only_rbind;
      [apply raises_only_assert, P_dynamic | intros _].
    generalize (map (fun z => add z (Fin (IZR (nlive (settings run_dict)))))
                    (zeros (length logl))).
    intros a.
    assert (H : raises_only P (Ok a)) by apply raises_only_Ok.
    revert H. generalize (Ok a).
    induction (map Z.of_nat (seq 1 (Z.to_nat (nlive (settings run_dict)) - 1)))
      as [|i l IH]; intros acc H; simpl; [exact H|].
    apply IH. apply raises_only_rbind; [exact H|].
    intros; apply raises_only_setitem.
Qed.

Lemma raises_only_get_nlive (run_dict : ns_run_t) (logl : list npfloat) :
  raises_only P (get_nlive run_dict logl).
Proof.
  unfold get_nlive.
  apply raises_only_rbind; [apply raises_only_nlive_of_run | intros a].
  apply raises_only_rbind; [apply raises_only_np_amin | intros m].
  apply raises_only_rbind;
    [apply raises_only_assert, P_nlive | intros; apply raises_only_Ok].
Qed.

Lemma raises_only_run_estimators (ns_run : ns_run_t)
    (estimator_list : list estimator_t) (simulate : bool) :
  raises_only_M P (run_estimators ns_run estimator_list simulate).
Proof.
  unfold run_estimators. destruct (merge_lrxp _);
    [|apply raises_only_raise, P_TypeError].
  apply raises_only_bind;
    [apply raises_only_lift, raises_only_get_nlive | intros nl].
  apply raises_only_bind;
    [apply raises_only_get_logw | intros; apply raises_only_ret].
Qed.

Lemma raises_only_bootstrap_resample_run (ns_run : ns_run_t) (sep : bool) :
  raises_only_M P (bootstrap_resample_run ns_run sep).
Proof.
  unfold bootstrap_resample_run.
  apply raises_only_bind.
  - destruct (match dynamic_goal _ with Some _ => sep | None => false end);
      [|apply raises_only_np_random_randint].
    apply raises_only_bind; [apply raises_only_np_random_randint|intros].
    apply raises_only_bind; [apply raises_only_np_random_randint|intros].
    apply raises_only_ret.
  - intros inds. apply raises_only_bind.
    + apply raises_only_lift, raises_only_sequence, Forall_map.
      apply Forall_forall; intros; apply raises_only_getitem.
    + intros ts. destruct (thread_logl_min_max ns_run);
        [|apply raises_only_raise, P_KeyError].
      apply raises_only_bind; [|intros; apply raises_only_ret].
      apply raises_only_lift, raises_only_sequence, Forall_map.
      apply Forall_forall; intros; apply raises_only_getitem.
Qed.

Lemma raises_only_bootstrap_values (ns_run : ns_run_t)
    (estimator_list : list estimator_t) (n_simulate : Z) :
  raises_only_M P (bootstrap_values ns_run estimator_list n_simulate).
Proof.
  unfold bootstrap_values. destruct (_ <? _)%Z;
    [apply raises_only_raise, P_ValueError|].
  apply raises_only_repeat_M, raises_only_bind;
    [apply raises_only_bootstrap_resample_run|].
  intros; apply raises_only_run_estimators.
Qed.

End RaisesOnly.

(* ------------------------------------------------------------------ *)
(** ** run_ci_bootstrap: the assertion on n_simulate *)

Lemma raises_only_bind_Ok {A B} (P : exn -> Prop) (a : A) (k : A -> M B) :
  raises_only_M P (k a) -> raises_only_M P (bind (lift (Ok a)) k).
Proof. intros H g e g'. unfold bind, lift. apply H. Qed.

Lemma run_ci_bootstrap_assert_fails (ns_run : ns_run_t)
    (estimator_list : list estimator_t) (n_simulate : Z) (cred_int : float)
    (g : rng) :
  guard_fails n_simulate cred_int ->
  run_ci_bootstrap ns_run estimator_list n_simulate cred_int g =
  (Raise (AssertionError (n_simulate_not_big_enough n_simulate cred_int)), g).
Proof.
  intros [n [Hn Hg]]. unfold run_ci_bootstrap, bind, lift.
  rewrite Hn, Hg. reflexivity.
Qed.

Lemma run_ci_bootstrap_after_assert (ns_run : ns_run_t)
    (estimator_list : list estimator_t) (n_simulate : Z) (cred_int : float) :
  ~ guard_fails n_simulate cred_int ->
  raises_only_M (fun e => ~ insufficient_sample e)
                (run_ci_bootstrap ns_run estimator_list n_simulate cred_int).
Proof.
  intros H. unfold run_ci_bootstrap.
  destruct (float_of_int n_simulate) as [n|e] eqn:Hn.
  2:{ intros g e' g' E. unfold bind, lift in E. inversion E; subst e'.
      unfold float_of_int in Hn.
      destruct (binary_normalize _ _ _ _ _); inversion Hn; simpl; auto. }
  apply raises_only_bind_Ok.
  destruct (1 <? py_min cred_int (1 - cred_int) * n)%float eqn:Hg.
  2:{ exfalso. apply H. exists n. split; [exact Hn | exact Hg]. }
  apply raises_only_bind; [apply raises_only_lift, raises_only_Ok | intros _].
  apply raises_only_bind;
    [apply raises_only_bootstrap_values; simpl; auto | intros bs].
  apply raises_only_bind;
    [apply raises_only_run_estimators; simpl; auto | intros ex].
  apply raises_only_lift, raises_only_sequence, Forall_map, Forall_forall.
  intros i _. apply raises_only_rbind;
    [apply raises_only_np_interp; simpl; auto | intros; apply raises_only_Ok].
Qed.

(** C6, as the code has it: [run_ci_bootstrap] raises the error of its
    first assertion, with the random state untouched, exactly when the
    comparison [min(cred_int, 1. - cred_int) * n_simulate > 1], computed in
    binary64 with every operation rounded, is false; it does with
    [n_simulate = 1] and [cred_int = 0.95]. *)
Theorem run_ci_bootstrap_insufficient_sample :
  (forall (ns_run : ns_run_t) (estimator_list : list estimator_t)
          (n_simulate : Z) (cred_int : float) (g : rng),
      (guard_fails n_simulate cred_int ->
       run_ci_bootstrap ns_run estimator_list n_simulate cred_int g =
       (Raise (AssertionError
                 (n_simulate_not_big_enough n_simulate cred_int)), g)) /\
      (forall e g',
          run_ci_bootstrap ns_run estimator_list n_simulate cred_int g =
          (Raise e, g') ->
          insufficient_sample e ->
          guard_fails n_simulate cred_int)) /\
  (forall (ns_run : ns_run_t) (estimator_list : list estimator_t) (g : rng),
      run_ci_bootstrap ns_run estimator_list 1 0.95%float g =
      (Raise (AssertionError (n_simulate_not_big_enough 1 0.95%float)), g)).
Proof.
  split.
  - intros ns_run estimator_list n_simulate cred_int g. split.
    + apply run_ci_bootstrap_assert_fails.
    + intros e g' E He.
      destruct (float_of_int n_simulate) as [n|e'] eqn:Hn.
      * destruct (1 <? py_min cred_int (1 - cred_int) * n)%float eqn:Hg;
          [|exists n; split; [exact Hn | exact Hg]].
        exfalso.
        refine (run_ci_bootstrap_after_assert ns_run estimator_list
                  n_simulate cred_int _ g e g' E He).
        intros [n' [Hn' Hg']]. congruence.
      * exfalso.
        refine (run_ci_bootstrap_after_assert ns_run estimator_list
                  n_simulate cred_int _ g e g' E He).
        intros [n' [Hn' _]]. congruence.
  - intros. apply run_ci_bootstrap_assert_fails.
    exists 1%float. split; reflexivity.
Qed.

Lemma run_ci_bootstrap_insufficient_sample_witness :
  let ns_run := mk_run [] None None (mk_settings None 1 1) in
  let g := mk_rng (fun _ => O) (fun _ => 0) O in
  guard_fails 2 0.5%float /\
  run_ci_bootstrap ns_run [] 2 0.5%float g =
  (Raise (AssertionError (n_simulate_not_big_enough 2 0.5%float)), g).
Proof.
  intros ns_run g.
  assert (H : guard_fails 2 0.5%float)
    by (exists 2%float; split; reflexivity).
  split; [exact H|].
  exact (proj1 (proj1 run_ci_bootstrap_insufficient_sample ns_run [] 2%Z
                      0.5%float g) H).
Defined.

(* ------------------------------------------------------------------ *)
(** ** Indexing lemmas *)

Lemma length_update {A} (a : list A) (k : nat) (v : A) :
  length (update a k v) = length a.
Proof.
  revert k; induction a as [|x a IH]; intros [|k]; simpl; auto.
Qed.

Lemma nth_update {A} (a : list A) (k j : nat) (v d : A) :
  (k < length a)%nat ->
  nth j (update a k v) d = if (j =? k)%nat then v else nth j a d.
Proof.
  revert k j; induction a as [|x a IH]; intros k j H; simpl in H; [lia|].
  destruct k as [|k], j as [|j]; simpl; auto.
  apply IH; lia.
Qed.

Lemma length_map2 {A B C} (f : A -> B -> C) (a : list A) (b : list B) :
  length (map2 f a b) = Nat.min (length a) (length b).
Proof.
  revert b; induction a as [|x a IH]; intros [|y b]; simpl; auto.
Qed.

Lemma nth_map2 {A B C} (f : A -> B -> C) (a : list A) (b : list B)
    (i : nat) (da : A) (db : B) (dc : C) :
  (i < length a)%nat -> (i < length b)%nat ->
  nth i (map2 f a b) dc = f (nth i a da) (nth i b db).
Proof.
  revert b i; induction a as [|x a IH]; intros [|y b] [|i] Ha Hb;
    simpl in *; try lia; auto.
  apply IH; lia.
Qed.

Lemma getitem_nonneg {A} (a : list A) (k : nat) (d : A) :
  (k < length a)%nat -> getitem a (Z.of_nat k) = Ok (nth k a d).
Proof.
  intros H. unfold getitem, norm_index.
  replace (0 <=? Z.of_nat k)%Z with true by (symmetry; apply Z.leb_le; lia).
  replace (Z.of_nat k <? Z.of_nat (length a))%Z with true
    by (symmetry; apply Z.ltb_lt; lia).
  rewrite Nat2Z.id.
  destruct (nth_error a k) as [x|] eqn:E.
  - f_equal. symmetry. apply nth_error_nth. exact E.
  - apply nth_error_None in E. lia.
Qed.

Lemma norm_index_neg (n k : nat) :
  (0 < k <= n)%nat -> norm_index n (- Z.of_nat k) = Some (n - k)%nat.
Proof.
  intros H. unfold norm_index.
  replace (0 <=? - Z.of_nat k)%Z with false by (symmetry; apply Z.leb_gt; lia).
  replace (- Z.of_nat n <=? - Z.of_nat k)%Z with true
    by (symmetry; apply Z.leb_le; lia).
  f_equal. lia.
Qed.

Lemma getitem_neg {A} (a : list A) (k : nat) (d : A) :
  (0 < k <= length a)%nat ->
  getitem a (- Z.of_nat k) = Ok (nth (length a - k) a d).
Proof.
  intros H. unfold getitem. rewrite norm_index_neg by exact H.
  destruct (nth_error a (length a - k)) as [x|] eqn:E.
  - f_equal. symmetry. apply nth_error_nth. exact E.
  - apply nth_error_None in E. lia.
Qed.

Lemma setitem_nonneg {A} (a : list A) (k : nat) (v : A) :
  (k < length a)%nat -> setitem a (Z.of_nat k) v = Ok (update a k v).
Proof.
  intros H. unfold setitem, norm_index.
  replace (0 <=? Z.of_nat k)%Z with true by (symmetry; apply Z.leb_le; lia).
  replace (Z.of_nat k <? Z.of_nat (length a))%Z with true
    by (symmetry; apply Z.ltb_lt; lia).
  rewrite Nat2Z.id. reflexivity.
Qed.

Lemma setitem_neg {A} (a : list A) (k : nat) (v : A) :
  (0 < k <= length a)%nat ->
  setitem a (- Z.of_nat k) v = Ok (update a (length a - k) v).
Proof.
  intros H. unfold setitem. rewrite norm_index_neg by exact H. reflexivity.
Qed.

Lemma sequence_map2_log_subtract (a b : list npfloat) :
  log_subtract_array a b = Ok (map2 log_subtract_value a b).
Proof.
  unfold log_subtract_array.
  revert b; induction a as [|x a IH]; intros [|y b]; simpl; auto.
  rewrite IH. reflexivity.
Qed.

Lemma assign_slice_same_length (a v : list npfloat) (start stop : nat) :
  length v = (stop - start)%nat ->
  assign_slice a start stop v = Ok (firstn start a ++ v ++ skipn stop a).
Proof.
  intros H. unfold assign_slice, broadcast_to.
  rewrite H, Nat.eqb_refl. reflexivity.
Qed.

Lemma length_cumsum_from (l : list npfloat) (acc : npfloat) :
  length (cumsum_from acc l) = length l.
Proof. revert acc; induction l; intros; simpl; auto. Qed.

(** On a non-empty, strictly positive array [get_logx] returns, in both
    modes, one volume per live count. *)
Lemma get_logx_returns (nlive_array : list npfloat) (simulate : bool)
    (g : rng) :
  nlive_array <> [] -> Forall positive nlive_array ->
  exists logx g',
    get_logx nlive_array simulate g = (Ok logx, g') /\
    length logx = length nlive_array.
Proof.
  intros Hne Hpos.
  destruct (np_amin_positive _ Hne Hpos) as [m [Em Hm]].
  unfold get_logx, bind, lift, ret. rewrite Em.
  unfold positive in Hm. rewrite Hm. simpl.
  destruct simulate; simpl.
  - eexists; eexists; split; [reflexivity|].
    unfold cumsum. rewrite length_cumsum_from, length_map2.
    rewrite length_map, length_map, length_seq. apply Nat.min_id.
  - eexists; eexists; split; [reflexivity|].
    unfold cumsum. rewrite length_cumsum_from, length_map. reflexivity.
Qed.

(* ------------------------------------------------------------------ *)
(** ** get_logw *)

Lemma logsumexp_pair (a b : npfloat) :
  exists v, logsumexp [a; b] = Ok v.
Proof. unfold logsumexp; simpl. eexists; reflexivity. Qed.

Lemma get_logw_steps (logl nlive_array logx : list npfloat) (simulate : bool)
    (g g' : rng) (first : npfloat) :
  let N := length logl in
  let X := Fin 0 :: logx in
  (2 <= N)%nat -> length logx = N ->
  get_logx nlive_array simulate g = (Ok logx, g') ->
  logsumexp [trapezium_term X 0;
             add (log (Fin (1 / 2)))
                 (log_subtract_value (nth 0 X NaN) (nth 1 X NaN))] =
  Ok first ->
  get_logw logl nlive_array simulate g =
  (Ok (map2 add (map (volume_weight X N first) (seq 0 N)) logl), g').
Proof.
  intros N X HN Hlen Hx Hfirst.
  unfold get_logw, bind, lift, ret. rewrite Hx. fold N.
  rewrite (assign_slice_same_length _ logx 1 (N + 1)) by lia.
  replace (firstn 1 (zeros (N + 1)) ++ logx ++ skipn (N + 1) (zeros (N + 1)))
    with X.
  2:{ unfold zeros. rewrite skipn_all2 by (rewrite repeat_length; lia).
      rewrite Nat.add_1_r, app_nil_r. reflexivity. }
  rewrite sequence_map2_log_subtract.
  set (T := map2 log_subtract_value (firstn (length X - 2) X) (skipn 2 X)).
  assert (HX : length X = S N) by (unfold X; simpl; lia).
  assert (HT : length T = (N - 1)%nat).
  { unfold T. rewrite length_map2, length_firstn, length_skipn. lia. }
  rewrite (assign_slice_same_length (zeros N) T 0 (N - 1)) by lia.
  simpl firstn. rewrite app_nil_l.
  set (W2 := map (fun w => sub w (log (Fin 2)))
                 (T ++ skipn (N - 1) (zeros N))).
  assert (HW2 : length W2 = N).
  { unfold W2, zeros. rewrite length_map, length_app, length_skipn,
      repeat_length. lia. }
  assert (Hin : forall i, (i < N - 1)%nat ->
                          nth i W2 NaN = trapezium_term X i).
  { intros i Hi. unfold W2.
    rewrite (nth_indep _ NaN (sub NaN (log (Fin 2))))
      by (fold W2; lia).
    rewrite (map_nth (fun w => sub w (log (Fin 2)))).
    rewrite app_nth1 by lia. unfold T.
    rewrite (nth_map2 _ _ _ _ NaN NaN)
      by (rewrite ?length_firstn, ?length_skipn; lia).
    rewrite nth_firstn, nth_skipn.
    replace (i <? length X - 2)%nat with true
      by (symmetry; apply Nat.ltb_lt; lia).
    unfold trapezium_term. now rewrite (Nat.add_comm 2 i). }
  change (getitem W2 0) with (getitem W2 (Z.of_nat 0)).
  change (getitem X 0) with (getitem X (Z.of_nat 0)).
  change (getitem X 1) with (getitem X (Z.of_nat 1)).
  rewrite (getitem_nonneg W2 0 NaN) by lia.
  rewrite (getitem_nonneg X 0 NaN) by lia.
  rewrite (getitem_nonneg X 1 NaN) by lia.
  unfold log_subtract. rewrite Hin by lia. rewrite Hfirst.
  change (setitem W2 0 first) with (setitem W2 (Z.of_nat 0) first).
  rewrite setitem_nonneg by lia.
  set (W3 := update W2 0 first).
  assert (HW3 : length W3 = N) by (unfold W3; now rewrite length_update).
  change (getitem W3 (-2)) with (getitem W3 (- Z.of_nat 2)%Z).
  rewrite (getitem_neg W3 2 NaN) by lia.
  change (-1)%Z with (- Z.of_nat 1)%Z.
  rewrite setitem_neg by lia. rewrite HW3.
  do 3 f_equal.
  apply (nth_ext _ _ NaN NaN).
  { now rewrite length_update, length_map, length_seq. }
  intros i Hi. rewrite length_update, HW3 in Hi.
  rewrite nth_update by lia.
  rewrite (nth_indep (map (volume_weight X N first) (seq 0 N)) NaN
                     (volume_weight X N first 0))
    by (rewrite length_map, length_seq; lia).
  rewrite (map_nth (volume_weight X N first)), seq_nth by lia. simpl.
  unfold volume_weight, W3.
  destruct (i =? N - 1)%nat eqn:Ei.
  - rewrite nth_update by lia.
    destruct (N - 2 =? 0)%nat; [reflexivity | apply Hin; lia].
  - rewrite nth_update by lia. apply Nat.eqb_neq in Ei.
    destruct (i =? 0)%nat; [reflexivity | apply Hin; lia].
Qed.

(** C2: for [N >= 2] samples and strictly positive live counts, [get_logw]
    returns; over the augmented volumes [X = [0, logx...]] of length
    [N + 1] its result is, at every sample [i], the volume weight of [i]
    plus [logl[i]], where the volume weight is
    [log_subtract(X[i], X[i+2]) - log(2)] for [i <= N - 2], replaced for the
    first sample by [logsumexp] of that term and
    [log(0.5) + log_subtract(X[0], X[1])], and for the last sample the
    weight of the sample before it. *)
Theorem get_logw_trapezium (logl nlive_array : list npfloat)
    (simulate : bool) (g : rng) :
  let N := length logl in
  (2 <= N)%nat -> length nlive_array = N -> Forall positive nlive_array ->
  exists logx g' first logw,
    get_logx nlive_array simulate g = (Ok logx, g') /\
    let X := Fin 0 :: logx in
    length X = S N /\
    logsumexp [trapezium_term X 0;
               add (log (Fin (1 / 2)))
                   (log_subtract_value (nth 0 X NaN) (nth 1 X NaN))] =
    Ok first /\
    get_logw logl nlive_array simulate g = (Ok logw, g') /\
    length logw = N /\
    forall i, (i < N)%nat ->
              nth i logw NaN =
              add (volume_weight X N first i) (nth i logl NaN).
Proof.
  intros N HN Hlen Hpos.
  assert (Hne : nlive_array <> []).
  { intros E; rewrite E in Hlen; simpl in Hlen; lia. }
  destruct (get_logx_returns nlive_array simulate g Hne Hpos)
    as [logx [g' [Hx Hlx]]].
  destruct (logsumexp_pair
              (trapezium_term (Fin 0 :: logx) 0)
              (add (log (Fin (1 / 2)))
                   (log_subtract_value (nth 0 (Fin 0 :: logx) NaN)
                                       (nth 1 (Fin 0 :: logx) NaN))))
    as [first Hfirst].
  exists logx, g', first.
  exists (map2 add (map (volume_weight (Fin 0 :: logx) N first) (seq 0 N))
               logl).
  split; [exact Hx|]. intros X.
  split; [unfold X; simpl; lia|].
  split; [exact Hfirst|].
  split; [apply get_logw_steps; auto; lia|].
  fold X.
  assert (HL : length (map (volume_weight X N first) (seq 0 N)) = N)
    by now rewrite length_map, length_seq.
  split; [rewrite length_map2, HL; apply Nat.min_id|].
  intros i Hi.
  rewrite (nth_map2 _ _ _ _ (volume_weight X N first 0) NaN) by lia.
  rewrite (map_nth (volume_weight X N first)), seq_nth by lia.
  reflexivity.
Qed.

Lemma get_logw_trapezium_witness :
  let logl := [Fin (-2); Fin (-1)] in
  let nlive_array := [Fin 1; Fin 1] in
  let g := mk_rng (fun _ => O) (fun _ => 0) O in
  exists logw, get_logw logl nlive_array false g = (Ok logw, g) /\
               length logw = 2%nat.
Proof.
  intros logl nlive_array g.
  assert (Hpos : Forall positive nlive_array)
    by (repeat constructor; apply Rltb_lt; lra).
  destruct (get_logw_trapezium logl nlive_array false g
              (le_n 2) eq_refl Hpos)
    as [logx [g' [first [logw [Hx [_ [_ [Hw [Hl _]]]]]]]]].
  exists logw. split; [|exact Hl].
  rewrite Hw. f_equal.
  rewrite get_logx_false in Hx;
    [inversion Hx; reflexivity | discriminate | exact Hpos].
Defined.

(* ------------------------------------------------------------------ *)
(** ** get_nlive *)

Lemma fold_left_add_sum (l : list npfloat) (a : npfloat) :
  fold_left add l a = add a (sum l).
Proof.
  unfold sum. revert a; induction l as [|x l IH]; intros a.
  - simpl. now rewrite add_0_r.
  - change (fold_left add l (add a x) =
            add a (fold_left add l (add (Fin 0) x))).
    rewrite IH, (IH (add (Fin 0) x)), add_0_l. symmetry; apply add_assoc.
Qed.

Lemma sum_cons (x : npfloat) (l : list npfloat) :
  sum (x :: l) = add x (sum l).
Proof.
  change (sum (x :: l)) with (fold_left add l (add (Fin 0) x)).
  now rewrite fold_left_add_sum, add_0_l.
Qed.

Lemma map2_ext {A B C} (f f' : A -> B -> C) (a : list A) (b : list B) :
  (forall x y, f x y = f' x y) -> map2 f a b = map2 f' a b.
Proof.
  intros H; revert b; induction a as [|x a IH]; intros [|y b]; simpl; auto.
  now rewrite H, IH.
Qed.

Lemma map2_map2_r {A B} (f f' : A -> B -> B) (a : list A) (b : list B) :
  map2 f a (map2 f' a b) = map2 (fun x y => f x (f' x y)) a b.
Proof.
  revert b; induction a as [|x a IH]; intros [|y b]; simpl; auto.
  now rewrite IH.
Qed.

Lemma map2_snd {A B} (a : list A) (b : list B) :
  length b = length a -> map2 (fun _ y => y) a b = b.
Proof.
  revert b; induction a as [|x a IH]; intros [|y b] H; simpl in *;
    try lia; auto.
  now rewrite IH by lia.
Qed.

Lemma map2_zeros {A} (f : A -> npfloat -> npfloat) (a : list A) :
  map2 f a (zeros (length a)) = map (fun x => f x (Fin 0)) a.
Proof. induction a as [|x a IH]; simpl; auto. now rewrite <- IH. Qed.

(** One pass of [get_nlive] over the records [rs], element by element. *)
Lemma add_where_pass (cond : lmm_row -> npfloat -> bool)
    (logl : list npfloat) (rs : list lmm_row) (a : list npfloat) :
  length a = length logl ->
  fold_left (fun a r => add_where (cond r) logl (multiplicity r) a) rs a =
  map2 (fun l n =>
          add n (sum (map multiplicity (filter (fun r => cond r l) rs))))
       logl a.
Proof.
  revert a; induction rs as [|r rs IH]; intros a Ha; simpl.
  - rewrite (map2_ext _ (fun _ y => y)); [now rewrite map2_snd|].
    intros; apply add_0_r.
  - rewrite IH by (unfold add_where; rewrite length_map2, Ha; apply Nat.min_id).
    unfold add_where. rewrite map2_map2_r. apply map2_ext.
    intros l n. destruct (cond r l); simpl; [|reflexivity].
    rewrite sum_cons. symmetry; apply add_assoc.
Qed.

Lemma sum_filter_step (q : lmm_row -> bool) (c : bool) (r : lmm_row)
    (F : list lmm_row) :
  sum (map multiplicity (filter q (if c then r :: F else F))) =
  if c && q r then add (multiplicity r) (sum (map multiplicity (filter q F)))
  else sum (map multiplicity (filter q F)).
Proof.
  destruct c; simpl; [|reflexivity].
  destruct (q r); simpl; [apply sum_cons | reflexivity].
Qed.

Lemma sum_if_cons (c : bool) (r : lmm_row) (F : list lmm_row) :
  sum (map multiplicity (if c then r :: F else F)) =
  if c then add (multiplicity r) (sum (map multiplicity F))
  else sum (map multiplicity F).
Proof. destruct c; simpl; [apply sum_cons | reflexivity]. Qed.

(** The three passes together add up the stabbing sum. *)
Lemma three_passes_stabbing_sum (lmm_ar : list lmm_row) (l : npfloat) :
  add (add (add (Fin 0)
     (sum (map multiplicity
        (filter (fun r => ge (logl_max r) l)
           (filter (fun r => isnan (logl_min r)) lmm_ar)))))
     (sum (map multiplicity
        (filter (fun r => gt l (logl_min r))
           (filter (fun r => isnan (logl_max r)) lmm_ar)))))
     (sum (map multiplicity
        (filter (fun r => ge (logl_max r) l && gt l (logl_min r))
           (filter (fun r => negb (isnan (logl_min r)) &&
                             negb (isnan (logl_max r))) lmm_ar)))) =
  stabbing_sum lmm_ar l.
Proof.
  unfold stabbing_sum.
  induction lmm_ar as [|r rs IH].
  - unfold sum; simpl. f_equal; lra.
  - cbn [filter]. rewrite !sum_filter_step, sum_if_cons, <- IH. clear IH.
    repeat match goal with
      | |- context [sum ?s] => generalize (sum s); intro
      end.
    unfold interval_contains, ge, gt.
    destruct r as [lo hi m]; simpl.
    destruct lo as [| | |lo], hi as [| | |hi], l as [| | |l]; simpl;
      repeat match goal with
        | |- context [Rleb ?a ?b] => destruct (Rleb a b); simpl
        | |- context [Rltb ?a ?b] => destruct (Rltb a b); simpl
        end;
      repeat match goal with
        | x : npfloat |- _ => destruct x
        end;
      simpl; try reflexivity; f_equal; lra.
Qed.

Lemma length_add_where (cond : npfloat -> bool) (logl : list npfloat)
    (v : npfloat) (a : list npfloat) :
  length a = length logl -> length (add_where cond logl v a) = length logl.
Proof.
  intros H. unfold add_where. rewrite length_map2, H. apply Nat.min_id.
Qed.

Lemma length_add_where_pass (cond : lmm_row -> npfloat -> bool)
    (logl : list npfloat) (rs : list lmm_row) (a : list npfloat) :
  length a = length logl ->
  length (fold_left
            (fun a r => add_where (cond r) logl (multiplicity r) a) rs a) =
  length logl.
Proof.
  revert a; induction rs as [|r rs IH]; intros a H; simpl; auto.
  apply IH, length_add_where, H.
Qed.

Lemma three_passes_fold (lmm_ar : list lmm_row) (logl : list npfloat) :
  fold_left
    (fun a r =>
       add_where (fun l => ge (logl_max r) l && gt l (logl_min r))
                 logl (multiplicity r) a)
    (filter (fun r => negb (isnan (logl_min r)) &&
                      negb (isnan (logl_max r))) lmm_ar)
    (fold_left
       (fun a r => add_where (fun l => gt l (logl_min r)) logl
                             (multiplicity r) a)
       (filter (fun r => isnan (logl_max r)) lmm_ar)
       (fold_left
          (fun a r => add_where (fun l => ge (logl_max r) l) logl
                                (multiplicity r) a)
          (filter (fun r => isnan (logl_min r)) lmm_ar)
          (zeros (length logl)))) =
  map (stabbing_sum lmm_ar) logl.
Proof.
  assert (HZ : length (zeros (length logl)) = length logl)
    by apply repeat_length.
  rewrite (add_where_pass
             (fun r l => ge (logl_max r) l && gt l (logl_min r)))
    by (repeat apply length_add_where_pass; exact HZ).
  rewrite (add_where_pass (fun r l => gt l (logl_min r)))
    by (repeat apply length_add_where_pass; exact HZ).
  rewrite (add_where_pass (fun r l => ge (logl_max r) l)) by exact HZ.
  rewrite !map2_map2_r, map2_zeros.
  apply map_ext. intros l. apply three_passes_stabbing_sum.
Qed.

(** What the dynamic branch of [get_nlive] finds. *)
Lemma nlive_of_run_dynamic (run_dict : ns_run_t) (lmm_ar : list lmm_row)
    (logl : list npfloat) :
  nlive_array run_dict = None ->
  thread_logl_min_max run_dict = Some lmm_ar ->
  nlive_of_run run_dict logl =
  rbind (assert (length (filter (fun r => isnan (logl_min r) &&
                                          isnan (logl_max r)) lmm_ar)
                 =? 0)%nat
                threads_with_neither_start_nor_end)
        (fun _ => Ok (map (stabbing_sum lmm_ar) logl)).
Proof.
  intros H1 H2. unfold nlive_of_run. rewrite H1, H2. cbv zeta.
  rewrite three_passes_fold. reflexivity.
Qed.

Lemma no_unbounded_record_filter (lmm_ar : list lmm_row) :
  no_unbounded_record lmm_ar <->
  (length (filter (fun r => isnan (logl_min r) && isnan (logl_max r)) lmm_ar)
   =? 0)%nat = true.
Proof.
  unfold no_unbounded_record. induction lmm_ar as [|r rs IH]; simpl.
  - split; auto.
  - destruct (isnan (logl_min r) && isnan (logl_max r)) eqn:E; simpl.
    + split; [intros H; inversion H; congruence | discriminate].
    + rewrite <- IH. split; [intros H; inversion H; auto | auto].
Qed.

Lemma positive_not_le_0 (n : npfloat) :
  positive n -> le n (Fin 0) = true -> False.
Proof.
  unfold positive, gt. destruct n as [| | |x]; simpl; try discriminate.
  intros H1 H2. apply Rltb_lt in H1. apply Rleb_le in H2. lra.
Qed.

(** The final assertion of [get_nlive]. *)
Lemma get_nlive_check (run_dict : ns_run_t) (logl a : list npfloat) :
  nlive_of_run run_dict logl = Ok a ->
  (a <> [] /\ Forall positive a -> get_nlive run_dict logl = Ok a) /\
  (forall b, get_nlive run_dict logl = Ok b ->
             b = a /\ a <> [] /\ Forall positive a) /\
  (Exists (fun n => le n (Fin 0) = true) a ->
   get_nlive run_dict logl =
   Raise (AssertionError (nlive_array_contains_zeros (np_array_str a)))).
Proof.
  intros H. unfold get_nlive. rewrite H. cbn [rbind].
  split; [|split].
  - intros [Hne Hpos].
    destruct (np_amin_positive a Hne Hpos) as [m [Em Hm]].
    rewrite Em. cbn [rbind]. unfold positive in Hm. rewrite Hm. reflexivity.
  - intros b. destruct (np_amin a) as [m|e] eqn:Em; cbn [rbind];
      [|discriminate].
    destruct (gt m (Fin 0)) eqn:Hm; cbn [rbind assert]; [|discriminate].
    intros E; inversion E; subst. split; [reflexivity|].
    apply (np_amin_positive_inv _ m); assumption.
  - intros Hex.
    destruct (np_amin a) as [m|e] eqn:Em; cbn [rbind].
    + destruct (gt m (Fin 0)) eqn:Hm; cbn [rbind assert]; [|reflexivity].
      exfalso. destruct (np_amin_positive_inv _ _ Em Hm) as [_ Hall].
      apply Exists_exists in Hex. destruct Hex as [n [Hin Hn]].
      rewrite Forall_forall in Hall.
      exact (positive_not_le_0 n (Hall n Hin) Hn).
    + destruct a; [inversion Hex | discriminate].
Qed.

Lemma get_nlive_dynamic_returns (run_dict : ns_run_t)
    (lmm_ar : list lmm_row) (logl : list npfloat) :
  nlive_array run_dict = None ->
  thread_logl_min_max run_dict = Some lmm_ar ->
  logl <> [] -> no_unbounded_record lmm_ar ->
  Forall (fun L => positive (stabbing_sum lmm_ar L)) logl ->
  get_nlive run_dict logl = Ok (map (stabbing_sum lmm_ar) logl).
Proof.
  intros H1 H2 Hne Hnu Hpos.
  assert (E : nlive_of_run run_dict logl =
              Ok (map (stabbing_sum lmm_ar) logl)).
  { rewrite (nlive_of_run_dynamic _ _ logl H1 H2).
    apply no_unbounded_record_filter in Hnu. rewrite Hnu. reflexivity. }
  apply (get_nlive_check _ _ _ E). split.
  - destruct logl; [congruence | discriminate].
  - apply Forall_map. exact Hpos.
Qed.

Lemma get_nlive_dynamic_inv (run_dict : ns_run_t)
    (lmm_ar : list lmm_row) (logl a : list npfloat) :
  nlive_array run_dict = None ->
  thread_logl_min_max run_dict = Some lmm_ar ->
  get_nlive run_dict logl = Ok a ->
  a = map (stabbing_sum lmm_ar) logl /\ no_unbounded_record lmm_ar.
Proof.
  intros H1 H2 H.
  pose proof (nlive_of_run_dynamic _ _ logl H1 H2) as E.
  destruct (length (filter (fun r => isnan (logl_min r) &&
                                     isnan (logl_max r)) lmm_ar) =? 0)%nat
    eqn:Hf; cbn [assert rbind] in E.
  - destruct (get_nlive_check _ _ _ E) as [_ [Hb _]].
    destruct (Hb a H) as [-> _].
    split; [reflexivity | apply no_unbounded_record_filter; exact Hf].
  - unfold get_nlive in H. rewrite E in H. discriminate.
Qed.

(** C1: for a dynamic run (interval records, no precomputed live counts)
    the array [get_nlive] returns holds, at every sample index, the sum of
    [multiplicity] over the records whose interval contains the
    log-likelihood of the sample; [get_nlive] returns that array whenever no
    record is unbounded on both sides and every sum is positive; records
    [(NaN, -2, 3), (-2, NaN, 2)] over [-5, -3, -1] give [3, 3, 2]. *)
Theorem get_nlive_dynamic_stabbing :
  (forall (run_dict : ns_run_t) (lmm_ar : list lmm_row)
          (logl : list npfloat),
      nlive_array run_dict = None ->
      thread_logl_min_max run_dict = Some lmm_ar ->
      (forall a, get_nlive run_dict logl = Ok a ->
                 length a = length logl /\
                 forall i, (i < length logl)%nat ->
                           nth i a NaN =
                           stabbing_sum lmm_ar (nth i logl NaN)) /\
      (logl <> [] -> no_unbounded_record lmm_ar ->
       Forall (fun L => positive (stabbing_sum lmm_ar L)) logl ->
       get_nlive run_dict logl = Ok (map (stabbing_sum lmm_ar) logl))) /\
  (forall (threads : list thread) (settings : settings_t),
      get_nlive (mk_run threads (Some scenario_records) None settings)
                [Fin (-5); Fin (-3); Fin (-1)] =
      Ok [Fin 3; Fin 3; Fin 2]).
Proof.
  split.
  - intros run_dict lmm_ar logl H1 H2. split.
    + intros a H.
      destruct (get_nlive_dynamic_inv _ _ _ _ H1 H2 H) as [-> _].
      split; [apply length_map|].
      intros i Hi.
      rewrite (nth_indep _ NaN (stabbing_sum lmm_ar NaN))
        by (rewrite length_map; exact Hi).
      apply (map_nth (stabbing_sum lmm_ar)).
    + apply get_nlive_dynamic_returns; assumption.
  - intros threads settings.
    assert (S1 : stabbing_sum scenario_records (Fin (-5)) = Fin 3).
    { unfold stabbing_sum, scenario_records, interval_contains, gt.
      simpl. Rbool. unfold sum; simpl. f_equal; lra. }
    assert (S2 : stabbing_sum scenario_records (Fin (-3)) = Fin 3).
    { unfold stabbing_sum, scenario_records, interval_contains, gt.
      simpl. Rbool. unfold sum; simpl. f_equal; lra. }
    assert (S3 : stabbing_sum scenario_records (Fin (-1)) = Fin 2).
    { unfold stabbing_sum, scenario_records, interval_contains, gt.
      simpl. Rbool. unfold sum; simpl. f_equal; lra. }
    rewrite (get_nlive_dynamic_returns _ scenario_records).
    + cbn [map]. now rewrite S1, S2, S3.
    + reflexivity.
    + reflexivity.
    + discriminate.
    + repeat constructor.
    + repeat constructor; rewrite ?S1, ?S2, ?S3; apply Rltb_lt; lra.
Qed.

Lemma get_nlive_dynamic_stabbing_witness :
  let lmm_ar := [mk_lmm NaN (Fin 0) (Fin 4)] in
  let run_dict := mk_run [] (Some lmm_ar) None (mk_settings (Some 1) 0 1) in
  let logl := [Fin (-1)] in
  (logl <> [] /\ no_unbounded_record lmm_ar /\
   Forall (fun L => positive (stabbing_sum lmm_ar L)) logl) /\
  get_nlive run_dict logl = Ok (map (stabbing_sum lmm_ar) logl).
Proof.
  intros lmm_ar run_dict logl.
  assert (Hne : logl <> []) by discriminate.
  assert (Hnu : no_unbounded_record lmm_ar) by (repeat constructor).
  assert (Hpos : Forall (fun L => positive (stabbing_sum lmm_ar L)) logl).
  { repeat constructor.
    unfold positive, stabbing_sum, lmm_ar, interval_contains, gt.
    simpl. Rbool. unfold sum; simpl. apply Rltb_lt; lra. }
  split; [auto|].
  exact (proj2 (proj1 get_nlive_dynamic_stabbing run_dict lmm_ar logl
                      eq_refl eq_refl) Hne Hnu Hpos).
Defined.

Lemma np_array_str_all (a : list npfloat) :
  (length a <= 1000)%nat -> np_array_str a = str_all a.
Proof.
  intros H. unfold np_array_str.
  replace (1000 <? length a)%nat with false; [reflexivity|].
  symmetry. apply Nat.ltb_ge. exact H.
Qed.

Lemma np_array_str_summary (a : list npfloat) :
  (1000 < length a)%nat ->
  np_array_str a = str_summary (firstn 3 a) (skipn (length a - 3) a).
Proof.
  intros H. unfold np_array_str.
  replace (1000 <? length a)%nat with true; [reflexivity|].
  symmetry. apply Nat.ltb_lt. exact H.
Qed.

(** [get_nlive] on interval records that leave a sample without a live
    point. *)
Lemma get_nlive_dynamic_raises (run_dict : ns_run_t)
    (lmm_ar : list lmm_row) (logl : list npfloat) :
  nlive_array run_dict = None ->
  thread_logl_min_max run_dict = Some lmm_ar ->
  (no_unbounded_record lmm_ar ->
   Exists (fun L => le (stabbing_sum lmm_ar L) (Fin 0) = true) logl ->
   get_nlive run_dict logl =
   Raise (AssertionError
            (nlive_array_contains_zeros
               (np_array_str (map (stabbing_sum lmm_ar) logl))))) /\
  (~ no_unbounded_record lmm_ar ->
   get_nlive run_dict logl =
   Raise (AssertionError threads_with_neither_start_nor_end)).
Proof.
  intros H1 H2.
  pose proof (nlive_of_run_dynamic _ _ logl H1 H2) as E.
  destruct (length (filter (fun r => isnan (logl_min r) &&
                                     isnan (logl_max r)) lmm_ar) =? 0)%nat
    eqn:Hf; cbn [assert rbind] in E.
  - apply no_unbounded_record_filter in Hf. split; [|contradiction].
    intros _ Hex. apply (get_nlive_check _ _ _ E).
    apply Exists_exists in Hex. destruct Hex as [L [Hin HL]].
    apply Exists_exists. exists (stabbing_sum lmm_ar L).
    split; [apply in_map; exact Hin | exact HL].
  - split.
    + intros Hnu. apply no_unbounded_record_filter in Hnu. congruence.
    + intros _. unfold get_nlive. rewrite E. reflexivity.
Qed.

(** C8, as the code has it: every array [get_nlive] returns is strictly
    positive at every index, and when the array it has built has a zero or
    negative entry it raises an assertion error instead of returning.  The
    error names no index.  The message of the final assertion is the
    printed array: all its values up to 1000 elements, the first three and
    the last three beyond.  For interval records the array built holds the
    sums of the multiplicities; when one record has both bounds NaN the
    error is that of the other assertion, which prints nothing. *)
Theorem get_nlive_strictly_positive (run_dict : ns_run_t)
    (logl : list npfloat) :
  (forall a, get_nlive run_dict logl = Ok a -> Forall positive a) /\
  (forall a, nlive_of_run run_dict logl = Ok a ->
             Exists (fun n => le n (Fin 0) = true) a ->
             get_nlive run_dict logl =
             Raise (AssertionError
                      (nlive_array_contains_zeros (np_array_str a))) /\
             ((length a <= 1000)%nat -> np_array_str a = str_all a) /\
             ((1000 < length a)%nat ->
              np_array_str a =
              str_summary (firstn 3 a) (skipn (length a - 3) a))) /\
  (forall lmm_ar,
      nlive_array run_dict = None ->
      thread_logl_min_max run_dict = Some lmm_ar ->
      Exists (fun L => le (stabbing_sum lmm_ar L) (Fin 0) = true) logl ->
      (no_unbounded_record lmm_ar ->
       get_nlive run_dict logl =
       Raise (AssertionError
                (nlive_array_contains_zeros
                   (np_array_str (map (stabbing_sum lmm_ar) logl))))) /\
      (~ no_unbounded_record lmm_ar ->
       get_nlive run_dict logl =
       Raise (AssertionError threads_with_neither_start_nor_end))).
Proof.
  split; [|split].
  - intros a H.
    destruct (nlive_of_run run_dict logl) as [a'|e] eqn:E.
    + destruct (get_nlive_check _ _ _ E) as [_ [Hb _]].
      destruct (Hb a H) as [-> [_ Hpos]]. exact Hpos.
    + unfold get_nlive in H. rewrite E in H. discriminate.
  - intros a E Hex. split; [|split].
    + apply (get_nlive_check _ _ _ E). exact Hex.
    + apply np_array_str_all.
    + apply np_array_str_summary.
  - intros lmm_ar H1 H2 Hex.
    destruct (get_nlive_dynamic_raises run_dict lmm_ar logl H1 H2)
      as [Ha Hb].
    split; [intros Hnu; apply Ha; assumption | exact Hb].
Qed.

Lemma interval_sums_gap :
  let lmm_ar := [mk_lmm NaN (Fin 0) (Fin 1); mk_lmm (Fin 1) (Fin 2) (Fin 1)] in
  stabbing_sum lmm_ar (Fin 0) = Fin 1 /\
  stabbing_sum lmm_ar (Fin 1) = Fin 0 /\
  stabbing_sum lmm_ar (Fin 2) = Fin 1.
Proof.
  intros lmm_ar. repeat split;
    unfold stabbing_sum, lmm_ar, interval_contains, gt; simpl; Rbool;
    unfold sum; simpl; f_equal; lra.
Qed.

Lemma get_nlive_strictly_positive_witness :
  let lmm_ar := [mk_lmm NaN (Fin 0) (Fin 1); mk_lmm (Fin 1) (Fin 2) (Fin 1)] in
  let run_dict := mk_run [] (Some lmm_ar) None (mk_settings (Some 1) 0 1) in
  let logl := [Fin 0; Fin 1; Fin 2] in
  get_nlive run_dict logl =
  Raise (AssertionError
           (nlive_array_contains_zeros (str_all [Fin 1; Fin 0; Fin 1]))).
Proof.
  intros lmm_ar run_dict logl.
  destruct interval_sums_gap as [S0 [S1 S2]]. fold lmm_ar in S0, S1, S2.
  assert (Hex : Exists (fun L => le (stabbing_sum lmm_ar L) (Fin 0) = true)
                       logl).
  { apply Exists_cons_tl, Exists_cons_hd. rewrite S1.
    apply Rleb_le. lra. }
  assert (Hnu : no_unbounded_record lmm_ar) by (repeat constructor).
  pose proof (proj1 (proj2 (proj2 (get_nlive_strictly_positive run_dict logl))
                           lmm_ar eq_refl eq_refl Hex) Hnu) as H.
  cbn [map logl] in H. rewrite S0, S1, S2 in H. exact H.
Defined.

Lemma np_array_str_long (x y : npfloat) :
  np_array_str (repeat x 500 ++ [y] ++ repeat x 500) =
  str_summary [x; x; x] [x; x; x] /\
  np_array_str (repeat x 501 ++ [y] ++ repeat x 499) =
  str_summary [x; x; x] [x; x; x].
Proof. split; vm_compute; reflexivity. Qed.

Lemma map_around {A B} (f : A -> B) (x y z : A) (n m : nat) :
  map f (repeat x n ++ [y] ++ repeat z m) =
  repeat (f x) n ++ [f y] ++ repeat (f z) m.
Proof. now rewrite !map_app, !map_repeat. Qed.

(** C8 as stated fails: the error does not identify the offending
    indices.  Over 1001 samples with one sample in the gap between the
    intervals [(-inf, 0]] and [(1, 2]], the array built has its only zero
    at index 500, or at index 501 when one more sample comes before the
    gap; the error is the same, with the message that prints [1 1 1] and
    [1 1 1] around an ellipsis.  With a record of both bounds NaN the error
    is that of the other assertion, whichever entry is zero. *)
Lemma get_nlive_error_names_no_index :
  let lmm_ar := [mk_lmm NaN (Fin 0) (Fin 1); mk_lmm (Fin 1) (Fin 2) (Fin 1)] in
  let run_dict := mk_run [] (Some lmm_ar) None (mk_settings (Some 1) 0 1) in
  let logl1 := repeat (Fin 0) 500 ++ [Fin 1] ++ repeat (Fin 2) 500 in
  let logl2 := repeat (Fin 0) 501 ++ [Fin 1] ++ repeat (Fin 2) 499 in
  let message :=
    nlive_array_contains_zeros
      (str_summary [Fin 1; Fin 1; Fin 1] [Fin 1; Fin 1; Fin 1]) in
  let unbounded := mk_lmm NaN NaN (Fin 1) in
  let run_below :=
    mk_run [] (Some [unbounded; mk_lmm NaN (Fin 0) (Fin 1)]) None
           (mk_settings (Some 1) 0 1) in
  let run_above :=
    mk_run [] (Some [unbounded; mk_lmm (Fin 0) NaN (Fin 1)]) None
           (mk_settings (Some 1) 0 1) in
  (map (stabbing_sum lmm_ar) logl1 =
   repeat (Fin 1) 500 ++ [Fin 0] ++ repeat (Fin 1) 500 /\
   map (stabbing_sum lmm_ar) logl2 =
   repeat (Fin 1) 501 ++ [Fin 0] ++ repeat (Fin 1) 499 /\
   get_nlive run_dict logl1 = Raise (AssertionError message) /\
   get_nlive run_dict logl2 = Raise (AssertionError message)) /\
  (map (stabbing_sum [unbounded; mk_lmm NaN (Fin 0) (Fin 1)])
       [Fin 0; Fin 1] = [Fin 1; Fin 0] /\
   map (stabbing_sum [unbounded; mk_lmm (Fin 0) NaN (Fin 1)])
       [Fin 0; Fin 1] = [Fin 0; Fin 1] /\
   get_nlive run_below [Fin 0; Fin 1] =
   Raise (AssertionError threads_with_neither_start_nor_end) /\
   get_nlive run_above [Fin 0; Fin 1] =
   Raise (AssertionError threads_with_neither_start_nor_end)).
Proof.
  intros lmm_ar run_dict logl1 logl2 message unbounded run_below run_above.
  destruct interval_sums_gap as [S0 [S1 S2]]. fold lmm_ar in S0, S1, S2.
  assert (E1 : map (stabbing_sum lmm_ar) logl1 =
               repeat (Fin 1) 500 ++ [Fin 0] ++ repeat (Fin 1) 500)
    by (unfold logl1; now rewrite map_around, S0, S1, S2).
  assert (E2 : map (stabbing_sum lmm_ar) logl2 =
               repeat (Fin 1) 501 ++ [Fin 0] ++ repeat (Fin 1) 499)
    by (unfold logl2; now rewrite map_around, S0, S1, S2).
  assert (Hnu : no_unbounded_record lmm_ar) by (repeat constructor).
  assert (Hex : forall n m,
             Exists (fun L => le (stabbing_sum lmm_ar L) (Fin 0) = true)
                    (repeat (Fin 0) n ++ [Fin 1] ++ repeat (Fin 2) m)).
  { intros n m. apply Exists_app. right. apply Exists_cons_hd.
    rewrite S1. apply Rleb_le. lra. }
  destruct (np_array_str_long (Fin 1) (Fin 0)) as [N1 N2].
  split; [split; [exact E1 | split; [exact E2 | split]]
         | split; [|split; [|split]]].
  - rewrite (proj1 (get_nlive_dynamic_raises run_dict lmm_ar logl1
                      eq_refl eq_refl) Hnu (Hex _ _)).
    rewrite E1, N1. reflexivity.
  - rewrite (proj1 (get_nlive_dynamic_raises run_dict lmm_ar logl2
                      eq_refl eq_refl) Hnu (Hex _ _)).
    rewrite E2, N2. reflexivity.
  - unfold stabbing_sum, unbounded, interval_contains, gt. simpl. Rbool.
    unfold sum; simpl. repeat f_equal; lra.
  - unfold stabbing_sum, unbounded, interval_contains, gt. simpl. Rbool.
    unfold sum; simpl. repeat f_equal; lra.
  - apply (get_nlive_dynamic_raises run_below _ _ eq_refl eq_refl).
    intros H. inversion H as [|? ? Hr _]. discriminate Hr.
  - apply (get_nlive_dynamic_raises run_above _ _ eq_refl eq_refl).
    intros H. inversion H as [|? ? Hr _]. discriminate Hr.
Qed.


(* ------------------------------------------------------------------ *)
(** ** merge_lrxp *)

Lemma sort_le_total (a b : npfloat) :
  sort_le a b = false -> sort_le b a = true.
Proof.
  destruct a as [| | |x], b as [| | |y]; simpl; auto; try discriminate.
  intros H. apply Rleb_gt in H. apply Rleb_le. lra.
Qed.

Section SortBy.

Context {A : Type} (key : A -> npfloat).

Let key_le (a b : A) : Prop := sort_le (key a) (key b) = true.

Lemma insert_by_perm (x : A) (l : list A) :
  Permutation (insert_by key x l) (x :: l).
Proof.
  induction l as [|y l IH]; simpl; [reflexivity|].
  destruct (sort_le (key x) (key y)); [reflexivity|].
  rewrite IH. apply perm_swap.
Qed.

Lemma sort_by_perm (l : list A) : Permutation (sort_by key l) l.
Proof.
  induction l as [|x l IH]; simpl; [reflexivity|].
  rewrite insert_by_perm. now constructor.
Qed.

Lemma insert_by_hd (x y : A) (l : list A) :
  key_le y x -> HdRel key_le y l -> HdRel key_le y (insert_by key x l).
Proof.
  intros Hyx Hl. destruct l as [|z l]; simpl.
  - constructor; exact Hyx.
  - destruct (sort_le (key x) (key z)); constructor;
      [exact Hyx | inversion Hl; assumption].
Qed.

Lemma insert_by_sorted (x : A) (l : list A) :
  Sorted key_le l -> Sorted key_le (insert_by key x l).
Proof.
  induction 1 as [|y l Hl IH Hy]; simpl.
  - repeat constructor.
  - destruct (sort_le (key x) (key y)) eqn:E.
    + constructor; [constructor; assumption | constructor; exact E].
    + constructor; [exact IH|].
      apply insert_by_hd; [apply sort_le_total; exact E | exact Hy].
Qed.

Lemma sort_by_sorted (l : list A) : Sorted key_le (sort_by key l).
Proof.
  induction l as [|x l IH]; simpl; [constructor|].
  apply insert_by_sorted, IH.
Qed.

End SortBy.

Lemma merge_fold_from_some (array_list : list thread) (o : list sample_row) :
  fold_left
    (fun output array =>
       match array with
       | Some a =>
           match output with
           | Some o => Some (o ++ a)
           | None => Some a
           end
       | None => output
       end)
    array_list (Some o) =
  Some (o ++ present_rows array_list).
Proof.
  revert o; induction array_list as [|[a|] ts IH]; intros o; simpl.
  - now rewrite app_nil_r.
  - rewrite IH. now rewrite app_assoc.
  - apply IH.
Qed.

(** [merge_lrxp] in one equation. *)
Lemma merge_lrxp_eq (array_list : list thread) :
  merge_lrxp array_list =
  if existsb is_present array_list
  then Some (sort_by row_logl (present_rows array_list))
  else None.
Proof.
  unfold merge_lrxp.
  induction array_list as [|[a|] ts IH]; simpl; auto.
  rewrite merge_fold_from_some. reflexivity.
Qed.

Lemma present_rows_absent (array_list : list thread) :
  Forall (fun t => t = None) array_list -> present_rows array_list = [].
Proof.
  induction 1 as [|t ts Ht _ IH]; simpl; auto. now rewrite Ht, IH.
Qed.

Lemma present_rows_app (l l' : list thread) :
  present_rows (l ++ l') = present_rows l ++ present_rows l'.
Proof. apply flat_map_app. Qed.

Lemma existsb_present_absent (array_list : list thread) :
  Forall (fun t => t = None) array_list ->
  existsb is_present array_list = false.
Proof.
  induction 1 as [|t ts Ht _ IH]; simpl; auto. now rewrite Ht, IH.
Qed.

(** C4: [merge_lrxp] returns None exactly when every thread is None, and
    otherwise the rows of the threads that are not None, concatenated and
    sorted ascending by logl; a thread merged together with any number of
    None threads gives what the thread alone gives. *)
Theorem merge_lrxp_sorted_concatenation :
  (forall array_list : list thread,
      (Forall (fun t => t = None) array_list ->
       merge_lrxp array_list = None) /\
      (Exists (fun t => t <> None) array_list ->
       exists output,
         merge_lrxp array_list = Some output /\
         output = sort_by row_logl (present_rows array_list) /\
         Permutation output (present_rows array_list) /\
         Sorted ascending_logl output)) /\
  (forall (a : list sample_row) (before after : list thread),
      Forall (fun t => t = None) before ->
      Forall (fun t => t = None) after ->
      merge_lrxp (before ++ [Some a] ++ after) = merge_lrxp [Some a]).
Proof.
  split.
  - intros array_list. rewrite merge_lrxp_eq. split.
    + intros H. now rewrite existsb_present_absent.
    + intros H.
      replace (existsb is_present array_list) with true.
      * eexists; split; [reflexivity|]. split; [reflexivity|].
        split; [apply sort_by_perm | apply sort_by_sorted].
      * symmetry. apply existsb_exists. apply Exists_exists in H.
        destruct H as [t [Hin Ht]]. exists t. split; [exact Hin|].
        destruct t; [reflexivity | congruence].
  - intros a before after Hb Ha. rewrite !merge_lrxp_eq.
    change ([Some a] ++ after) with (Some a :: after).
    rewrite existsb_app, present_rows_app.
    change (existsb is_present (Some a :: after)) with true.
    change (present_rows (Some a :: after)) with (a ++ present_rows after).
    change (existsb is_present [Some a]) with true.
    change (present_rows [Some a]) with (a ++ []).
    rewrite (present_rows_absent _ Hb), (present_rows_absent _ Ha).
    now rewrite orb_true_r.
Qed.

Lemma merge_lrxp_sorted_concatenation_witness :
  let a := [mk_row (Fin 2) (Fin 0) (Fin 0) []; mk_row (Fin 1) (Fin 0) (Fin 0) []] in
  merge_lrxp ([None] ++ [Some a] ++ [None; None]) = merge_lrxp [Some a] /\
  (exists output, merge_lrxp [None; Some a] = Some output /\
                  Sorted ascending_logl output).
Proof.
  intros a. split.
  - apply (proj2 merge_lrxp_sorted_concatenation a [None] [None; None]);
      repeat constructor.
  - destruct (proj2 (proj1 merge_lrxp_sorted_concatenation [None; Some a]))
      as [output [H1 [_ [_ H2]]]].
    + apply Exists_cons_tl, Exists_cons_hd. discriminate.
    + exists output. split; assumption.
Defined.

(* ------------------------------------------------------------------ *)
(** ** bootstrap_resample_run *)

Lemma draws_within (low high : Z) (size : nat) (g : rng) :
  (low < high)%Z -> all_within low high (draws low high size g).
Proof.
  intros H. unfold all_within, draws. apply Forall_map, Forall_forall.
  intros k _.
  pose proof (Z.mod_pos_bound (Z.of_nat (rand_ints g (consumed g + k)))
                              (high - low)) as B.
  lia.
Qed.

Lemma length_draws (low high : Z) (size : nat) (g : rng) :
  length (draws low high size g) = size.
Proof. unfold draws. now rewrite length_map, length_seq. Qed.

Lemma np_random_randint_ok (low high size : Z) (g : rng) :
  (low < high)%Z -> (0 <= size)%Z ->
  np_random_randint low high size g =
  (Ok (draws low high (Z.to_nat size) g), advance (Z.to_nat size) g).
Proof.
  intros H1 H2. unfold np_random_randint.
  replace (high <=? low)%Z with false by (symmetry; apply Z.leb_gt; lia).
  replace (size <? 0)%Z with false by (symmetry; apply Z.ltb_ge; lia).
  reflexivity.
Qed.

Lemma np_random_randint_error (low high size : Z) (g : rng) :
  (high <= low)%Z \/ (size < 0)%Z ->
  np_random_randint low high size g = (Raise ValueError, g).
Proof.
  intros H. unfold np_random_randint.
  replace ((high <=? low)%Z || (size <? 0)%Z) with true; [reflexivity|].
  symmetry. apply orb_true_iff.
  destruct H; [left; apply Z.leb_le | right; apply Z.ltb_lt]; lia.
Qed.

Lemma sequence_getitem {A} (d : A) (l : list A) (inds : list Z) :
  all_within 0 (Z.of_nat (length l)) inds ->
  sequence (map (getitem l) inds) = Ok (take d l inds).
Proof.
  induction 1 as [|i inds Hi _ IH]; simpl; [reflexivity|].
  rewrite <- (Z2Nat.id i) at 1 by lia.
  rewrite (getitem_nonneg l (Z.to_nat i) d) by lia.
  simpl. rewrite IH. reflexivity.
Qed.

Lemma all_within_app (low high : Z) (a b : list Z) :
  all_within low high a -> all_within low high b ->
  all_within low high (a ++ b).
Proof. intros; apply Forall_app; auto. Qed.

Lemma all_within_weaken (low high low' high' : Z) (a : list Z) :
  (low' <= low)%Z -> (high <= high')%Z ->
  all_within low high a -> all_within low' high' a.
Proof.
  intros H1 H2 H. eapply Forall_impl; [|exact H]. simpl. intros; lia.
Qed.

(** The index vector of the stratified branch. *)
Lemma stratified_inds (ninit n_threads : Z) (g : rng) :
  (0 < ninit < n_threads)%Z ->
  bind (np_random_randint 0 ninit ninit)
       (fun inds =>
          bind (np_random_randint ninit n_threads (n_threads - ninit))
               (fun more => ret (inds ++ more))) g =
  (Ok (draws 0 ninit (Z.to_nat ninit) g ++
       draws ninit n_threads (Z.to_nat (n_threads - ninit))
             (advance (Z.to_nat ninit) g)),
   advance (Z.to_nat (n_threads - ninit)) (advance (Z.to_nat ninit) g)).
Proof.
  intros H. unfold bind.
  rewrite np_random_randint_ok by lia.
  rewrite np_random_randint_ok by lia.
  reflexivity.
Qed.

(** What [bootstrap_resample_run] does after a successful draw of
    indices within the thread list. *)
Lemma bootstrap_resample_with_inds (ns_run : ns_run_t) (sep : bool)
    (inds : list Z) (g g1 : rng) :
  (if match dynamic_goal (settings ns_run) with
      | Some _ => sep
      | None => false
      end
   then
     bind (np_random_randint 0 (nlive_1 (settings ns_run))
                             (nlive_1 (settings ns_run)))
          (fun inds =>
             bind (np_random_randint
                     (nlive_1 (settings ns_run))
                     (Z.of_nat (length (threads ns_run)))
                     (Z.of_nat (length (threads ns_run)) -
                      nlive_1 (settings ns_run)))
                  (fun more => ret (inds ++ more)))
   else np_random_randint 0 (Z.of_nat (length (threads ns_run)))
                          (Z.of_nat (length (threads ns_run)))) g =
  (Ok inds, g1) ->
  all_within 0 (Z.of_nat (length (threads ns_run))) inds ->
  bootstrap_resample_run ns_run sep g =
  match thread_logl_min_max ns_run with
  | None => (Raise (KeyError "thread_logl_min_max"), g1)
  | Some lmm_ar =>
      match sequence (map (getitem lmm_ar) inds) with
      | Ok logl_min_max_temp =>
          (Ok (mk_run (take None (threads ns_run) inds)
                      (Some logl_min_max_temp) None (settings ns_run)), g1)
      | Raise e => (Raise e, g1)
      end
  end.
Proof.
  intros Hd Hw. unfold bootstrap_resample_run.
  unfold bind at 1. rewrite Hd.
  unfold bind, lift, ret, raise.
  rewrite (sequence_getitem (None : thread) (threads ns_run) inds Hw).
  destruct (thread_logl_min_max ns_run) as [lmm_ar|]; [|reflexivity].
  destruct (sequence (map (getitem lmm_ar) inds)); reflexivity.
Qed.

Lemma advance_advance (n m : nat) (g : rng) :
  advance m (advance n g) = advance (n + m) g.
Proof. unfold advance. simpl. f_equal. lia. Qed.

(** The draw of the indices: it succeeds when the slot ranges are not
    empty, and raises a ValueError otherwise. *)
Lemma resample_draw (ns_run : ns_run_t) (sep : bool) (g : rng) :
  let n_threads := Z.of_nat (length (threads ns_run)) in
  let ninit := nlive_1 (settings ns_run) in
  let draw :=
    if stratified ns_run sep
    then
      bind (np_random_randint 0 ninit ninit)
           (fun inds =>
              bind (np_random_randint ninit n_threads (n_threads - ninit))
                   (fun more => ret (inds ++ more)))
    else np_random_randint 0 n_threads n_threads in
  (index_ranges_nonempty ns_run sep ->
   exists inds,
     draw g = (Ok inds, advance (length (threads ns_run)) g) /\
     all_within 0 n_threads inds) /\
  (~ index_ranges_nonempty ns_run sep ->
   exists g', draw g = (Raise ValueError, g')).
Proof.
  intros n_threads ninit draw. unfold index_ranges_nonempty, draw.
  fold n_threads ninit.
  destruct (stratified ns_run sep); split.
  - intros H. eexists. split.
    + rewrite stratified_inds by exact H.
      rewrite advance_advance. do 2 f_equal. unfold n_threads in *. lia.
    + apply all_within_app;
        [apply (all_within_weaken 0 ninit)
        | apply (all_within_weaken ninit n_threads)];
        try apply draws_within; lia.
  - intros H. unfold bind.
    destruct (Z_lt_le_dec 0 ninit) as [H0|H0].
    + rewrite np_random_randint_ok by lia.
      rewrite np_random_randint_error by lia. eexists; reflexivity.
    + rewrite np_random_randint_error by lia. eexists; reflexivity.
  - intros H. eexists. split.
    + rewrite np_random_randint_ok by lia.
      unfold n_threads. rewrite Nat2Z.id. reflexivity.
    + apply draws_within. lia.
  - intros H. rewrite np_random_randint_error by lia.
    eexists; reflexivity.
Qed.

Lemma resample_draw_fails (ns_run : ns_run_t) (sep : bool) (g : rng) :
  ~ index_ranges_nonempty ns_run sep ->
  exists g', bootstrap_resample_run ns_run sep g = (Raise ValueError, g').
Proof.
  intros H.
  destruct (proj2 (resample_draw ns_run sep g) H) as [g' E].
  exists g'. unfold bootstrap_resample_run. unfold bind at 1.
  unfold stratified in E. rewrite E. reflexivity.
Qed.




(* ------------------------------------------------------------------ *)
(** ** Bootstrap of a run without the key 'thread_logl_min_max' *)

Lemma repeat_M_first_raises {A} (n : nat) (body : M A) (g g' : rng)
    (e : exn) :
  (0 < n)%nat -> body g = (Raise e, g') ->
  repeat_M n body g = (Raise e, g').
Proof.
  intros Hn H. destruct n as [|n]; [lia|].
  simpl. unfold bind at 1. rewrite H. reflexivity.
Qed.

Lemma bootstrap_values_first_raises (ns_run : ns_run_t)
    (estimator_list : list estimator_t) (n_simulate : Z) (g g' : rng)
    (e : exn) :
  (1 <= n_simulate)%Z ->
  bootstrap_resample_run ns_run true g = (Raise e, g') ->
  bootstrap_values ns_run estimator_list n_simulate g = (Raise e, g').
Proof.
  intros Hn H. unfold bootstrap_values.
  replace (n_simulate <? 0)%Z with false by (symmetry; apply Z.ltb_ge; lia).
  apply repeat_M_first_raises; [lia|].
  unfold bind. rewrite H. reflexivity.
Qed.

Lemma resample_without_key (ns_run : ns_run_t) (sep : bool) (g : rng) :
  thread_logl_min_max ns_run = None ->
  index_ranges_nonempty ns_run sep ->
  bootstrap_resample_run ns_run sep g =
  (Raise (KeyError "thread_logl_min_max"),
   advance (length (threads ns_run)) g).
Proof.
  intros Hk H.
  destruct (proj1 (resample_draw ns_run sep g) H) as [inds [E Hw]].
  rewrite (bootstrap_resample_with_inds ns_run sep inds g
             (advance (length (threads ns_run)) g)).
  - rewrite Hk. reflexivity.
  - exact E.
  - exact Hw.
Qed.

(** C10, as the code has it: on a run without the key
    ['thread_logl_min_max'] [bootstrap_resample_run] never returns.  When
    the slot ranges of the draw are not empty it draws one index per thread
    and raises the KeyError; otherwise [np.random.randint] raises a
    ValueError.  With non-empty ranges [run_std_bootstrap] (for
    [n_simulate >= 1]) and [run_ci_bootstrap] (for [n_simulate >= 1] passing
    its first assertion) raise the KeyError.  The ranges of a fixed run (no
    dynamic goal) with at least one thread are not empty, on either
    branch. *)
Theorem bootstrap_without_thread_logl_min_max (ns_run : ns_run_t) :
  thread_logl_min_max ns_run = None ->
  (forall (sep : bool) (g : rng),
      (index_ranges_nonempty ns_run sep ->
       bootstrap_resample_run ns_run sep g =
       (Raise (KeyError "thread_logl_min_max"),
        advance (length (threads ns_run)) g)) /\
      (~ index_ranges_nonempty ns_run sep ->
       exists g',
         bootstrap_resample_run ns_run sep g = (Raise ValueError, g'))) /\
  (index_ranges_nonempty ns_run true ->
   (forall (estimator_list : list estimator_t) (n_simulate : Z) (g : rng),
       (1 <= n_simulate)%Z ->
       run_std_bootstrap ns_run estimator_list n_simulate g =
       (Raise (KeyError "thread_logl_min_max"),
        advance (length (threads ns_run)) g)) /\
   (forall (estimator_list : list estimator_t) (n_simulate : Z)
           (cred_int : float) (g : rng),
       (1 <= n_simulate)%Z ->
       guard_passes n_simulate cred_int ->
       run_ci_bootstrap ns_run estimator_list n_simulate cred_int g =
       (Raise (KeyError "thread_logl_min_max"),
        advance (length (threads ns_run)) g))) /\
  (dynamic_goal (settings ns_run) = None -> threads ns_run <> [] ->
   forall sep : bool, index_ranges_nonempty ns_run sep).
Proof.
  intros Hk. split; [|split].
  - intros sep g. split.
    + apply resample_without_key. exact Hk.
    + apply resample_draw_fails.
  - intros H.
    pose proof (fun g => resample_without_key ns_run true g Hk H) as Hb.
    split.
    + intros estimator_list n_simulate g Hn.
      unfold run_std_bootstrap, bind.
      rewrite (bootstrap_values_first_raises _ _ _ _ _ _ Hn (Hb g)).
      reflexivity.
    + intros estimator_list n_simulate cred_int g Hn [n [En Hg]].
      unfold run_ci_bootstrap.
      unfold bind at 1, lift at 1. rewrite En.
      unfold bind at 1, lift at 1, assert at 1. rewrite Hg.
      unfold bind at 1.
      rewrite (bootstrap_values_first_raises _ _ _ _ _ _ Hn (Hb g)).
      reflexivity.
  - intros Hd Hne sep. unfold index_ranges_nonempty, stratified.
    rewrite Hd. destruct (threads ns_run); [congruence | simpl; lia].
Qed.

Lemma bootstrap_without_thread_logl_min_max_witness :
  let t := Some [mk_row (Fin 1) (Fin 0) (Fin 0) []] in
  let ns_run := mk_run [t; t] None None (mk_settings None 2 2) in
  let g := mk_rng (fun k => k) (fun _ => 0) O in
  run_std_bootstrap ns_run [] 3 g =
  (Raise (KeyError "thread_logl_min_max"), advance 2 g).
Proof.
  intros t ns_run g.
  assert (Hne : threads ns_run <> []) by discriminate.
  assert (Hn : (1 <= 3)%Z) by lia.
  pose proof (bootstrap_without_thread_logl_min_max ns_run eq_refl)
    as [_ [Hboot Hfixed]].
  exact (proj1 (Hboot (Hfixed eq_refl Hne true)) [] 3%Z g Hn).
Defined.

(** C10 as stated fails: this run lacks the key, and its settings are
    those of a dynamic run with more initial threads than threads; the
    second draw is asked for the empty range [5 .. 2] and raises a
    ValueError before the key is looked up. *)
Lemma bootstrap_without_key_value_error :
  let t := Some [mk_row (Fin 1) (Fin 0) (Fin 0) []] in
  let ns_run := mk_run [t; t; t] None None (mk_settings (Some 1) 0 5) in
  let g := mk_rng (fun k => k) (fun _ => 0) O in
  thread_logl_min_max ns_run = None /\
  bootstrap_resample_run ns_run true g = (Raise ValueError, advance 5 g).
Proof. split; reflexivity. Qed.

(* ------------------------------------------------------------------ *)
(** ** run_ci_bootstrap: the confidence interval *)

Lemma length_insert_by {A} (key : A -> npfloat) (x : A) (l : list A) :
  length (insert_by key x l) = S (length l).
Proof.
  induction l as [|y l IH]; simpl; auto.
  destruct (sort_le (key x) (key y)); simpl; auto.
Qed.

Lemma length_sort_by {A} (key : A -> npfloat) (l : list A) :
  length (sort_by key l) = length l.
Proof.
  induction l as [|x l IH]; simpl; auto.
  now rewrite length_insert_by, IH.
Qed.

Lemma np_interp_returns (x : npfloat) (xp fp : list npfloat) :
  xp <> [] -> length xp = length fp ->
  exists q, np_interp x xp fp = Ok q.
Proof.
  intros Hne Hlen. unfold np_interp.
  destruct xp as [|x0 xp]; [congruence|].
  destruct fp as [|f0 fp]; [discriminate|].
  rewrite Hlen, Nat.eqb_refl. simpl.
  destruct (isnan x); [eexists; reflexivity|].
  destruct (lt x x0); eexists; reflexivity.
Qed.

Lemma sequence_all_ok {A B} (f : A -> result B) (g : A -> B) (l : list A) :
  (forall x, In x l -> f x = Ok (g x)) ->
  sequence (map f l) = Ok (map g l).
Proof.
  induction l as [|x l IH]; intros H; simpl; [reflexivity|].
  rewrite (H x) by (left; reflexivity). simpl.
  rewrite IH by (intros; apply H; right; assumption). reflexivity.
Qed.

Lemma repeat_M_returns {A} (P : A -> Prop) (n : nat) (body : M A)
    (g g' : rng) (xs : list A) :
  (forall g0 x g1, body g0 = (Ok x, g1) -> P x) ->
  repeat_M n body g = (Ok xs, g') ->
  length xs = n /\ Forall P xs.
Proof.
  intros HP. revert g xs; induction n as [|n IH]; intros g xs; simpl.
  - unfold ret. intros E; inversion E; subst. split; [reflexivity|constructor].
  - unfold bind at 1. destruct (body g) as [[x|e] g1] eqn:Eb; [|discriminate].
    unfold bind at 1.
    destruct (repeat_M n body g1) as [[ys|e] g2] eqn:Er; [|discriminate].
    unfold ret. intros E; inversion E; subst.
    destruct (IH _ _ Er) as [Hl Hall].
    split; [simpl; now rewrite Hl|].
    constructor; [eapply HP; exact Eb | exact Hall].
Qed.

Lemma run_estimators_length (ns_run : ns_run_t)
    (estimator_list : list estimator_t) (simulate : bool) (g g' : rng)
    (values : list npfloat) :
  run_estimators ns_run estimator_list simulate g = (Ok values, g') ->
  length values = length estimator_list.
Proof.
  unfold run_estimators. destruct (merge_lrxp _) as [lrxp|]; [|discriminate].
  unfold bind at 1, lift at 1.
  destruct (get_nlive _ _) as [nl|e]; [|discriminate].
  unfold bind at 1.
  destruct (get_logw _ _ _ g) as [[logw|e] g1]; [|discriminate].
  unfold ret. intros E; inversion E; subst.
  unfold get_estimators. apply length_map.
Qed.

Lemma bootstrap_values_returns (ns_run : ns_run_t)
    (estimator_list : list estimator_t) (n_simulate : Z) (g g' : rng)
    (bs_values : list (list npfloat)) :
  bootstrap_values ns_run estimator_list n_simulate g = (Ok bs_values, g') ->
  (0 <= n_simulate)%Z /\
  length bs_values = Z.to_nat n_simulate /\
  Forall (fun col => length col = length estimator_list /\
                     bootstrap_replicate ns_run estimator_list col)
         bs_values.
Proof.
  unfold bootstrap_values.
  destruct (n_simulate <? 0)%Z eqn:En; [discriminate|].
  apply Z.ltb_ge in En. intros H. split; [exact En|].
  eapply repeat_M_returns; [|exact H].
  intros g0 col g1. unfold bind.
  destruct (bootstrap_resample_run ns_run true g0) as [[tmp|e] g2] eqn:Eb;
    [|discriminate].
  intros Er. split.
  - eapply run_estimators_length; exact Er.
  - exists tmp, g0, g2, g1. split; assumption.
Qed.

Lemma nth_cdf_grid (n j : nat) :
  (j < n)%nat ->
  nth j (cdf_grid n) NaN = Fin ((INR j + 1 / 2) / INR n).
Proof.
  intros H. unfold cdf_grid.
  rewrite (nth_indep _ NaN
             (div (add (Fin (INR 0)) (Fin (1 / 2))) (Fin (INR n))))
    by (rewrite length_map, length_seq; exact H).
  rewrite (map_nth (fun j => div (add (Fin (INR j)) (Fin (1 / 2)))
                                 (Fin (INR n)))).
  rewrite seq_nth by exact H. simpl Nat.add.
  unfold div, recip.
  replace (Reqb (INR n) 0) with false; [reflexivity|].
  symmetry. apply Reqb_neq. apply not_0_INR. lia.
Qed.

(** [run_estimators] returns on a dynamic run with at least two samples
    whose interval records give every sample a positive live count; without
    simulation it leaves the random state alone. *)
Lemma run_estimators_dynamic_returns (ns_run : ns_run_t)
    (lmm_ar : list lmm_row) (estimator_list : list estimator_t) (g : rng) :
  nlive_array ns_run = None ->
  thread_logl_min_max ns_run = Some lmm_ar ->
  no_unbounded_record lmm_ar ->
  (2 <= length (present_rows (threads ns_run)))%nat ->
  Forall (fun row => positive (stabbing_sum lmm_ar (row_logl row)))
         (present_rows (threads ns_run)) ->
  exists values,
    run_estimators ns_run estimator_list false g = (Ok values, g).
Proof.
  intros H1 H2 Hnu Hlen Hpos.
  unfold run_estimators. rewrite merge_lrxp_eq.
  replace (existsb is_present (threads ns_run)) with true.
  2:{ symmetry. destruct (existsb is_present (threads ns_run)) eqn:E; auto.
      assert (Hnil : present_rows (threads ns_run) = []).
      { apply present_rows_absent. apply Forall_forall. intros t Hin.
        destruct t as [a|]; [|reflexivity].
        assert (existsb is_present (threads ns_run) = true)
          by (apply existsb_exists; exists (Some a); auto).
        congruence. }
      rewrite Hnil in Hlen. simpl in Hlen. lia. }
  set (lrxp := sort_by row_logl (present_rows (threads ns_run))).
  assert (Hl : length (map row_logl lrxp) =
               length (present_rows (threads ns_run)))
    by (unfold lrxp; now rewrite length_map, length_sort_by).
  assert (Hp : Forall (fun L => positive (stabbing_sum lmm_ar L))
                      (map row_logl lrxp)).
  { apply Forall_map. unfold lrxp.
    eapply Permutation_Forall; [|exact Hpos].
    apply Permutation_sym, sort_by_perm. }
  unfold bind at 1, lift at 1.
  rewrite (get_nlive_dynamic_returns ns_run lmm_ar); auto.
  2:{ intros E. rewrite E in Hl. simpl in Hl. lia. }
  set (nl := map (stabbing_sum lmm_ar) (map row_logl lrxp)).
  assert (Hnl : length nl = length (map row_logl lrxp))
    by (unfold nl; now rewrite length_map).
  assert (Hnlpos : Forall positive nl) by (unfold nl; apply Forall_map, Hp).
  assert (Hne : nl <> []).
  { intros E. rewrite E in Hnl. simpl in Hnl. lia. }
  pose proof (get_logx_false nl g Hne Hnlpos) as Hx.
  destruct (logsumexp_pair
              (trapezium_term (Fin 0 :: cumsum (map logx_step nl)) 0)
              (add (log (Fin (1 / 2)))
                   (log_subtract_value
                      (nth 0 (Fin 0 :: cumsum (map logx_step nl)) NaN)
                      (nth 1 (Fin 0 :: cumsum (map logx_step nl)) NaN))))
    as [first Hfirst].
  unfold bind.
  rewrite (get_logw_steps (map row_logl lrxp) nl
             (cumsum (map logx_step nl)) false g g first);
    [eexists; reflexivity | lia | | exact Hx | exact Hfirst].
  unfold cumsum. rewrite length_cumsum_from, length_map. exact Hnl.
Qed.

Lemma two_thread_run_resample (g : rng) :
  bootstrap_resample_run two_thread_run true g =
  (Ok two_thread_run, advance 1 (advance 1 g)).
Proof.
  rewrite (bootstrap_resample_with_inds two_thread_run true
             (draws 0 1 1 g ++ draws 1 2 1 (advance 1 g))
             g (advance 1 (advance 1 g))).
  - unfold draws. simpl. rewrite !Z.mod_1_r. reflexivity.
  - simpl. apply (stratified_inds 1 2 g). lia.
  - unfold draws. simpl. rewrite !Z.mod_1_r.
    repeat constructor; simpl; lia.
Qed.

Lemma two_thread_run_estimators (estimator_list : list estimator_t)
    (g : rng) :
  exists values,
    run_estimators two_thread_run estimator_list false g = (Ok values, g).
Proof.
  apply (run_estimators_dynamic_returns two_thread_run
           [mk_lmm NaN (Fin 1) (Fin 1); mk_lmm (Fin 1) (Fin 2) (Fin 1)]);
    try reflexivity.
  - repeat constructor.
  - unfold two_thread_run, present_rows. simpl.
    repeat constructor;
      unfold positive, stabbing_sum, interval_contains, gt; simpl; Rbool;
      unfold sum; simpl; apply Rltb_lt; lra.
Qed.

(* ================================================================== *)
(** * Further properties *)

(* ------------------------------------------------------------------ *)
(** ** log_subtract on ordered arguments *)

(** X1: for finite [loga > logb] the result is the logarithm of
    [exp(loga) - exp(logb)]; for equal finite arguments it is minus
    infinity; against [logb = -inf] it is [loga]. *)
Theorem log_subtract_ordered (a b : R) :
  (b < a ->
   log_subtract (Fin a) (Fin b) =
   Ok (Fin (ln (Rtrigo_def.exp a - Rtrigo_def.exp b)))) /\
  log_subtract (Fin a) (Fin a) = Ok NInf /\
  log_subtract (Fin a) NInf = Ok (Fin a).
Proof.
  unfold log_subtract, log_subtract_value. simpl. split; [|split].
  - intros H.
    assert (E : Rtrigo_def.exp (b + - a) < 1).
    { rewrite <- exp_0. apply exp_increasing. lra. }
    pose proof (exp_pos (b + - a)) as P.
    replace (Rltb (1 + - Rtrigo_def.exp (b + - a)) 0) with false
      by (symmetry; apply Rltb_ge; lra).
    replace (Reqb (1 + - Rtrigo_def.exp (b + - a)) 0) with false
      by (symmetry; apply Reqb_neq; lra).
    do 2 f_equal.
    replace (Rtrigo_def.exp a - Rtrigo_def.exp b)
      with (Rtrigo_def.exp a * (1 + - Rtrigo_def.exp (b + - a))).
    + rewrite ln_mult by (try apply exp_pos; lra). now rewrite ln_exp.
    + rewrite Rmult_plus_distr_l, Ropp_mult_distr_r_reverse, <- exp_plus.
      replace (a + (b + - a)) with b by lra. lra.
  - replace (a + - a) with 0 by lra. rewrite exp_0. Rbool. reflexivity.
  - Rbool. do 2 f_equal. replace (1 + - 0) with 1 by lra. rewrite ln_1. lra.
Qed.

Lemma log_subtract_ordered_witness :
  log_subtract (Fin 0) (Fin (-1)) =
  Ok (Fin (ln (Rtrigo_def.exp 0 - Rtrigo_def.exp (-1)))).
Proof.
  apply (proj1 (log_subtract_ordered 0 (-1))). lra.
Defined.

(* ------------------------------------------------------------------ *)
(** ** Elementary functions on finite arguments *)

Lemma log_Fin_pos (x : R) : 0 < x -> log (Fin x) = Fin (ln x).
Proof. intros H. unfold log. Rbool. reflexivity. Qed.

Lemma recip_Fin_nonzero (x : R) : x <> 0 -> recip (Fin x) = Fin (/ x).
Proof.
  intros H. unfold recip.
  replace (Reqb x 0) with false by (symmetry; apply Reqb_neq; exact H).
  reflexivity.
Qed.

Lemma div_Fin_nonzero (x y : R) : y <> 0 -> div (Fin x) (Fin y) = Fin (x / y).
Proof. intros H. unfold div. now rewrite recip_Fin_nonzero. Qed.

Lemma add_Fin (x y : R) : add (Fin x) (Fin y) = Fin (x + y).
Proof. reflexivity. Qed.

Lemma sub_Fin (x y : R) : sub (Fin x) (Fin y) = Fin (x - y).
Proof. reflexivity. Qed.

Lemma mul_Fin (x y : R) : mul (Fin x) (Fin y) = Fin (x * y).
Proof. reflexivity. Qed.

Lemma exp_Fin (x : R) : exp (Fin x) = Fin (Rtrigo_def.exp x).
Proof. reflexivity. Qed.

(* ------------------------------------------------------------------ *)
(** ** nsphere_r_given_logx and nsphere_logx_given_r *)

(** X2: for a sphere of radius [r_max > 0] in [n_dim <> 0] dimensions the two
    functions are inverse to each other: on every finite [logx], and on
    every radius [r > 0]. *)
Theorem nsphere_logx_r_round_trip (r_max : R) (n_dim : Z) :
  0 < r_max -> n_dim <> 0%Z ->
  (forall logx : R,
      nsphere_logx_given_r
        (nsphere_r_given_logx (Fin logx) (Fin r_max) n_dim)
        (Fin r_max) n_dim =
      Fin logx) /\
  (forall r : R,
      0 < r ->
      nsphere_r_given_logx
        (nsphere_logx_given_r (Fin r) (Fin r_max) n_dim)
        (Fin r_max) n_dim =
      Fin r).
Proof.
  intros Hr Hn.
  assert (Hn' : IZR n_dim <> 0) by (apply not_0_IZR; exact Hn).
  unfold nsphere_logx_given_r, nsphere_r_given_logx. split.
  - intros logx. rewrite div_Fin_nonzero by exact Hn'.
    rewrite exp_Fin, mul_Fin.
    pose proof (exp_pos (logx / IZR n_dim)) as P.
    rewrite log_Fin_pos by (apply Rmult_lt_0_compat; assumption).
    rewrite log_Fin_pos by exact Hr. rewrite sub_Fin, mul_Fin. f_equal.
    rewrite ln_mult by assumption. rewrite ln_exp. field. exact Hn'.
  - intros r H0. rewrite !log_Fin_pos by assumption.
    rewrite sub_Fin, mul_Fin.
    rewrite div_Fin_nonzero by exact Hn'. rewrite exp_Fin, mul_Fin. f_equal.
    replace ((ln r - ln r_max) * IZR n_dim / IZR n_dim)
      with (ln r + - ln r_max) by (field; exact Hn').
    rewrite exp_plus, exp_Ropp, !exp_ln by assumption. field. lra.
Qed.

Lemma nsphere_logx_r_round_trip_witness :
  nsphere_logx_given_r (nsphere_r_given_logx (Fin (-3)) (Fin 2) 5) (Fin 2) 5 =
  Fin (-3).
Proof.
  assert (Hr : 0 < 2) by lra.
  assert (Hn : 5%Z <> 0%Z) by discriminate.
  exact (proj1 (nsphere_logx_r_round_trip 2 5 Hr Hn) (-3)).
Defined.

(* ------------------------------------------------------------------ *)
(** ** log_gaussian_given_r *)

Lemma log_gaussian_given_r_finite (r sigma : R) (n_dim : Z) :
  0 < sigma ->
  log_gaussian_given_r (Fin r) (Fin sigma) n_dim =
  Fin (- (r * r / (sigma * sigma)) / 2 - IZR n_dim * ln sigma
       - ln (2 * PI) * (IZR n_dim / 2)).
Proof.
  intros Hs. unfold log_gaussian_given_r, square. rewrite !mul_Fin.
  rewrite div_Fin_nonzero by nra.
  rewrite !log_Fin_pos by (try exact Hs; pose proof PI_RGT_0; lra).
  rewrite !mul_Fin, !sub_Fin. f_equal. lra.
Qed.

(** X3: for [sigma > 0] the log-likelihood [log_gaussian_given_r] depends on
    a finite [r] through [r ** 2] only: it is the same at [r] and [-r], at
    the centre [r = 0] it is the normalisation
    [- n_dim * log(sigma) - log(2 pi) * (n_dim / 2)], and it never increases
    with [|r|], so that it is nowhere above its value at the centre. *)
Theorem log_gaussian_given_r_peak (sigma : R) (n_dim : Z) :
  0 < sigma ->
  log_gaussian_given_r (Fin 0) (Fin sigma) n_dim =
  Fin (- IZR n_dim * ln sigma - ln (2 * PI) * (IZR n_dim / 2)) /\
  (forall r : R,
      log_gaussian_given_r (Fin (- r)) (Fin sigma) n_dim =
      log_gaussian_given_r (Fin r) (Fin sigma) n_dim) /\
  (forall r1 r2 : R,
      Rabs r1 <= Rabs r2 ->
      le (log_gaussian_given_r (Fin r2) (Fin sigma) n_dim)
         (log_gaussian_given_r (Fin r1) (Fin sigma) n_dim) = true).
Proof.
  intros Hs. split; [|split].
  - rewrite log_gaussian_given_r_finite by exact Hs. f_equal.
    unfold Rdiv. rewrite !Rmult_0_l. lra.
  - intros r. rewrite !log_gaussian_given_r_finite by exact Hs.
    f_equal. replace (- r * - r) with (r * r) by ring. reflexivity.
  - intros r1 r2 H. rewrite !log_gaussian_given_r_finite by exact Hs.
    cbn [le]. apply Rleb_le.
    assert (H2 : r1 * r1 <= r2 * r2) by (apply Rsqr_le_abs_1; exact H).
    assert (Hd : 0 < / (sigma * sigma)) by (apply Rinv_0_lt_compat; nra).
    assert (H3 : r1 * r1 / (sigma * sigma) <= r2 * r2 / (sigma * sigma))
      by (unfold Rdiv; apply Rmult_le_compat_r; lra).
    lra.
Qed.

Lemma log_gaussian_given_r_peak_witness :
  le (log_gaussian_given_r (Fin (-3)) (Fin 2) 4)
     (log_gaussian_given_r (Fin 1) (Fin 2) 4) = true.
Proof.
  assert (Hs : 0 < 2) by lra.
  apply (proj2 (proj2 (log_gaussian_given_r_peak 2 4 Hs)) 1 (-3)).
  rewrite Rabs_R1, Rabs_left by lra. lra.
Defined.

(* ------------------------------------------------------------------ *)
(** ** logx_terminate_bound *)

(** X4: for a termination fraction [f > 0] the bound [logx] satisfies
    [exp(logx) * exp(logl_max) = f * exp(logz)], the equation of the
    docstring; a fraction of zero gives minus infinity and a negative
    fraction NaN. *)
Theorem logx_terminate_bound_equation (logl_max logz : R) :
  (forall f : R,
      0 < f ->
      mul (exp (logx_terminate_bound (Fin logl_max) (Fin f) (Fin logz)))
          (exp (Fin logl_max)) =
      mul (Fin f) (exp (Fin logz))) /\
  logx_terminate_bound (Fin logl_max) (Fin 0) (Fin logz) = NInf /\
  (forall f : R,
      f < 0 ->
      logx_terminate_bound (Fin logl_max) (Fin f) (Fin logz) = NaN).
Proof.
  unfold logx_terminate_bound. split; [|split].
  - intros f Hf. rewrite log_Fin_pos by exact Hf.
    rewrite add_Fin, sub_Fin, !exp_Fin, !mul_Fin. f_equal.
    unfold Rminus. rewrite !exp_plus, exp_Ropp, exp_ln by exact Hf.
    field. pose proof (exp_pos logl_max). lra.
  - unfold log. Rbool. reflexivity.
  - intros f Hf. unfold log. Rbool. reflexivity.
Qed.

Lemma logx_terminate_bound_equation_witness :
  mul (exp (logx_terminate_bound (Fin 1) (Fin (1 / 1000)) (Fin 2)))
      (exp (Fin 1)) =
  mul (Fin (1 / 1000)) (exp (Fin 2)).
Proof.
  apply (proj1 (logx_terminate_bound_equation 1 2)). lra.
Defined.

(* ------------------------------------------------------------------ *)
(** ** entropy_num_samples *)

Lemma sum_repeat_Fin (a : R) (n : nat) :
  sum (repeat (Fin a) n) = Fin (INR n * a).
Proof.
  induction n as [|n IH].
  - unfold sum; simpl. f_equal; lra.
  - change (repeat (Fin a) (S n)) with (Fin a :: repeat (Fin a) n).
    rewrite sum_cons, IH, add_Fin, S_INR. f_equal; lra.
Qed.

Lemma filter_repeat {A} (f : A -> bool) (x : A) (n : nat) :
  filter f (repeat x n) = if f x then repeat x n else [].
Proof.
  induction n as [|n IH]; simpl; [destruct (f x); reflexivity|].
  rewrite IH. destruct (f x); reflexivity.
Qed.

Lemma sum_all_finite (w : list npfloat) :
  Forall finite w -> exists s, sum w = Fin s.
Proof.
  induction 1 as [|x w Hx _ [s IH]].
  - exists 0. reflexivity.
  - destruct x as [| | |y]; try discriminate.
    exists (y + s). now rewrite sum_cons, IH.
Qed.

(** X5: the entropy of no sample is 0, and of samples whose weights are all
    zero it is 1: the weights divided by their sum are NaN and none passes
    the filter [w > 0]. *)
Theorem entropy_num_samples_degenerate :
  entropy_num_samples [] = Fin 0 /\
  (forall n : nat, (0 < n)%nat ->
                   entropy_num_samples (repeat (Fin 0) n) = Fin 1).
Proof.
  split; [reflexivity|].
  intros n Hn. unfold entropy_num_samples.
  rewrite repeat_length.
  replace (n =? 0)%nat with false by (symmetry; apply Nat.eqb_neq; lia).
  rewrite map_repeat. simpl np_absolute. rewrite Rabs_R0.
  rewrite sum_repeat_Fin, map_repeat.
  replace (div (Fin 0) (Fin (INR n * 0))) with NaN.
  - rewrite filter_repeat. simpl. f_equal.
    replace (-1 * 0) with 0 by lra. apply exp_0.
  - unfold div, recip. replace (INR n * 0) with 0 by lra.
    unfold mul, scale_inf. Rbool. reflexivity.
Qed.

Lemma entropy_num_samples_degenerate_witness :
  entropy_num_samples (repeat (Fin 0) 3) = Fin 1.
Proof.
  apply (proj2 entropy_num_samples_degenerate 3%nat). lia.
Defined.

(** X6: [n] samples of one and the same finite non-zero weight have entropy
    [n]. *)
Theorem entropy_num_samples_equal_weights (c : R) (n : nat) :
  c <> 0 -> (0 < n)%nat ->
  entropy_num_samples (repeat (Fin c) n) = Fin (INR n).
Proof.
  intros Hc Hn. unfold entropy_num_samples.
  rewrite repeat_length.
  replace (n =? 0)%nat with false by (symmetry; apply Nat.eqb_neq; lia).
  assert (Ha : 0 < Rabs c) by (apply Rabs_pos_lt; exact Hc).
  assert (Hi : 0 < INR n) by (apply lt_0_INR; exact Hn).
  rewrite map_repeat. simpl np_absolute.
  rewrite sum_repeat_Fin, map_repeat.
  rewrite div_Fin_nonzero by nra.
  replace (Rabs c / (INR n * Rabs c)) with (/ INR n) by (field; lra).
  assert (Hp : 0 < / INR n) by (apply Rinv_0_lt_compat; exact Hi).
  rewrite filter_repeat.
  replace (gt (Fin (/ INR n)) (Fin 0)) with true
    by (symmetry; apply Rltb_lt; exact Hp).
  rewrite map_repeat, log_Fin_pos by exact Hp.
  rewrite mul_Fin, sum_repeat_Fin, mul_Fin, exp_Fin. f_equal.
  rewrite ln_Rinv by exact Hi.
  replace (-1 * (INR n * (/ INR n * - ln (INR n)))) with (ln (INR n))
    by (field; lra).
  apply exp_ln. exact Hi.
Qed.

Lemma entropy_num_samples_equal_weights_witness :
  entropy_num_samples (repeat (Fin (-2)) 4) = Fin (INR 4).
Proof.
  apply entropy_num_samples_equal_weights; [lra | lia].
Defined.

Lemma np_absolute_scale (c : R) (x : npfloat) :
  finite x ->
  np_absolute (mul (Fin c) x) = mul (Fin (Rabs c)) (np_absolute x).
Proof.
  destruct x as [| | |y]; try discriminate. intros _.
  simpl. now rewrite Rabs_mult.
Qed.

Lemma sum_scale (k : R) (w : list npfloat) :
  Forall finite w -> sum (map (mul (Fin k)) w) = mul (Fin k) (sum w).
Proof.
  induction 1 as [|x w Hx Hw IH].
  - unfold sum; simpl. f_equal; lra.
  - destruct x as [| | |y]; try discriminate.
    destruct (sum_all_finite w Hw) as [s Es].
    simpl map. rewrite !sum_cons, IH, Es, !mul_Fin, !add_Fin, mul_Fin.
    f_equal; lra.
Qed.

(** X7: the entropy does not depend on the normalisation or the sign of the
    weights: multiplying finite weights by a finite non-zero factor leaves
    it as it is. *)
Theorem entropy_num_samples_scale_invariant (c : R) (w : list npfloat) :
  c <> 0 -> Forall finite w ->
  entropy_num_samples (map (mul (Fin c)) w) = entropy_num_samples w.
Proof.
  intros Hc Hw. unfold entropy_num_samples. rewrite length_map.
  destruct (length w =? 0)%nat; [reflexivity|].
  assert (Ha : 0 < Rabs c) by (apply Rabs_pos_lt; exact Hc).
  assert (Habs : Forall (fun x => exists y, x = Fin y /\ 0 <= y)
                        (map np_absolute w)).
  { apply Forall_map. eapply Forall_impl; [|exact Hw].
    intros [| | |y]; try discriminate. intros _.
    exists (Rabs y). split; [reflexivity | apply Rabs_pos]. }
  assert (E1 : map np_absolute (map (mul (Fin c)) w) =
               map (mul (Fin (Rabs c))) (map np_absolute w)).
  { rewrite !map_map. apply map_ext_in. intros x Hx.
    apply np_absolute_scale. rewrite Forall_forall in Hw. auto. }
  rewrite E1. clear E1.
  assert (Hfin : Forall finite (map np_absolute w)).
  { eapply Forall_impl; [|exact Habs]. intros x [y [-> _]]. reflexivity. }
  rewrite sum_scale by exact Hfin.
  destruct (sum_all_finite _ Hfin) as [s Es]. rewrite Es, mul_Fin.
  rewrite map_map. do 5 f_equal.
  apply map_ext_in. intros x Hx.
  rewrite Forall_forall in Habs. destruct (Habs x Hx) as [y [-> Hy]].
  rewrite mul_Fin. unfold div, recip.
  destruct (Req_dec_T s 0) as [Hs|Hs].
  - subst s. replace (Rabs c * 0) with 0 by lra.
    replace (Reqb 0 0) with true by (symmetry; apply Reqb_eq; reflexivity).
    unfold mul, scale_inf.
    destruct (Req_dec_T y 0) as [Hy0|Hy0].
    + subst y. replace (Rabs c * 0) with 0 by lra. reflexivity.
    + replace (Reqb (Rabs c * y) 0) with false
        by (symmetry; apply Reqb_neq; nra).
      replace (Reqb y 0) with false by (symmetry; apply Reqb_neq; exact Hy0).
      replace (Rltb 0 (Rabs c * y)) with true
        by (symmetry; apply Rltb_lt; nra).
      replace (Rltb 0 y) with true by (symmetry; apply Rltb_lt; lra).
      reflexivity.
  - replace (Reqb (Rabs c * s) 0) with false
      by (symmetry; apply Reqb_neq; nra).
    replace (Reqb s 0) with false by (symmetry; apply Reqb_neq; exact Hs).
    rewrite !mul_Fin. f_equal. field. lra.
Qed.

Lemma entropy_num_samples_scale_invariant_witness :
  entropy_num_samples (map (mul (Fin (-3))) [Fin 1; Fin 2]) =
  entropy_num_samples [Fin 1; Fin 2].
Proof.
  apply entropy_num_samples_scale_invariant;
    [lra | repeat constructor].
Defined.

(* ------------------------------------------------------------------ *)
(** ** get_n_calls *)

Lemma get_n_calls_fold (ts : list thread) (acc : nat) :
  fold_left
    (fun n_calls thread =>
       match thread with
       | Some t => (n_calls + length t)%nat
       | None => n_calls
       end)
    ts acc =
  (acc + length (present_rows ts))%nat.
Proof.
  revert acc; induction ts as [|[t|] ts IH]; intros acc; simpl.
  - lia.
  - rewrite IH, length_app. unfold present_rows. lia.
  - apply IH.
Qed.

(** X8: [get_n_calls] counts the rows of the threads that are not None: it is
    the number of rows of the table [merge_lrxp] returns, and 0 when
    [merge_lrxp] returns None. *)
Theorem get_n_calls_merge_lrxp (ns_run : ns_run_t) :
  get_n_calls ns_run = length (present_rows (threads ns_run)) /\
  match merge_lrxp (threads ns_run) with
  | Some lrxp => get_n_calls ns_run = length lrxp
  | None => get_n_calls ns_run = O
  end.
Proof.
  assert (E : get_n_calls ns_run = length (present_rows (threads ns_run)))
    by (unfold get_n_calls; now rewrite get_n_calls_fold).
  split; [exact E|].
  rewrite merge_lrxp_eq.
  destruct (existsb is_present (threads ns_run)) eqn:Ex.
  - now rewrite length_sort_by.
  - rewrite E, present_rows_absent; [reflexivity|].
    apply Forall_forall. intros [t|] Hin; [|reflexivity].
    assert (existsb is_present (threads ns_run) = true)
      by (apply existsb_exists; exists (Some t); auto).
    congruence.
Qed.

(* ------------------------------------------------------------------ *)
(** ** merge_lrxp of one thread that is in order *)

Lemma sort_by_sorted_id (t : list sample_row) :
  Sorted strictly_ascending_logl t -> sort_by row_logl t = t.
Proof.
  induction 1 as [|x t Ht IH Hx]; simpl; [reflexivity|].
  rewrite IH. destruct Hx as [|y t' Hxy]; simpl; [reflexivity|].
  replace (sort_le (row_logl x) (row_logl y)) with true; [reflexivity|].
  unfold strictly_ascending_logl in Hxy.
  destruct (row_logl x) as [| | |a], (row_logl y) as [| | |b];
    simpl in *; try discriminate; try reflexivity.
  symmetry. apply Rleb_le. apply Rltb_lt in Hxy. lra.
Qed.

(** X9: a thread whose rows are strictly ascending in logl, merged alone or
    with None threads around it, comes back as it is. *)
Theorem merge_lrxp_ordered_thread (t : list sample_row)
    (before after : list thread) :
  Sorted strictly_ascending_logl t ->
  Forall (fun a => a = None) before -> Forall (fun a => a = None) after ->
  merge_lrxp (before ++ [Some t] ++ after) = Some t.
Proof.
  intros Ht Hb Ha. rewrite merge_lrxp_eq.
  change ([Some t] ++ after) with (Some t :: after).
  rewrite existsb_app, present_rows_app.
  change (existsb is_present (Some t :: after)) with true.
  change (present_rows (Some t :: after)) with (t ++ present_rows after).
  rewrite (present_rows_absent _ Hb), (present_rows_absent _ Ha).
  rewrite orb_true_r, app_nil_r. simpl. f_equal.
  apply sort_by_sorted_id. exact Ht.
Qed.

Lemma merge_lrxp_ordered_thread_witness :
  let t := [mk_row (Fin 1) (Fin 0) (Fin 0) [];
            mk_row (Fin 2) (Fin 0) (Fin 0) []] in
  merge_lrxp ([None] ++ [Some t] ++ [None]) = Some t.
Proof.
  intros t. apply merge_lrxp_ordered_thread.
  - repeat constructor. unfold strictly_ascending_logl. simpl.
    apply Rltb_lt. lra.
  - repeat constructor.
  - repeat constructor.
Defined.

(* ------------------------------------------------------------------ *)
(** ** get_nlive on a standard run *)

Lemma update_map_seq (f : nat -> npfloat) (N k : nat) (v : npfloat) :
  (k < N)%nat ->
  update (map f (seq 0 N)) k v =
  map (fun j => if (j =? k)%nat then v else f j) (seq 0 N).
Proof.
  intros Hk. apply (nth_ext _ _ NaN NaN).
  - now rewrite length_update, !length_map.
  - intros j Hj. rewrite length_update, length_map, length_seq in Hj.
    rewrite nth_update by (rewrite length_map, length_seq; exact Hk).
    rewrite (nth_indep _ NaN (f O)) by (rewrite length_map, length_seq; lia).
    rewrite (nth_indep (map (fun j => if (j =? k)%nat then v else f j) _)
                       NaN ((fun j => if (j =? k)%nat then v else f j) O))
      by (rewrite length_map, length_seq; lia).
    rewrite (map_nth f), (map_nth (fun j => if (j =? k)%nat then v else f j)).
    rewrite seq_nth by exact Hj. reflexivity.
Qed.

Lemma fold_rbind_raise {A B} (f : A -> B -> result A) (l : list B)
    (e : exn) :
  fold_left (fun acc i => rbind acc (fun a => f a i)) l (Raise e) = Raise e.
Proof. induction l as [|i l IH]; simpl; auto. Qed.

Lemma ramp_fold (nl : Z) (N m : nat) :
  (m <= N)%nat ->
  fold_left
    (fun acc i => rbind acc (fun a => setitem a (- i) (Fin (IZR i))))
    (map Z.of_nat (seq 1 m))
    (Ok (map (fun z => add z (Fin (IZR nl))) (zeros N))) =
  Ok (ramp_after nl N m).
Proof.
  induction m as [|m IH]; intros Hm.
  - simpl. f_equal. unfold ramp_after, zeros.
    apply (nth_ext _ _ NaN NaN).
    + now rewrite !length_map, repeat_length, length_seq.
    + intros j Hj. rewrite length_map, repeat_length in Hj.
      rewrite (nth_indep _ NaN (add (Fin 0) (Fin (IZR nl))))
        by (rewrite length_map, repeat_length; exact Hj).
      rewrite (map_nth (fun z => add z (Fin (IZR nl)))), nth_repeat.
      rewrite (nth_indep _ NaN
                 ((fun j => if (N <=? j + 0)%nat then Fin (INR (N - j))
                            else Fin (0 + IZR nl)) O))
        by (rewrite length_map, length_seq; exact Hj).
      rewrite (map_nth (fun j => if (N <=? j + 0)%nat then Fin (INR (N - j))
                                 else Fin (0 + IZR nl))).
      rewrite seq_nth by exact Hj.
      replace (N <=? 0 + j + 0)%nat with false
        by (symmetry; apply Nat.leb_gt; lia).
      reflexivity.
  - rewrite seq_S, map_app, fold_left_app, IH by lia.
    cbn [map fold_left rbind].
    rewrite setitem_neg
      by (unfold ramp_after; rewrite length_map, length_seq; lia).
    f_equal. unfold ramp_after at 1 2. rewrite length_map, length_seq.
    rewrite update_map_seq by lia.
    unfold ramp_after. apply map_ext_in. intros j Hj.
    apply in_seq in Hj. change (1 + m)%nat with (S m).
    destruct (j =? N - S m)%nat eqn:E1.
    + apply Nat.eqb_eq in E1.
      replace (N <=? j + S m)%nat with true
        by (symmetry; apply Nat.leb_le; lia).
      f_equal. rewrite <- INR_IZR_INZ. f_equal. lia.
    + apply Nat.eqb_neq in E1.
      destruct (N <=? j + m)%nat eqn:E2.
      * apply Nat.leb_le in E2.
        replace (N <=? j + S m)%nat with true
          by (symmetry; apply Nat.leb_le; lia).
        reflexivity.
      * apply Nat.leb_gt in E2.
        replace (N <=? j + S m)%nat with false
          by (symmetry; apply Nat.leb_gt; lia).
        reflexivity.
Qed.

Lemma ramp_after_standard (k N : nat) :
  (1 <= k)%nat ->
  ramp_after (Z.of_nat k) N (k - 1) = standard_nlive k N.
Proof.
  intros Hk. unfold ramp_after, standard_nlive.
  apply map_ext_in. intros j Hj.
  destruct (j + k <=? N)%nat eqn:E.
  - apply Nat.leb_le in E.
    replace (N <=? j + (k - 1))%nat with false
      by (symmetry; apply Nat.leb_gt; lia).
    f_equal. rewrite <- INR_IZR_INZ. lra.
  - apply Nat.leb_gt in E.
    replace (N <=? j + (k - 1))%nat with true
      by (symmetry; apply Nat.leb_le; lia).
    reflexivity.
Qed.

Lemma standard_nlive_positive (k N : nat) :
  (1 <= k)%nat -> Forall positive (standard_nlive k N).
Proof.
  intros Hk. unfold standard_nlive. apply Forall_map, Forall_forall.
  intros j Hj. apply in_seq in Hj.
  destruct (j + k <=? N)%nat; unfold positive, gt; simpl; apply Rltb_lt;
    apply lt_0_INR; lia.
Qed.

(** X10: for a standard run (no precomputed counts, no interval records, no
    dynamic goal) with [nlive >= 1] live points and at least
    [nlive - 1] samples, [get_nlive] returns [nlive] at every sample but the
    last [nlive - 1], where it returns the number of samples that remain:
    [nlive - 1, ..., 2, 1]. *)
Theorem get_nlive_standard_run (run_dict : ns_run_t) (logl : list npfloat) :
  let nl := nlive (settings run_dict) in
  nlive_array run_dict = None ->
  thread_logl_min_max run_dict = None ->
  dynamic_goal (settings run_dict) = None ->
  logl <> [] ->
  (1 <= nl <= Z.of_nat (length logl) + 1)%Z ->
  get_nlive run_dict logl = Ok (standard_nlive (Z.to_nat nl) (length logl)) /\
  (forall i, (1 <= i < Z.to_nat nl)%nat ->
             nth (length logl - i) (standard_nlive (Z.to_nat nl) (length logl))
                 NaN = Fin (INR i)) /\
  (forall j, (j + Z.to_nat nl <= length logl)%nat ->
             nth j (standard_nlive (Z.to_nat nl) (length logl)) NaN =
             Fin (IZR nl)).
Proof.
  intros nl H1 H2 H3 Hne Hnl.
  assert (Hk : (1 <= Z.to_nat nl)%nat) by lia.
  assert (HN : (0 < length logl)%nat)
    by (destruct logl; [congruence | simpl; lia]).
  assert (E : nlive_of_run run_dict logl =
              Ok (standard_nlive (Z.to_nat nl) (length logl))).
  { unfold nlive_of_run. rewrite H1, H2, H3. cbn [assert rbind]. fold nl.
    rewrite ramp_fold by lia.
    rewrite <- (Z2Nat.id nl) at 1 by lia.
    now rewrite ramp_after_standard. }
  split; [|split].
  - apply (get_nlive_check _ _ _ E). split.
    + unfold standard_nlive. intros C.
      apply (f_equal (@length _)) in C.
      rewrite length_map, length_seq in C. simpl in C. lia.
    + apply standard_nlive_positive. exact Hk.
  - intros i Hi. unfold standard_nlive.
    rewrite (nth_indep _ NaN
               ((fun j => if (j + Z.to_nat nl <=? length logl)%nat
                          then Fin (INR (Z.to_nat nl))
                          else Fin (INR (length logl - j))) O))
      by (rewrite length_map, length_seq; lia).
    rewrite (map_nth (fun j => if (j + Z.to_nat nl <=? length logl)%nat
                               then Fin (INR (Z.to_nat nl))
                               else Fin (INR (length logl - j)))).
    rewrite seq_nth by lia. simpl Nat.add.
    replace (length logl - i + Z.to_nat nl <=? length logl)%nat with false
      by (symmetry; apply Nat.leb_gt; lia).
    do 2 f_equal. lia.
  - intros j Hj. unfold standard_nlive.
    rewrite (nth_indep _ NaN
               ((fun j => if (j + Z.to_nat nl <=? length logl)%nat
                          then Fin (INR (Z.to_nat nl))
                          else Fin (INR (length logl - j))) O))
      by (rewrite length_map, length_seq; lia).
    rewrite (map_nth (fun j => if (j + Z.to_nat nl <=? length logl)%nat
                               then Fin (INR (Z.to_nat nl))
                               else Fin (INR (length logl - j)))).
    rewrite seq_nth by lia. simpl Nat.add.
    replace (j + Z.to_nat nl <=? length logl)%nat with true
      by (symmetry; apply Nat.leb_le; lia).
    f_equal. rewrite INR_IZR_INZ. f_equal. lia.
Qed.

Lemma get_nlive_standard_run_witness :
  let run_dict := mk_run [] None None (mk_settings None 3 3) in
  let logl := [Fin 1; Fin 2; Fin 3; Fin 4] in
  get_nlive run_dict logl = Ok (standard_nlive 3 4).
Proof.
  intros run_dict logl.
  assert (Hne : logl <> []) by discriminate.
  assert (Hnl : (1 <= nlive (settings run_dict)
                 <= Z.of_nat (length logl) + 1)%Z) by (simpl; lia).
  exact (proj1 (get_nlive_standard_run run_dict logl eq_refl eq_refl eq_refl
                  Hne Hnl)).
Defined.

(** X11: a standard run with more than [len(logl) + 1] live points makes
    [get_nlive] raise an IndexError: the assignment [nlive_array[-i] = i]
    leaves the array. *)
Theorem get_nlive_standard_run_index_error (run_dict : ns_run_t)
    (logl : list npfloat) :
  nlive_array run_dict = None ->
  thread_logl_min_max run_dict = None ->
  dynamic_goal (settings run_dict) = None ->
  (Z.of_nat (length logl) + 1 < nlive (settings run_dict))%Z ->
  get_nlive run_dict logl = Raise IndexError.
Proof.
  intros H1 H2 H3 Hnl.
  set (N := length logl) in *. set (nl := nlive (settings run_dict)) in *.
  unfold get_nlive, nlive_of_run. rewrite H1, H2, H3. cbn [assert rbind].
  fold nl N.
  replace (Z.to_nat nl - 1)%nat with (N + S (Z.to_nat nl - 2 - N))%nat by lia.
  rewrite seq_app, map_app, fold_left_app, ramp_fold by lia.
  cbn [seq map fold_left rbind].
  replace (setitem (ramp_after nl N N) (- Z.of_nat (1 + N))
                   (Fin (IZR (Z.of_nat (1 + N)))))
    with (@Raise (list npfloat) IndexError).
  - cbn [rbind]. now rewrite fold_rbind_raise.
  - unfold setitem, norm_index, ramp_after.
    rewrite length_map, length_seq.
    replace (0 <=? - Z.of_nat (1 + N))%Z with false
      by (symmetry; apply Z.leb_gt; lia).
    replace (- Z.of_nat N <=? - Z.of_nat (1 + N))%Z with false
      by (symmetry; apply Z.leb_gt; lia).
    reflexivity.
Qed.

Lemma get_nlive_standard_run_index_error_witness :
  get_nlive (mk_run [] None None (mk_settings None 5 5)) [Fin 1; Fin 2] =
  Raise IndexError.
Proof.
  apply get_nlive_standard_run_index_error; reflexivity.
Defined.

(* ------------------------------------------------------------------ *)
(** ** get_nlive: the other assertions and the precomputed array *)

(** X12: without precomputed counts, [get_nlive] raises its own assertion
    errors on a run that has a dynamic goal but no interval records, and on
    interval records among which one has both bounds NaN, whatever the
    other records and the samples are. *)
Theorem get_nlive_integrity_assertions (run_dict : ns_run_t)
    (logl : list npfloat) :
  nlive_array run_dict = None ->
  (thread_logl_min_max run_dict = None ->
   dynamic_goal (settings run_dict) <> None ->
   get_nlive run_dict logl =
   Raise (AssertionError dynamic_run_without_thread_logl_min_max)) /\
  (forall lmm_ar,
      thread_logl_min_max run_dict = Some lmm_ar ->
      Exists (fun r => isnan (logl_min r) && isnan (logl_max r) = true)
             lmm_ar ->
      get_nlive run_dict logl =
      Raise (AssertionError threads_with_neither_start_nor_end)).
Proof.
  intros H1. split.
  - intros H2 H3. unfold get_nlive, nlive_of_run. rewrite H1, H2.
    destruct (dynamic_goal (settings run_dict)); [reflexivity | congruence].
  - intros lmm_ar H2 Hex. unfold get_nlive.
    rewrite (nlive_of_run_dynamic _ _ logl H1 H2).
    destruct (length (filter (fun r => isnan (logl_min r) &&
                                       isnan (logl_max r)) lmm_ar) =? 0)%nat
      eqn:E; [|reflexivity].
    exfalso. apply no_unbounded_record_filter in E.
    apply Exists_exists in Hex. destruct Hex as [r [Hin Hr]].
    unfold no_unbounded_record in E. rewrite Forall_forall in E.
    rewrite (E r Hin) in Hr. discriminate.
Qed.

Lemma get_nlive_integrity_assertions_witness :
  let lmm_ar := [mk_lmm NaN (Fin 1) (Fin 2); mk_lmm NaN NaN (Fin 1)] in
  let run_dict := mk_run [] (Some lmm_ar) None (mk_settings (Some 1) 0 1) in
  get_nlive run_dict [Fin 0] =
  Raise (AssertionError threads_with_neither_start_nor_end).
Proof.
  intros lmm_ar run_dict.
  refine (proj2 (get_nlive_integrity_assertions run_dict [Fin 0] eq_refl)
                lmm_ar eq_refl _).
  apply Exists_cons_tl, Exists_cons_hd. reflexivity.
Defined.

(** X13: a precomputed array under the key ['nlive_array'] wins over everything
    else: when it is not empty and strictly positive [get_nlive] returns it
    as it is, whatever the samples (their number is not compared with its
    length), the interval records and the settings; when it is empty
    [get_nlive] raises the ValueError of [min]. *)
Theorem get_nlive_precomputed (run_dict : ns_run_t)
    (a logl : list npfloat) :
  nlive_array run_dict = Some a ->
  (a <> [] -> Forall positive a -> get_nlive run_dict logl = Ok a) /\
  (a = [] -> get_nlive run_dict logl = Raise ValueError).
Proof.
  intros H.
  assert (E : nlive_of_run run_dict logl = Ok a)
    by (unfold nlive_of_run; now rewrite H).
  split.
  - intros Hne Hpos. apply (get_nlive_check _ _ _ E). auto.
  - intros ->. unfold get_nlive. rewrite E. reflexivity.
Qed.

Lemma get_nlive_precomputed_witness :
  let run_dict :=
    mk_run [] None (Some [Fin 2; Fin 1]) (mk_settings (Some 1) 0 1) in
  get_nlive run_dict [Fin 0; Fin 0; Fin 0] = Ok [Fin 2; Fin 1].
Proof.
  intros run_dict.
  apply (proj1 (get_nlive_precomputed run_dict [Fin 2; Fin 1]
                  [Fin 0; Fin 0; Fin 0] eq_refl)).
  - discriminate.
  - repeat constructor; apply Rltb_lt; lra.
Defined.

(* ------------------------------------------------------------------ *)
(** ** get_logx: failures and the simulated mode *)

Lemma np_amin_not_positive (a : list npfloat) (m : npfloat) :
  np_amin a = Ok m -> ~ Forall positive a -> gt m (Fin 0) = false.
Proof.
  intros Em Hn. destruct (gt m (Fin 0)) eqn:E; [|reflexivity].
  exfalso. apply Hn. apply (np_amin_positive_inv a m Em E).
Qed.

(** X14: in both modes [get_logx] fails before any random number is drawn: with
    the ValueError of [min] on an empty array, and with its assertion
    error, whose message prints the array, as soon as one live count is not
    strictly positive. *)
Theorem get_logx_fails_before_drawing (nlive_array : list npfloat)
    (simulate : bool) (g : rng) :
  (nlive_array = [] ->
   get_logx nlive_array simulate g = (Raise ValueError, g)) /\
  (nlive_array <> [] -> ~ Forall positive nlive_array ->
   get_logx nlive_array simulate g =
   (Raise (AssertionError
             (logx_nlive_contains_zeros (np_array_str nlive_array))), g)).
Proof.
  split.
  - intros ->. reflexivity.
  - intros Hne Hn. unfold get_logx, bind, lift.
    destruct nlive_array as [|x a]; [congruence|].
    cbn [np_amin].
    rewrite (np_amin_not_positive (x :: a) _ eq_refl Hn). reflexivity.
Qed.

Lemma get_logx_fails_before_drawing_witness :
  let g := mk_rng (fun k => k) (fun _ => 0) O in
  get_logx [Fin 3; Fin 0] true g =
  (Raise (AssertionError
            (logx_nlive_contains_zeros (str_all [Fin 3; Fin 0]))), g).
Proof.
  intros g.
  apply (proj2 (get_logx_fails_before_drawing [Fin 3; Fin 0] true g)).
  - discriminate.
  - intros H. inversion H as [|? ? _ H']; subst.
    inversion H' as [|? ? H0 _]; subst.
    unfold positive, gt in H0. simpl in H0. apply Rltb_lt in H0. lra.
Defined.

Lemma map2_map_l {A A' B C} (f : A' -> B -> C) (h : A -> A') (a : list A)
    (b : list B) :
  map2 f (map h a) b = map2 (fun x y => f (h x) y) a b.
Proof.
  revert b; induction a as [|x a IH]; intros [|y b]; simpl; auto.
  now rewrite IH.
Qed.

Lemma simulated_step_nonpos (u : R) (n : npfloat) :
  0 < u <= 1 -> positive n ->
  exists x, div (log (Fin u)) n = Fin x /\ x <= 0.
Proof.
  intros [H0 H1] Hn. rewrite log_Fin_pos by exact H0.
  assert (Hl : ln u <= 0).
  { destruct (Req_dec_T u 1) as [->|Hu]; [rewrite ln_1; lra|].
    rewrite <- ln_1. left. apply ln_increasing; lra. }
  unfold positive, gt in Hn.
  destruct n as [| | |x]; simpl in Hn; try discriminate.
  - exists (ln u * 0). split; [reflexivity | lra].
  - apply Rltb_lt in Hn. rewrite div_Fin_nonzero by lra.
    exists (ln u / x). split; [reflexivity|].
    assert (0 < / x) by (apply Rinv_0_lt_compat; exact Hn).
    unfold Rdiv. nra.
Qed.

Lemma simulated_steps_nonpos (u : nat -> R) (ks : list nat)
    (nl : list npfloat) :
  (forall k, In k ks -> 0 < u k <= 1) -> Forall positive nl ->
  Forall (fun s => exists x, s = Fin x /\ x <= 0)
         (map2 (fun k n => div (log (Fin (u k))) n) ks nl).
Proof.
  revert nl; induction ks as [|k ks IH]; intros [|n nl] Hu Hn; simpl;
    try constructor.
  - inversion Hn; subst. apply simulated_step_nonpos; auto.
    apply Hu. left. reflexivity.
  - inversion Hn; subst. apply IH; auto. intros; apply Hu; right; auto.
Qed.

(** X15: in simulated mode, on a non-empty strictly positive array, [get_logx]
    draws exactly one uniform number per live count and returns the prefix
    sums of [log(U_k) / nlive[k]]; when the draws are in [(0, 1]] the
    sequence never increases. *)
Theorem get_logx_simulated (nlive_array : list npfloat) (g : rng) :
  let N := length nlive_array in
  let steps := simulated_steps g nlive_array in
  nlive_array <> [] -> Forall positive nlive_array ->
  get_logx nlive_array true g =
  (Ok (map (prefix_sum steps) (seq 0 N)), advance N g) /\
  ((forall k, (k < N)%nat -> 0 < rand_floats g (consumed g + k) <= 1) ->
   non_increasing (map (prefix_sum steps) (seq 0 N))).
Proof.
  intros N steps Hne Hpos.
  destruct (np_amin_positive _ Hne Hpos) as [m [Em Hm]].
  assert (HN : length steps = N).
  { unfold steps, simulated_steps.
    rewrite length_map2, length_seq. apply Nat.min_id. }
  split.
  - unfold get_logx, bind, lift, ret, np_random_random. rewrite Em.
    unfold positive in Hm. rewrite Hm. cbn [assert].
    rewrite map_map, map2_map_l. fold N.
    change (map2 _ (seq 0 N) nlive_array) with steps.
    now rewrite cumsum_prefix_sum, HN.
  - intros Hu. rewrite <- HN, <- cumsum_prefix_sum. unfold cumsum.
    apply cumsum_from_non_increasing.
    unfold steps, simulated_steps.
    apply (simulated_steps_nonpos
             (fun k => rand_floats g (consumed g + k))); [|exact Hpos].
    intros k Hk. apply in_seq in Hk. apply Hu. fold N in Hk. lia.
Qed.

Lemma get_logx_simulated_witness :
  let g := mk_rng (fun k => k) (fun _ => 1 / 2) O in
  let nlive_array := [Fin 2; Fin 1] in
  get_logx nlive_array true g =
  (Ok (map (prefix_sum (simulated_steps g nlive_array)) (seq 0 2)),
   advance 2 g) /\
  non_increasing (map (prefix_sum (simulated_steps g nlive_array)) (seq 0 2)).
Proof.
  intros g nlive_array.
  assert (Hne : nlive_array <> []) by discriminate.
  assert (Hpos : Forall positive nlive_array)
    by (repeat constructor; apply Rltb_lt; lra).
  destruct (get_logx_simulated nlive_array g Hne Hpos) as [H1 H2].
  split; [exact H1|]. apply H2. intros k _. simpl. lra.
Defined.

(* ------------------------------------------------------------------ *)
(** ** Weights without simulation draw no random number *)

Lemma get_logx_false_state (nlive_array : list npfloat) (g : rng) :
  snd (get_logx nlive_array false g) = g.
Proof.
  unfold get_logx, bind, lift, ret.
  destruct (np_amin nlive_array) as [m|e]; [|reflexivity].
  destruct (assert _ _); reflexivity.
Qed.

Lemma get_logw_false_state (logl nlive_array : list npfloat) (g : rng) :
  snd (get_logw logl nlive_array false g) = g.
Proof.
  unfold get_logw. unfold bind at 1.
  pose proof (get_logx_false_state nlive_array g) as Hx.
  destruct (get_logx nlive_array false g) as [[logx|e] g1];
    simpl in Hx; subst g1; [|reflexivity].
  unfold bind, lift, ret, log_subtract.
  repeat match goal with
    | |- context [match ?c with Ok _ => _ | Raise _ => _ end] => destruct c
    end; reflexivity.
Qed.

(** X16: with [simulate=False], [run_estimators] leaves the random state as it
    found it, whether it returns or raises. *)
Theorem run_estimators_draws_nothing (ns_run : ns_run_t)
    (estimator_list : list estimator_t) (g : rng) :
  snd (run_estimators ns_run estimator_list false g) = g.
Proof.
  unfold run_estimators.
  destruct (merge_lrxp (threads ns_run)) as [lrxp|]; [|reflexivity].
  unfold bind at 1, lift at 1.
  destruct (get_nlive ns_run (map row_logl lrxp)) as [nl|e]; [|reflexivity].
  unfold bind.
  pose proof (get_logw_false_state (map row_logl lrxp) nl g) as Hw.
  destruct (get_logw (map row_logl lrxp) nl false g) as [[logw|e] g1];
    simpl in Hw; subst g1; reflexivity.
Qed.

(* ------------------------------------------------------------------ *)
(** ** Runs without a sample, and threads that are None *)

(** X17: when every thread is None, [run_estimators] raises a TypeError (the
    table [merge_lrxp] returned is None and is indexed), and so does
    [run_std_simulate] for every [n_simulate >= 0]; no random number is
    drawn. *)
Theorem run_estimators_no_sample (ns_run : ns_run_t)
    (estimator_list : list estimator_t) (g : rng) :
  Forall (fun t => t = None) (threads ns_run) ->
  (forall simulate,
      run_estimators ns_run estimator_list simulate g = (Raise TypeError, g)) /\
  (forall n_simulate,
      (0 <= n_simulate)%Z ->
      run_std_simulate ns_run estimator_list n_simulate g =
      (Raise TypeError, g)).
Proof.
  intros H.
  assert (E : merge_lrxp (threads ns_run) = None).
  { rewrite merge_lrxp_eq. now rewrite existsb_present_absent. }
  split.
  - intros simulate. unfold run_estimators. now rewrite E.
  - intros n_simulate Hn. unfold run_std_simulate.
    replace (n_simulate <? 0)%Z with false
      by (symmetry; apply Z.ltb_ge; exact Hn).
    now rewrite E.
Qed.

Lemma run_estimators_no_sample_witness :
  let ns_run := mk_run [None; None] None None (mk_settings None 2 2) in
  let g := mk_rng (fun k => k) (fun _ => 0) O in
  run_estimators ns_run [] false g = (Raise TypeError, g).
Proof.
  intros ns_run g.
  assert (H : Forall (fun t => t = None) (threads ns_run))
    by (repeat constructor).
  exact (proj1 (run_estimators_no_sample ns_run [] g H) false).
Defined.

Lemma merge_lrxp_filter_present (ts : list thread) :
  merge_lrxp (filter is_present ts) = merge_lrxp ts.
Proof.
  rewrite !merge_lrxp_eq.
  assert (E2 : present_rows (filter is_present ts) = present_rows ts).
  { induction ts as [|[t|] ts IH]; [reflexivity | | exact IH].
    change (t ++ present_rows (filter is_present ts) =
            t ++ present_rows ts).
    now rewrite IH. }
  assert (E1 : existsb is_present (filter is_present ts) =
               existsb is_present ts).
  { clear E2.
    induction ts as [|[t|] ts IH]; [reflexivity | reflexivity | exact IH]. }
  now rewrite E1, E2.
Qed.

(** X18: threads that are None have no influence on the estimators: a run and
    the run with its None threads taken out, the other keys as they are,
    give the same result of [run_estimators]. *)
Theorem run_estimators_ignores_none_threads (ts : list thread)
    (lmm_ar : option (list lmm_row)) (nl : option (list npfloat))
    (s : settings_t) (estimator_list : list estimator_t) (simulate : bool)
    (g : rng) :
  run_estimators (mk_run ts lmm_ar nl s) estimator_list simulate g =
  run_estimators (mk_run (filter is_present ts) lmm_ar nl s)
                 estimator_list simulate g.
Proof.
  unfold run_estimators. cbn [threads].
  rewrite merge_lrxp_filter_present.
  destruct (merge_lrxp ts) as [lrxp|]; reflexivity.
Qed.

(* ------------------------------------------------------------------ *)
(** ** get_logw: finite weights, and too few samples *)

Lemma log_subtract_value_finite (a b : R) :
  b < a -> exists v, log_subtract_value (Fin a) (Fin b) = Fin v.
Proof.
  intros H. unfold log_subtract_value.
  rewrite sub_Fin, exp_Fin, sub_Fin.
  assert (E : Rtrigo_def.exp (b - a) < 1).
  { rewrite <- exp_0. apply exp_increasing. lra. }
  rewrite log_Fin_pos by lra. eexists. reflexivity.
Qed.

Lemma logsumexp_finite_pair (a b : R) :
  exists v, logsumexp [Fin a; Fin b] = Ok (Fin v).
Proof.
  unfold logsumexp. cbn [np_amax fold_left rbind].
  assert (Hm : exists m, max2 (Fin a) (Fin b) = Fin m).
  { unfold max2. simpl. destruct (Rleb a b); eexists; reflexivity. }
  destruct Hm as [m ->]. cbn [isfinite map].
  rewrite !sub_Fin, !exp_Fin. unfold sum. cbn [fold_left].
  rewrite !add_Fin.
  pose proof (exp_pos (a - m)). pose proof (exp_pos (b - m)).
  rewrite log_Fin_pos by lra. eexists. reflexivity.
Qed.

Lemma cumsum_from_decreasing (steps : list npfloat) (a : R) :
  Forall (fun s => exists x, s = Fin x /\ x < 0) steps ->
  exists xs,
    cumsum_from (Fin a) steps = map Fin xs /\ Sorted Rgt (a :: xs).
Proof.
  revert a; induction steps as [|s steps IH]; intros a H.
  - exists []. split; [reflexivity | repeat constructor].
  - inversion H as [|? ? [x [-> Hx]] Hs]; subst.
    destruct (IH (a + x) Hs) as [xs [E S]].
    exists ((a + x) :: xs). split.
    + simpl. now rewrite E.
    + constructor; [exact S | constructor; unfold Rgt; lra].
Qed.

Lemma sorted_Rgt_nth (l : list R) (i : nat) :
  Sorted Rgt l -> (S i < length l)%nat -> nth (S i) l 0 < nth i l 0.
Proof.
  intros H. revert i. induction H as [|a l Hl IH Ha]; intros i Hi.
  - simpl in Hi. lia.
  - destruct i as [|i].
    + destruct Ha as [|b l' Hab]; [simpl in Hi; lia|]. simpl. exact Hab.
    + simpl in Hi. simpl. apply IH. lia.
Qed.

Lemma logx_step_negative (n : npfloat) :
  positive_finite n -> exists x, logx_step n = Fin x /\ x < 0.
Proof.
  intros [y [-> Hy]]. unfold logx_step.
  rewrite div_Fin_nonzero by lra. exists (-1 / y). split; [reflexivity|].
  assert (0 < / y) by (apply Rinv_0_lt_compat; exact Hy).
  unfold Rdiv. nra.
Qed.

Lemma positive_finite_positive (n : npfloat) :
  positive_finite n -> positive n.
Proof. intros [y [-> Hy]]. apply Rltb_lt. exact Hy. Qed.

Lemma get_logw_finite_weights (logl nlive_array : list npfloat) (g : rng) :
  (2 <= length logl)%nat -> length nlive_array = length logl ->
  Forall positive_finite nlive_array -> Forall finite logl ->
  exists logw,
    get_logw logl nlive_array false g = (Ok logw, g) /\
    length logw = length logl /\ Forall finite logw.
Proof.
  intros HN Hlen Hpf Hfin.
  set (N := length logl) in *.
  assert (Hne : nlive_array <> []).
  { intros E. rewrite E in Hlen. simpl in Hlen. lia. }
  assert (Hpos : Forall positive nlive_array)
    by (eapply Forall_impl; [apply positive_finite_positive | exact Hpf]).
  pose proof (get_logx_false nlive_array g Hne Hpos) as Hx.
  destruct (cumsum_from_decreasing (map logx_step nlive_array) 0)
    as [xs [Exs Sxs]].
  { apply Forall_map. eapply Forall_impl; [|exact Hpf].
    intros n Hn. apply logx_step_negative. exact Hn. }
  fold (cumsum (map logx_step nlive_array)) in Exs.
  assert (Lxs : length xs = N).
  { apply (f_equal (@length _)) in Exs.
    unfold cumsum in Exs.
    rewrite length_cumsum_from, !length_map in Exs. lia. }
  set (X := Fin 0 :: cumsum (map logx_step nlive_array)).
  assert (EX : X = map Fin (0 :: xs)) by (unfold X; now rewrite Exs).
  assert (HXn : forall i, (i <= N)%nat -> nth i X NaN = Fin (nth i (0 :: xs) 0)).
  { intros i Hi. rewrite EX.
    rewrite (nth_indep _ NaN (Fin 0)) by (rewrite length_map; simpl; lia).
    apply (map_nth Fin). }
  assert (Hdec : forall i, (i < N)%nat ->
                           nth (S i) (0 :: xs) 0 < nth i (0 :: xs) 0).
  { intros i Hi. apply sorted_Rgt_nth; [exact Sxs | simpl; lia]. }
  assert (Htrap : forall i, (i + 2 <= N)%nat ->
                            exists v, trapezium_term X i = Fin v).
  { intros i Hi. unfold trapezium_term.
    rewrite !HXn by lia.
    destruct (log_subtract_value_finite
                (nth i (0 :: xs) 0) (nth (i + 2) (0 :: xs) 0)) as [v Ev].
    - replace (i + 2)%nat with (S (S i)) by lia.
      pose proof (Hdec i ltac:(lia)). pose proof (Hdec (S i) ltac:(lia)).
      lra.
    - rewrite Ev, log_Fin_pos by lra. rewrite sub_Fin.
      eexists. reflexivity. }
  destruct (Htrap O ltac:(lia)) as [t0 Et0].
  destruct (log_subtract_value_finite (nth 0 (0 :: xs) 0)
                                      (nth 1 (0 :: xs) 0)) as [c Ec].
  { apply (Hdec O). lia. }
  destruct (logsumexp_finite_pair t0 (ln (1 / 2) + c)) as [first Efirst].
  assert (Hfirst :
            logsumexp [trapezium_term X 0;
                       add (log (Fin (1 / 2)))
                           (log_subtract_value (nth 0 X NaN) (nth 1 X NaN))] =
            Ok (Fin first)).
  { rewrite Et0, !HXn by lia. rewrite Ec, log_Fin_pos by lra.
    rewrite add_Fin. exact Efirst. }
  exists (map2 add (map (volume_weight X N (Fin first)) (seq 0 N)) logl).
  split; [|split].
  - apply (get_logw_steps logl nlive_array
             (cumsum (map logx_step nlive_array)) false g g (Fin first));
      auto.
    unfold cumsum. rewrite length_cumsum_from, length_map. exact Hlen.
  - rewrite length_map2, length_map, length_seq. apply Nat.min_id.
  - assert (Hvw : forall i, (i < N)%nat ->
                            exists v, volume_weight X N (Fin first) i = Fin v).
    { intros i Hi. unfold volume_weight.
      destruct (i =? N - 1)%nat eqn:E1.
      - destruct (N - 2 =? 0)%nat; [eexists; reflexivity|].
        apply Htrap. lia.
      - apply Nat.eqb_neq in E1.
        destruct (i =? 0)%nat; [eexists; reflexivity|].
        apply Htrap. lia. }
    apply Forall_forall. intros w Hw.
    destruct (In_nth _ _ NaN Hw) as [i [Hi Ei]].
    rewrite length_map2, length_map, length_seq, Nat.min_id in Hi.
    rewrite (nth_map2 _ _ _ _ (volume_weight X N (Fin first) O) NaN) in Ei
      by (rewrite ?length_map, ?length_seq; fold N; lia).
    rewrite (map_nth (volume_weight X N (Fin first))), seq_nth in Ei
      by exact Hi.
    destruct (Hvw i Hi) as [v Ev]. simpl Nat.add in Ei. rewrite Ev in Ei.
    rewrite Forall_forall in Hfin.
    assert (Hl : finite (nth i logl NaN)) by (apply Hfin, nth_In; exact Hi).
    destruct (nth i logl NaN) as [| | |y]; try discriminate.
    subst w. reflexivity.
Qed.

(** X19: for at least two samples with finite log-likelihoods and positive
    finite live counts, one per sample, [get_logw] without simulation
    returns, and every weight is finite: each call of [log_subtract] it
    makes has its first argument strictly above the second. *)
Theorem get_logw_finite (logl nlive_array : list npfloat) (g : rng) :
  (2 <= length logl)%nat -> length nlive_array = length logl ->
  Forall positive_finite nlive_array -> Forall finite logl ->
  exists logw,
    get_logw logl nlive_array false g = (Ok logw, g) /\
    length logw = length logl /\ Forall finite logw.
Proof.
  intros HN Hlen Hpf Hfin.
  destruct (get_logw_finite_weights logl nlive_array g HN Hlen Hpf Hfin)
    as [logw [H1 [H2 H3]]].
  exists logw. split; [exact H1|]. split; [exact H2 | exact H3].
Qed.

Lemma get_logw_finite_witness :
  let logl := [Fin (-2); Fin (-1); Fin 0] in
  let nlive_array := [Fin 2; Fin 2; Fin 1] in
  let g := mk_rng (fun k => k) (fun _ => 0) O in
  exists logw,
    get_logw logl nlive_array false g = (Ok logw, g) /\
    length logw = 3%nat /\ Forall finite logw.
Proof.
  intros logl nlive_array g.
  apply (get_logw_finite logl nlive_array g).
  - simpl. lia.
  - reflexivity.
  - repeat constructor; eexists; (split; [reflexivity | lra]).
  - repeat constructor.
Defined.

(** X20: on fewer than two samples [get_logw] never returns: with one sample and
    a positive live count it raises the IndexError of [logw[-2]]. *)
Theorem get_logw_single_sample (l n : npfloat) (simulate : bool) (g : rng) :
  positive n ->
  exists g', get_logw [l] [n] simulate g = (Raise IndexError, g').
Proof.
  intros Hn.
  destruct (get_logx_returns [n] simulate g) as [logx [g' [Hx Hl]]];
    [discriminate | repeat constructor; exact Hn |].
  destruct logx as [|x [|y logx]]; try discriminate.
  exists g'. unfold get_logw, bind. rewrite Hx.
  unfold lift, log_subtract, logsumexp. cbn. reflexivity.
Qed.

Lemma get_logw_single_sample_witness :
  let g := mk_rng (fun k => k) (fun _ => 0) O in
  exists g', get_logw [Fin 0] [Fin 1] false g = (Raise IndexError, g').
Proof.
  intros g. apply get_logw_single_sample. apply Rltb_lt. lra.
Defined.

(* ------------------------------------------------------------------ *)
(** ** Standard deviations of fewer than two values *)

Lemma np_std_ddof1_nil : np_std_ddof1 [] = NaN.
Proof.
  unfold np_std_ddof1, sum, div, recip. simpl. Rbool.
  unfold scale_inf. Rbool. reflexivity.
Qed.

Lemma np_std_ddof1_single (x : npfloat) : np_std_ddof1 [x] = NaN.
Proof.
  unfold np_std_ddof1, sum. cbn [length map fold_left Nat.sub INR].
  rewrite !add_0_l.
  destruct x as [| | |y].
  - reflexivity.
  - unfold div at 2 3. rewrite recip_Fin_nonzero by lra. cbn.
    unfold scale_inf. Rbool. reflexivity.
  - unfold div at 2 3. rewrite recip_Fin_nonzero by lra. cbn.
    unfold scale_inf. Rbool. reflexivity.
  - rewrite div_Fin_nonzero by lra. rewrite sub_Fin, mul_Fin.
    replace ((y - y / 1) * (y - y / 1)) with 0 by field.
    unfold div, recip, sqrt. Rbool. cbn. unfold scale_inf. Rbool.
    reflexivity.
Qed.

Lemma map_const_seq {A} (c : A) (k : nat) (f : nat -> A) :
  (forall j, f j = c) -> map f (seq 0 k) = repeat c k.
Proof.
  intros H. generalize O. induction k as [|k IH]; intros s; simpl; auto.
  now rewrite H, IH.
Qed.

(** X21: [run_std_bootstrap] refuses a negative [n_simulate] with a ValueError;
    with [n_simulate = 0] it resamples nothing and returns NaN for every
    estimator, whatever the run; with [n_simulate = 1] it returns NaN for
    every estimator when its one resample is evaluated. *)
Theorem run_std_bootstrap_few_replicates (ns_run : ns_run_t)
    (estimator_list : list estimator_t) (g : rng) :
  (forall n_simulate,
      (n_simulate < 0)%Z ->
      run_std_bootstrap ns_run estimator_list n_simulate g =
      (Raise ValueError, g)) /\
  run_std_bootstrap ns_run estimator_list 0 g =
  (Ok (repeat NaN (length estimator_list)), g) /\
  (forall ns_run_temp col g1 g2,
      bootstrap_resample_run ns_run true g = (Ok ns_run_temp, g1) ->
      run_estimators ns_run_temp estimator_list false g1 = (Ok col, g2) ->
      run_std_bootstrap ns_run estimator_list 1 g =
      (Ok (repeat NaN (length estimator_list)), g2)).
Proof.
  split; [|split].
  - intros n Hn. unfold run_std_bootstrap, bootstrap_values, bind.
    replace (n <? 0)%Z with true by (symmetry; apply Z.ltb_lt; exact Hn).
    reflexivity.
  - unfold run_std_bootstrap, bootstrap_values, bind.
    cbn [Z.ltb Z.compare Z.to_nat repeat_M]. unfold ret.
    do 2 f_equal. apply map_const_seq. intros j. apply np_std_ddof1_nil.
  - intros tmp col g1 g2 Hb He.
    unfold run_std_bootstrap, bootstrap_values.
    change (1 <? 0)%Z with false. change (Z.to_nat 1) with 1%nat.
    cbn [repeat_M]. unfold bind, ret. rewrite Hb, He.
    do 2 f_equal. apply map_const_seq. intros j. apply np_std_ddof1_single.
Qed.

Lemma run_std_bootstrap_few_replicates_witness :
  let g := mk_rng (fun k => k) (fun _ => 0) O in
  exists g2,
    run_std_bootstrap two_thread_run [first_weight] 1 g =
    (Ok (repeat NaN 1), g2).
Proof.
  intros g.
  destruct (two_thread_run_estimators [first_weight]
              (advance 1 (advance 1 g))) as [col E].
  exists (advance 1 (advance 1 g)).
  exact (proj2 (proj2 (run_std_bootstrap_few_replicates two_thread_run
                         [first_weight] g))
               two_thread_run col _ _ (two_thread_run_resample g) E).
Defined.

(** X22: [run_std_simulate] on a run whose samples and live counts are found:
    with [n_simulate = 0] it returns NaN for every estimator and an empty
    matrix without drawing; with [n_simulate = 1] it returns NaN for every
    estimator, next to the values of the one simulation. *)
Theorem run_std_simulate_few_simulations (ns_run : ns_run_t)
    (estimator_list : list estimator_t) (g : rng)
    (lrxp : list sample_row) (nl : list npfloat) :
  merge_lrxp (threads ns_run) = Some lrxp ->
  get_nlive ns_run (map row_logl lrxp) = Ok nl ->
  run_std_simulate ns_run estimator_list 0 g =
  (Ok (repeat NaN (length estimator_list), []), g) /\
  (forall logw g1,
      get_logw (map row_logl lrxp) nl true g = (Ok logw, g1) ->
      run_std_simulate ns_run estimator_list 1 g =
      (Ok (repeat NaN (length estimator_list),
           [get_estimators lrxp logw estimator_list]), g1)).
Proof.
  intros Hm Hn. unfold run_std_simulate. rewrite Hm.
  change (0 <? 0)%Z with false. change (1 <? 0)%Z with false.
  change (Z.to_nat 0) with 0%nat. change (Z.to_nat 1) with 1%nat.
  cbn [repeat_M].
  split.
  - unfold bind, lift, ret. rewrite Hn.
    do 3 f_equal. apply map_const_seq. intros j. apply np_std_ddof1_nil.
  - intros logw g1 Hw. unfold bind, lift, ret. rewrite Hn, Hw.
    do 3 f_equal. apply map_const_seq. intros j. apply np_std_ddof1_single.
Qed.

Lemma run_std_simulate_few_simulations_witness :
  let ns_run :=
    mk_run [Some [mk_row (Fin 1) (Fin 0) (Fin 0) []]] None (Some [Fin 1])
           (mk_settings None 1 1) in
  let g := mk_rng (fun k => k) (fun _ => 0) O in
  run_std_simulate ns_run [first_weight] 0 g = (Ok (repeat NaN 1, []), g).
Proof.
  intros ns_run g.
  refine (proj1 (run_std_simulate_few_simulations ns_run [first_weight] g
                   [mk_row (Fin 1) (Fin 0) (Fin 0) []] [Fin 1] eq_refl _)).
  apply (get_nlive_check ns_run _ [Fin 1] eq_refl). split.
  - discriminate.
  - repeat constructor. apply Rltb_lt. lra.
Defined.

(* ------------------------------------------------------------------ *)
(** ** bootstrap_resample_run: the plain draw, and what every resample
       keeps *)

(** X23: without a dynamic goal, or with [sample_ninit_sep=False], a run with
    at least one thread and one interval record per thread is resampled by
    [n_threads] draws from all the slots [0 .. n_threads - 1]; threads and
    interval records are taken at the same indices. *)
Theorem bootstrap_resample_run_plain (ns_run : ns_run_t)
    (lmm_ar : list lmm_row) (sep : bool) (g : rng) :
  let n := length (threads ns_run) in
  let inds := draws 0 (Z.of_nat n) n g in
  dynamic_goal (settings ns_run) = None \/ sep = false ->
  thread_logl_min_max ns_run = Some lmm_ar ->
  length lmm_ar = n -> threads ns_run <> [] ->
  all_within 0 (Z.of_nat n) inds /\ length inds = n /\
  bootstrap_resample_run ns_run sep g =
  (Ok (mk_run (take None (threads ns_run) inds)
              (Some (take absent_lmm lmm_ar inds))
              None (settings ns_run)),
   advance n g).
Proof.
  intros n inds Hbranch Hlmm Hlen Hne.
  assert (Hn : (0 < Z.of_nat n)%Z).
  { unfold n. destruct (threads ns_run); [congruence | simpl; lia]. }
  assert (Hw : all_within 0 (Z.of_nat n) inds) by (apply draws_within; lia).
  split; [exact Hw|]. split; [apply length_draws|].
  rewrite (bootstrap_resample_with_inds ns_run sep inds g (advance n g)).
  - rewrite Hlmm. rewrite (sequence_getitem absent_lmm); [reflexivity|].
    rewrite Hlen. exact Hw.
  - replace (match dynamic_goal (settings ns_run) with
             | Some _ => sep
             | None => false
             end) with false.
    + fold n. rewrite np_random_randint_ok by lia. now rewrite Nat2Z.id.
    + destruct Hbranch as [-> | ->]; [reflexivity|].
      destruct (dynamic_goal (settings ns_run)); reflexivity.
  - exact Hw.
Qed.

Lemma bootstrap_resample_run_plain_witness :
  let t0 := Some [mk_row (Fin 1) (Fin 0) (Fin 0) []] in
  let t1 := Some [mk_row (Fin 2) (Fin 0) (Fin 0) []] in
  let lmm_ar := [mk_lmm NaN (Fin 1) (Fin 1); mk_lmm NaN (Fin 2) (Fin 1)] in
  let ns_run := mk_run [t0; t1] (Some lmm_ar) None (mk_settings None 2 2) in
  let g := mk_rng (fun k => 1%nat) (fun _ => 0) O in
  bootstrap_resample_run ns_run true g =
  (Ok (mk_run [t1; t1]
              (Some [mk_lmm NaN (Fin 2) (Fin 1); mk_lmm NaN (Fin 2) (Fin 1)])
              None (settings ns_run)),
   advance 2 g).
Proof.
  intros t0 t1 lmm_ar ns_run g.
  assert (Hne : threads ns_run <> []) by discriminate.
  exact (proj2 (proj2 (bootstrap_resample_run_plain ns_run lmm_ar true g
                         (or_introl eq_refl) eq_refl eq_refl Hne))).
Defined.

Lemma sequence_getitem_In {A} (l : list A) (inds : list Z) (xs : list A) :
  sequence (map (getitem l) inds) = Ok xs ->
  length xs = length inds /\ Forall (fun x => In x l) xs.
Proof.
  revert xs; induction inds as [|i inds IH]; intros xs; simpl.
  - intros E; inversion E; subst. split; [reflexivity | constructor].
  - unfold getitem at 1.
    destruct (norm_index (length l) i) as [k|]; [|discriminate].
    destruct (nth_error l k) as [x|] eqn:Ex; [|discriminate].
    cbn [rbind].
    destruct (sequence (map (getitem l) inds)) as [ys|e]; [|discriminate].
    cbn [rbind]. intros E; inversion E; subst.
    destruct (IH ys eq_refl) as [Hl Hall].
    split; [simpl; now rewrite Hl|].
    constructor; [eapply nth_error_In; exact Ex | exact Hall].
Qed.

Lemma take_In {A} (d : A) (l : list A) (inds : list Z) :
  all_within 0 (Z.of_nat (length l)) inds ->
  Forall (fun x => In x l) (take d l inds).
Proof.
  intros H. unfold take. apply Forall_map.
  eapply Forall_impl; [|exact H].
  intros i Hi. simpl in Hi. apply nth_In. lia.
Qed.

Lemma bootstrap_resample_kept (ns_run ns_run_temp : ns_run_t)
    (inds : list Z) (g1 g' : rng) :
  all_within 0 (Z.of_nat (length (threads ns_run))) inds ->
  length inds = length (threads ns_run) ->
  match thread_logl_min_max ns_run with
  | None => (Raise (KeyError "thread_logl_min_max"), g1)
  | Some lmm_ar =>
      match sequence (map (getitem lmm_ar) inds) with
      | Ok logl_min_max_temp =>
          (Ok (mk_run (take None (threads ns_run) inds)
                      (Some logl_min_max_temp) None (settings ns_run)), g1)
      | Raise e => (Raise e, g1)
      end
  end = (Ok ns_run_temp, g') ->
  g' = g1 /\
  length (threads ns_run_temp) = length (threads ns_run) /\
  Forall (fun t => In t (threads ns_run)) (threads ns_run_temp) /\
  (exists lmm_ar lmm_temp,
      thread_logl_min_max ns_run = Some lmm_ar /\
      thread_logl_min_max ns_run_temp = Some lmm_temp /\
      length lmm_temp = length (threads ns_run) /\
      Forall (fun r => In r lmm_ar) lmm_temp) /\
  nlive_array ns_run_temp = None /\
  settings ns_run_temp = settings ns_run.
Proof.
  intros Hw Hl H.
  destruct (thread_logl_min_max ns_run) as [lmm_ar|]; [|discriminate].
  destruct (sequence (map (getitem lmm_ar) inds)) as [tmp|e] eqn:Es;
    [|discriminate].
  inversion H; subst. cbn.
  destruct (sequence_getitem_In _ _ _ Es) as [Hl2 Hin].
  split; [reflexivity|].
  split; [unfold take; now rewrite length_map|].
  split; [apply take_In; exact Hw|].
  split; [|split; reflexivity].
  exists lmm_ar, tmp. repeat split; auto. lia.
Qed.

(** X24: whenever [bootstrap_resample_run] returns a run, on either branch: the
    run has as many threads as the original, each of them a thread of the
    original, and as many interval records, each of them a record of the
    original; it has the settings of the original and no key
    ['nlive_array'], also when the original had one; and one random integer
    per thread was drawn. *)
Theorem bootstrap_resample_run_keeps (ns_run ns_run_temp : ns_run_t)
    (sep : bool) (g g' : rng) :
  bootstrap_resample_run ns_run sep g = (Ok ns_run_temp, g') ->
  consumed g' = (consumed g + length (threads ns_run))%nat /\
  length (threads ns_run_temp) = length (threads ns_run) /\
  Forall (fun t => In t (threads ns_run)) (threads ns_run_temp) /\
  (exists lmm_ar lmm_temp,
      thread_logl_min_max ns_run = Some lmm_ar /\
      thread_logl_min_max ns_run_temp = Some lmm_temp /\
      length lmm_temp = length (threads ns_run) /\
      Forall (fun r => In r lmm_ar) lmm_temp) /\
  nlive_array ns_run_temp = None /\
  settings ns_run_temp = settings ns_run.
Proof.
  set (n := Z.of_nat (length (threads ns_run))).
  set (ninit := nlive_1 (settings ns_run)).
  intros H.
  destruct (match dynamic_goal (settings ns_run) with
            | Some _ => sep
            | None => false
            end) eqn:Hb.
  - destruct (Z_lt_le_dec 0 ninit) as [H0|H0];
      [destruct (Z_lt_le_dec ninit n) as [H1|H1]|].
    + assert (Hw : all_within 0 n
                     (draws 0 ninit (Z.to_nat ninit) g ++
                      draws ninit n (Z.to_nat (n - ninit))
                            (advance (Z.to_nat ninit) g))).
      { apply all_within_app;
          [apply (all_within_weaken 0 ninit)
          | apply (all_within_weaken ninit n)];
          try apply draws_within; lia. }
      rewrite (bootstrap_resample_with_inds ns_run sep _ g
                 (advance (Z.to_nat (n - ninit))
                          (advance (Z.to_nat ninit) g))
                 ltac:(rewrite Hb; apply stratified_inds; fold n ninit; lia)
                 Hw) in H.
      destruct (bootstrap_resample_kept _ _ _ _ _ Hw
                  ltac:(rewrite length_app, !length_draws; unfold n; lia) H)
        as [-> K].
      split; [simpl; unfold n; lia | exact K].
    + exfalso. unfold bootstrap_resample_run in H. rewrite Hb in H.
      fold n ninit in H. unfold bind in H.
      rewrite np_random_randint_ok in H by lia.
      rewrite np_random_randint_error in H by lia. discriminate.
    + exfalso. unfold bootstrap_resample_run in H. rewrite Hb in H.
      fold n ninit in H. unfold bind in H.
      rewrite np_random_randint_error in H by lia. discriminate.
  - destruct (Z_lt_le_dec 0 n) as [H0|H0].
    + assert (Hw : all_within 0 n (draws 0 n (Z.to_nat n) g))
        by (apply draws_within; lia).
      rewrite (bootstrap_resample_with_inds ns_run sep _ g
                 (advance (Z.to_nat n) g)
                 ltac:(rewrite Hb; fold n; apply np_random_randint_ok; lia)
                 Hw) in H.
      destruct (bootstrap_resample_kept _ _ _ _ _ Hw
                  ltac:(rewrite length_draws; unfold n; lia) H)
        as [-> K].
      split; [simpl; unfold n; lia | exact K].
    + exfalso. unfold bootstrap_resample_run in H. rewrite Hb in H.
      fold n in H. unfold bind in H.
      rewrite np_random_randint_error in H by lia. discriminate.
Qed.

Lemma bootstrap_resample_run_keeps_witness :
  let g := mk_rng (fun k => k) (fun _ => 0) O in
  consumed (advance 1 (advance 1 g)) =
  (consumed g + length (threads two_thread_run))%nat /\
  nlive_array two_thread_run = None.
Proof.
  intros g.
  destruct (bootstrap_resample_run_keeps two_thread_run two_thread_run true
              g (advance 1 (advance 1 g)) (two_thread_run_resample g))
    as [H1 [_ [_ [_ [H2 _]]]]].
  split; [exact H1 | exact H2].
Defined.

(* ------------------------------------------------------------------ *)
(** ** logl_mm_array *)

Lemma logl_mm_array_row (logl_mm : list npfloat) :
  (row <- assign_slice [Fin 0; Fin 0; Fin 1] 0
                       (Nat.min (length logl_mm) 3) logl_mm ;;
   Ok (lmm_of_row row))%res =
  if (length logl_mm <=? 3)%nat then Ok (padded_record logl_mm)
  else Raise ValueError.
Proof.
  destruct logl_mm as [|a [|b [|c [|d rest]]]]; reflexivity.
Qed.

(** X25: [logl_mm_array] turns every entry of at most three elements into a
    record, an entry [[logl_min, logl_max]] getting the multiplicity 1, and
    raises a ValueError as soon as one entry has more than three
    elements. *)
Theorem logl_mm_array_records (logl_mm_list : list (list npfloat)) :
  (Forall (fun e => (length e <= 3)%nat) logl_mm_list ->
   logl_mm_array logl_mm_list = Ok (map padded_record logl_mm_list)) /\
  (Exists (fun e => (3 < length e)%nat) logl_mm_list ->
   logl_mm_array logl_mm_list = Raise ValueError) /\
  (forall a b, padded_record [a; b] = mk_lmm a b (Fin 1)).
Proof.
  unfold logl_mm_array. split; [|split].
  - induction 1 as [|e l He _ IH]; [reflexivity|].
    cbn [map sequence]. rewrite logl_mm_array_row.
    replace (length e <=? 3)%nat with true
      by (symmetry; apply Nat.leb_le; exact He).
    cbn [rbind]. rewrite IH. reflexivity.
  - induction logl_mm_list as [|e l IH]; intros H; [inversion H|].
    cbn [map sequence]. rewrite logl_mm_array_row.
    destruct (length e <=? 3)%nat eqn:E; [|reflexivity].
    cbn [rbind]. rewrite IH; [reflexivity|].
    inversion H as [? ? He|]; subst; [|assumption].
    apply Nat.leb_le in E. lia.
  - reflexivity.
Qed.

Lemma logl_mm_array_records_witness :
  logl_mm_array [[NaN; Fin 1]; [Fin 1; NaN; Fin 3]] =
  Ok [mk_lmm NaN (Fin 1) (Fin 1); mk_lmm (Fin 1) NaN (Fin 3)] /\
  logl_mm_array [[NaN; Fin 1]; [Fin 1; Fin 2; Fin 3; Fin 4]] =
  Raise ValueError.
Proof.
  split.
  - apply (proj1 (logl_mm_array_records
                    [[NaN; Fin 1]; [Fin 1; NaN; Fin 3]])).
    repeat constructor.
  - apply (proj1 (proj2 (logl_mm_array_records
                           [[NaN; Fin 1]; [Fin 1; Fin 2; Fin 3; Fin 4]]))).
    apply Exists_cons_tl, Exists_cons_hd. simpl. lia.
Defined.

Lemma sum_unit_multiplicities (rs : list lmm_row) :
  Forall (fun r => multiplicity r = Fin 1) rs ->
  sum (map multiplicity rs) = Fin (INR (length rs)).
Proof.
  induction 1 as [|r rs Hr _ IH]; [reflexivity|].
  cbn [map length]. rewrite sum_cons, Hr, IH, add_Fin, S_INR.
  f_equal. lra.
Qed.

Lemma stabbing_sum_counts (lmm_ar : list lmm_row) (L : npfloat) :
  Forall (fun r => multiplicity r = Fin 1) lmm_ar ->
  stabbing_sum lmm_ar L = Fin (INR (threads_alive lmm_ar L)).
Proof.
  intros H. unfold stabbing_sum, threads_alive.
  apply sum_unit_multiplicities.
  apply Forall_forall. intros r Hr. apply filter_In in Hr.
  rewrite Forall_forall in H. apply H. tauto.
Qed.

(** X26: when the interval records come from [logl_mm_array] on entries
    [[logl_min, logl_max]], the live count [get_nlive] finds at a sample is
    the number of threads whose interval contains the sample; [get_nlive]
    returns these counts when no thread has both bounds NaN and every
    sample is in the interval of a thread. *)
Theorem get_nlive_counts_threads (run_dict : ns_run_t)
    (logl_mm_list : list (list npfloat)) (lmm_ar : list lmm_row)
    (logl : list npfloat) :
  nlive_array run_dict = None ->
  Forall (fun e => length e = 2%nat) logl_mm_list ->
  logl_mm_array logl_mm_list = Ok lmm_ar ->
  thread_logl_min_max run_dict = Some lmm_ar ->
  (forall a, get_nlive run_dict logl = Ok a ->
             a = map (fun L => Fin (INR (threads_alive lmm_ar L))) logl) /\
  (logl <> [] -> no_unbounded_record lmm_ar ->
   Forall (fun L => (1 <= threads_alive lmm_ar L)%nat) logl ->
   get_nlive run_dict logl =
   Ok (map (fun L => Fin (INR (threads_alive lmm_ar L))) logl)).
Proof.
  intros H1 H2 H3 H4.
  assert (Hunit : Forall (fun r => multiplicity r = Fin 1) lmm_ar).
  { assert (E : logl_mm_array logl_mm_list =
                Ok (map padded_record logl_mm_list)).
    { unfold logl_mm_array. clear H3.
      induction H2 as [|e l He _ IH]; [reflexivity|].
      cbn [map sequence]. rewrite logl_mm_array_row, He.
      cbn [Nat.leb rbind]. rewrite IH. reflexivity. }
    rewrite E in H3. inversion H3; subst.
    apply Forall_map. eapply Forall_impl; [|exact H2].
    intros [|a [|b [|c e]]] He; try discriminate. reflexivity. }
  assert (Emap : map (stabbing_sum lmm_ar) logl =
                 map (fun L => Fin (INR (threads_alive lmm_ar L))) logl).
  { apply map_ext. intros L. apply stabbing_sum_counts. exact Hunit. }
  split.
  - intros a Ha.
    destruct (get_nlive_dynamic_inv _ _ _ _ H1 H4 Ha) as [-> _]. exact Emap.
  - intros Hne Hnu Hall. rewrite <- Emap.
    apply get_nlive_dynamic_returns; auto.
    eapply Forall_impl; [|exact Hall].
    intros L HL. cbv beta in HL.
    rewrite stabbing_sum_counts by exact Hunit.
    apply Rltb_lt. apply lt_0_INR. lia.
Qed.

Lemma get_nlive_counts_threads_witness :
  let lmm_ar := [mk_lmm NaN (Fin 2) (Fin 1); mk_lmm NaN (Fin 1) (Fin 1)] in
  let run_dict := mk_run [] (Some lmm_ar) None (mk_settings (Some 1) 0 2) in
  let logl := [Fin 0; Fin 2] in
  get_nlive run_dict logl =
  Ok (map (fun L => Fin (INR (threads_alive lmm_ar L))) logl).
Proof.
  intros lmm_ar run_dict logl.
  refine (proj2 (get_nlive_counts_threads run_dict
                   [[NaN; Fin 2]; [NaN; Fin 1]] lmm_ar logl eq_refl _ eq_refl
                   eq_refl) _ _ _).
  - repeat constructor.
  - discriminate.
  - repeat constructor.
  - repeat constructor;
      unfold threads_alive, lmm_ar, interval_contains; simpl; Rbool;
      simpl; lia.
Defined.

(* ------------------------------------------------------------------ *)
(** ** run_estimators on a standard run *)

Lemma standard_nlive_positive_finite (k N : nat) :
  (1 <= k)%nat -> Forall positive_finite (standard_nlive k N).
Proof.
  intros Hk. unfold standard_nlive. apply Forall_map, Forall_forall.
  intros j Hj. apply in_seq in Hj.
  destruct (j + k <=? N)%nat; eexists; (split; [reflexivity|]);
    apply lt_0_INR; lia.
Qed.

Lemma length_standard_nlive (k N : nat) : length (standard_nlive k N) = N.
Proof. unfold standard_nlive. now rewrite length_map, length_seq. Qed.

(** X27: on a standard run with at least two samples in its threads, all of
    finite log-likelihood, and [1 <= nlive <= number of samples + 1],
    [run_estimators] without simulation returns and draws nothing: the
    estimators are applied to the merged samples and to weights that are
    all finite. *)
Theorem run_estimators_standard_run (ns_run : ns_run_t)
    (estimator_list : list estimator_t) (g : rng) :
  let rows := present_rows (threads ns_run) in
  nlive_array ns_run = None ->
  thread_logl_min_max ns_run = None ->
  dynamic_goal (settings ns_run) = None ->
  (2 <= length rows)%nat ->
  (1 <= nlive (settings ns_run) <= Z.of_nat (length rows) + 1)%Z ->
  Forall (fun row => finite (row_logl row)) rows ->
  exists lrxp logw,
    merge_lrxp (threads ns_run) = Some lrxp /\
    Forall finite logw /\ length logw = length rows /\
    run_estimators ns_run estimator_list false g =
    (Ok (get_estimators lrxp logw estimator_list), g).
Proof.
  intros rows H1 H2 H3 Hlen Hnl Hfin.
  set (lrxp := sort_by row_logl rows).
  assert (Hm : merge_lrxp (threads ns_run) = Some lrxp).
  { rewrite merge_lrxp_eq.
    destruct (existsb is_present (threads ns_run)) eqn:E; [reflexivity|].
    exfalso.
    assert (Hnil : rows = []).
    { apply present_rows_absent. apply Forall_forall. intros t Hin.
      destruct t as [a|]; [|reflexivity].
      assert (existsb is_present (threads ns_run) = true)
        by (apply existsb_exists; exists (Some a); auto).
      congruence. }
    rewrite Hnil in Hlen. simpl in Hlen. lia. }
  assert (Hl : length (map row_logl lrxp) = length rows)
    by (unfold lrxp; now rewrite length_map, length_sort_by).
  assert (Hf : Forall finite (map row_logl lrxp)).
  { apply Forall_map. unfold lrxp.
    eapply Permutation_Forall; [|exact Hfin].
    apply Permutation_sym, sort_by_perm. }
  assert (Hne : map row_logl lrxp <> []).
  { intros E. rewrite E in Hl. simpl in Hl. lia. }
  assert (En : nlive_of_run ns_run (map row_logl lrxp) =
               Ok (standard_nlive (Z.to_nat (nlive (settings ns_run)))
                                  (length rows))).
  { unfold nlive_of_run. rewrite H1, H2, H3. cbn [assert rbind].
    rewrite Hl. rewrite ramp_fold by lia.
    rewrite <- (Z2Nat.id (nlive (settings ns_run))) at 1 by lia.
    rewrite ramp_after_standard by lia. reflexivity. }
  assert (Eg : get_nlive ns_run (map row_logl lrxp) =
               Ok (standard_nlive (Z.to_nat (nlive (settings ns_run)))
                                  (length rows))).
  { apply (get_nlive_check _ _ _ En). split.
    - intros C. apply (f_equal (@length _)) in C.
      rewrite length_standard_nlive in C. simpl in C. lia.
    - apply standard_nlive_positive. lia. }
  destruct (get_logw_finite_weights (map row_logl lrxp)
              (standard_nlive (Z.to_nat (nlive (settings ns_run)))
                              (length rows)) g)
    as [logw [Ew [Hlw Hfw]]].
  - rewrite Hl. exact Hlen.
  - rewrite length_standard_nlive. now rewrite Hl.
  - apply standard_nlive_positive_finite. lia.
  - exact Hf.
  - exists lrxp, logw. split; [exact Hm|]. split; [exact Hfw|].
    split; [now rewrite Hlw|].
    unfold run_estimators. rewrite Hm. unfold bind, lift, ret.
    rewrite Eg, Ew. reflexivity.
Qed.

Lemma run_estimators_standard_run_witness :
  let ns_run :=
    mk_run [Some [mk_row (Fin 1) (Fin 0) (Fin 0) []]; None;
            Some [mk_row (Fin 0) (Fin 0) (Fin 0) []]]
           None None (mk_settings None 2 2) in
  let g := mk_rng (fun k => k) (fun _ => 0) O in
  exists lrxp logw,
    Forall finite logw /\
    run_estimators ns_run [first_weight] false g =
    (Ok (get_estimators lrxp logw [first_weight]), g).
Proof.
  intros ns_run g.
  assert (Hlen : (2 <= length (present_rows (threads ns_run)))%nat)
    by (simpl; lia).
  assert (Hnl : (1 <= nlive (settings ns_run)
                 <= Z.of_nat (length (present_rows (threads ns_run))) + 1)%Z)
    by (simpl; lia).
  assert (Hfin : Forall (fun row => finite (row_logl row))
                        (present_rows (threads ns_run)))
    by (repeat constructor).
  destruct (run_estimators_standard_run ns_run [first_weight] g
              eq_refl eq_refl eq_refl Hlen Hnl Hfin)
    as [lrxp [logw [_ [H1 [_ H2]]]]].
  exists lrxp, logw. split; assumption.
Defined.

(* ================================================================== *)
(** * The confidence interval of run_ci_bootstrap *)

(* ------------------------------------------------------------------ *)
(** ** Binary64: what a passing assertion says *)

Lemma shr_1_nonneg (mrs : shr_record) :
  (0 <= shr_m mrs)%Z -> (0 <= shr_m (shr_1 mrs))%Z.
Proof.
  destruct mrs as [m r s]. destruct m as [|[p|p|]|p]; simpl; lia.
Qed.

Lemma iter_shr_1_nonneg (p : BinNums.positive) (mrs : shr_record) :
  (0 <= shr_m mrs)%Z -> (0 <= shr_m (iter_pos shr_1 p mrs))%Z.
Proof.
  revert mrs. induction p as [p IH|p IH|]; intros mrs H; simpl.
  - apply IH, IH, shr_1_nonneg, H.
  - apply IH, IH, H.
  - apply shr_1_nonneg, H.
Qed.

Lemma shr_fexp_nonneg (m e : Z) (l : location) :
  (0 <= m)%Z -> (0 <= shr_m (fst (shr_fexp prec emax m e l)))%Z.
Proof.
  intros H. unfold shr_fexp, shr.
  assert (H0 : (0 <= shr_m (shr_record_of_loc m l))%Z)
    by (destruct l as [|[]]; exact H).
  destruct (_ - e)%Z; simpl; auto. apply iter_shr_1_nonneg, H0.
Qed.

Lemma binary_round_aux_not_nan (sx : bool) (mx ex : Z) (lx : location) :
  (0 <= mx)%Z -> binary_round_aux prec emax sx mx ex lx <> S754_nan.
Proof.
  intros H. unfold binary_round_aux.
  pose proof (shr_fexp_nonneg mx ex lx H) as H1.
  destruct (shr_fexp prec emax mx ex lx) as [mrs' e']. simpl in H1.
  assert (H2 : (0 <= round_nearest_even (shr_m mrs')
                                        (loc_of_shr_record mrs'))%Z).
  { unfold round_nearest_even.
    destruct (loc_of_shr_record mrs') as [|[]]; try lia.
    destruct (Z.even (shr_m mrs')); lia. }
  pose proof (shr_fexp_nonneg _ e' loc_Exact H2) as H3.
  destruct (shr_fexp prec emax _ e' loc_Exact) as [mrs'' e'']. simpl in H3.
  destruct (shr_m mrs''); try discriminate; [|lia].
  destruct (_ <=? _)%Z; discriminate.
Qed.

Lemma binary_normalize_not_nan (m e : Z) (szero : bool) :
  binary_normalize prec emax m e szero <> S754_nan.
Proof.
  unfold binary_normalize, binary_round. destruct m; [discriminate| |];
    destruct (shl_align _ _ _); apply binary_round_aux_not_nan; lia.
Qed.

Lemma sub_one_not_nan (c : float) :
  Prim2SF c <> S754_nan -> Prim2SF (1 - c)%float <> S754_nan.
Proof.
  intros H. rewrite sub_spec.
  change (Prim2SF 1) with (S754_finite false 4503599627370496 (-52)).
  destruct (Prim2SF c) as [s|s| |s m e]; try discriminate; [congruence|].
  unfold SF64sub, SFsub. apply binary_normalize_not_nan.
Qed.

Lemma guard_not_nan (c n : float) :
  (1 <? py_min c (1 - c) * n)%float = true -> Prim2SF c <> S754_nan.
Proof.
  intros Hg Hc. rewrite ltb_spec, mul_spec in Hg.
  assert (E : Prim2SF (py_min c (1 - c)) = S754_nan).
  { unfold py_min. rewrite ltb_spec, sub_spec, Hc.
    change (Prim2SF 1) with (S754_finite false 4503599627370496 (-52)).
    simpl. exact Hc. }
  rewrite E in Hg. simpl in Hg.
  change (Prim2SF 1) with (S754_finite false 4503599627370496 (-52)) in Hg.
  discriminate.
Qed.

Lemma guard_not_zero (c : float) :
  (1 <? py_min c (1 - c) * 0)%float = false.
Proof.
  rewrite ltb_spec, mul_spec.
  change (Prim2SF 0) with (S754_zero false).
  change (Prim2SF 1) with (S754_finite false 4503599627370496 (-52)).
  destruct (Prim2SF (py_min c (1 - c))) as [s|s| |s m e]; reflexivity.
Qed.

(** When the assertion passes there is at least one simulation to make,
    unless their number is negative, and [1. - cred_int] is a number. *)
Lemma guard_passes_facts (n_simulate : Z) (cred_int : float) :
  guard_passes n_simulate cred_int ->
  n_simulate <> 0%Z /\ isnan (float_value (1 - cred_int)%float) = false.
Proof.
  intros [n [En Hg]]. split.
  - intros ->. change (float_of_int 0) with (Ok 0%float) in En.
    injection En as <-. rewrite guard_not_zero in Hg. discriminate.
  - pose proof (sub_one_not_nan cred_int (guard_not_nan _ _ Hg)) as H.
    unfold float_value.
    destruct (Prim2SF (1 - cred_int)%float) as [s|[|]| |s m e];
      try reflexivity.
    congruence.
Qed.

(* ------------------------------------------------------------------ *)
(** ** np.interp over the grid *)

Lemma interp_from_step (x x0 x1 f0 f1 : npfloat) (xp fp : list npfloat) :
  interp_from x (x0 :: x1 :: xp) (f0 :: f1 :: fp) =
  if lt x x1 then add (mul (div (sub f1 f0) (sub x1 x0)) (sub x x0)) f0
  else interp_from x (x1 :: xp) (f1 :: fp).
Proof. reflexivity. Qed.

Lemma lt_false_le (x : npfloat) (b : R) :
  isnan x = false -> lt x (Fin b) = false -> le (Fin b) x = true.
Proof.
  destruct x as [| | |v]; simpl; try discriminate; auto.
  intros _ H. apply Rltb_ge in H. apply Rleb_le. exact H.
Qed.

Lemma le_lt_between (x : npfloat) (a b : R) :
  le (Fin a) x = true -> lt x (Fin b) = true ->
  exists v, x = Fin v /\ a <= v < b.
Proof.
  destruct x as [| | |v]; simpl; try discriminate.
  intros H1 H2. apply Rleb_le in H1. apply Rltb_lt in H2.
  exists v. split; [reflexivity | lra].
Qed.

Lemma interp_from_within (lo hi : R) (x : npfloat) (xp : list npfloat) :
  isnan x = false ->
  Forall finite xp ->
  Sorted (fun a b => lt a b = true) xp ->
  forall fp : list npfloat,
    Sorted (fun a b => sort_le a b = true) fp ->
    Forall (within lo hi) fp -> fp <> [] ->
    le (hd NaN xp) x = true ->
    within lo hi (interp_from x xp fp).
Proof.
  intros Hx Hfin Hsort.
  induction Hsort as [|x0 xp Hs IH Hhd]; intros fp Hfs Hfw Hne Hle.
  - discriminate Hle.
  - destruct fp as [|f0 fp]; [congruence|].
    inversion Hfw as [|? ? Hf0 Hfw']; subst.
    destruct xp as [|x1 xp]; [destruct fp; exact Hf0|].
    destruct fp as [|f1 fp]; [exact Hf0|].
    inversion Hfin as [|? ? Hx0 Hfin']; subst.
    inversion Hfin' as [|? ? Hx1 _]; subst.
    inversion Hhd as [|? ? H01]; subst.
    inversion Hfs as [|? ? Hfs' Hf01]; subst.
    inversion Hf01 as [|? ? Hu]; subst.
    inversion Hfw' as [|? ? Hf1 _]; subst.
    destruct x0 as [| | |a]; try discriminate Hx0.
    destruct x1 as [| | |b]; try discriminate Hx1.
    destruct f0 as [| | |u]; try contradiction.
    destruct f1 as [| | |v]; try contradiction.
    cbn [hd] in Hle. simpl in H01, Hu, Hf0, Hf1.
    apply Rltb_lt in H01. apply Rleb_le in Hu.
    rewrite interp_from_step.
    destruct (lt x (Fin b)) eqn:E.
    + destruct (le_lt_between x a b Hle E) as [w [-> Hw]].
      rewrite !sub_Fin, div_Fin_nonzero, mul_Fin, add_Fin by lra.
      simpl.
      assert (Ht : 0 <= (w - a) / (b - a) <= 1).
      { split.
        - apply Rmult_le_pos; [lra|].
          left. apply Rinv_0_lt_compat. lra.
        - apply Rmult_le_reg_r with (b - a); [lra|].
          unfold Rdiv. rewrite Rmult_assoc, Rinv_l by lra. lra. }
      replace ((v - u) / (b - a) * (w - a) + u)
        with (u + (v - u) * ((w - a) / (b - a))) by (field; lra).
      set (t := (w - a) / (b - a)) in *.
      assert (0 <= (v - u) * t) by (apply Rmult_le_pos; lra).
      assert (0 <= (v - u) * (1 - t)) by (apply Rmult_le_pos; lra).
      lra.
    + apply IH; [exact Hfin' | exact Hfs' | exact Hfw' | discriminate|].
      apply lt_false_le; assumption.
Qed.

Lemma np_interp_within (lo hi : R) (x : npfloat) (xp fp : list npfloat) :
  isnan x = false ->
  xp <> [] -> length xp = length fp ->
  Forall finite xp -> Sorted (fun a b => lt a b = true) xp ->
  Sorted (fun a b => sort_le a b = true) fp ->
  Forall (within lo hi) fp ->
  exists q, np_interp x xp fp = Ok q /\ within lo hi q.
Proof.
  intros Hx Hne Hlen Hfin Hsort Hfs Hfw. unfold np_interp.
  destruct xp as [|x0 xp]; [congruence|].
  destruct fp as [|f0 fp]; [discriminate|].
  rewrite Hlen, Nat.eqb_refl, Hx. cbn [negb].
  destruct (lt x x0) eqn:E.
  - exists f0. split; [reflexivity|]. now inversion Hfw.
  - eexists. split; [reflexivity|].
    apply interp_from_within; auto; [discriminate|].
    inversion Hfin as [|? ? Hx0 _]; subst.
    destruct x0 as [| | |a]; try discriminate Hx0.
    apply lt_false_le; assumption.
Qed.

Lemma cdf_grid_values (n : nat) :
  cdf_grid n = map (fun j => Fin (grid_point n j)) (seq 0 n).
Proof.
  unfold cdf_grid, grid_point. apply map_ext_in. intros j Hj.
  apply in_seq in Hj.
  rewrite add_Fin. apply div_Fin_nonzero. apply not_0_INR. lia.
Qed.

Lemma grid_ascending (d : R) (len s : nat) :
  0 < d ->
  Sorted (fun a b => lt a b = true)
         (map (fun j => Fin ((INR j + 1 / 2) / d)) (seq s len)).
Proof.
  intros Hd. revert s.
  induction len as [|len IH]; intros s; cbn [map seq]; constructor;
    [apply IH|].
  destruct len as [|len]; cbn [map seq]; constructor.
  cbn [lt]. apply Rltb_lt. rewrite S_INR.
  apply Rmult_lt_compat_r; [apply Rinv_0_lt_compat; exact Hd | lra].
Qed.

Lemma cdf_grid_ascending (n : nat) :
  Forall finite (cdf_grid n) /\
  Sorted (fun a b => lt a b = true) (cdf_grid n).
Proof.
  rewrite cdf_grid_values. split.
  - apply Forall_map, Forall_forall. intros; reflexivity.
  - destruct n as [|n]; [constructor|].
    apply (grid_ascending (INR (S n))). apply lt_0_INR. lia.
Qed.

(* ------------------------------------------------------------------ *)
(** ** The value run_ci_bootstrap returns *)

Lemma run_estimators_values (ns_run : ns_run_t)
    (estimator_list : list estimator_t) (simulate : bool) (g g' : rng)
    (values : list npfloat) :
  run_estimators ns_run estimator_list simulate g = (Ok values, g') ->
  exists lrxp logw,
    merge_lrxp (threads ns_run) = Some lrxp /\
    values = get_estimators lrxp logw estimator_list.
Proof.
  unfold run_estimators.
  destruct (merge_lrxp (threads ns_run)) as [lrxp|]; [|discriminate].
  unfold bind, lift, ret.
  destruct (get_nlive ns_run (map row_logl lrxp)) as [nl|e]; [|discriminate].
  destruct (get_logw (map row_logl lrxp) nl simulate g) as [[logw|e] g1];
    [|discriminate].
  intros H. injection H as <- _. exists lrxp, logw. split; reflexivity.
Qed.

Lemma run_ci_bootstrap_value (ns_run : ns_run_t)
    (estimator_list : list estimator_t) (n_simulate : Z) (cred_int : float)
    (g g1 g2 : rng) (bs_values : list (list npfloat)) (T : list npfloat) :
  guard_passes n_simulate cred_int ->
  bootstrap_values ns_run estimator_list n_simulate g = (Ok bs_values, g1) ->
  run_estimators ns_run estimator_list false g1 = (Ok T, g2) ->
  (0 < length bs_values)%nat /\
  exists ci_output,
    run_ci_bootstrap ns_run estimator_list n_simulate cred_int g =
    (Ok ci_output, g2) /\
    length ci_output = length estimator_list /\
    forall i, (i < length estimator_list)%nat ->
      exists q,
        np_interp (float_value (1 - cred_int)%float)
                  (cdf_grid (length bs_values))
                  (np_sort (matrix_row bs_values i)) = Ok q /\
        nth i ci_output NaN = sub (mul (nth i T NaN) (Fin 2)) q.
Proof.
  intros Hc Hbs HT.
  destruct (bootstrap_values_returns _ _ _ _ _ _ Hbs) as [Hn0 [Hlen Hcols]].
  pose proof (run_estimators_length _ _ _ _ _ _ HT) as HlT.
  destruct (guard_passes_facts _ _ Hc) as [Hnz _].
  assert (Hn : (0 < length bs_values)%nat) by lia.
  split; [exact Hn|].
  set (x := float_value (1 - cred_int)%float).
  set (interp_i := fun i =>
         np_interp x (cdf_grid (length bs_values))
                   (np_sort (matrix_row bs_values i))).
  assert (Hq : forall i, exists q, interp_i i = Ok q).
  { intros i. apply np_interp_returns.
    - unfold cdf_grid. destruct (length bs_values); [lia | discriminate].
    - unfold cdf_grid, np_sort, matrix_row.
      now rewrite length_sort_by, !length_map, length_seq. }
  set (value_i := fun i =>
         match interp_i i with Ok q => q | Raise _ => NaN end).
  set (ci_i := fun i => sub (nth i (map (fun e => mul e (Fin 2)) T) (Fin 0))
                            (value_i i)).
  exists (map ci_i (seq 0 (length T))).
  split; [|split].
  - destruct Hc as [n [En Hg]]. unfold run_ci_bootstrap.
    unfold bind at 1, lift at 1. rewrite En.
    unfold bind at 1, lift at 1, assert at 1. rewrite Hg.
    unfold bind at 1. rewrite Hbs.
    unfold bind at 1. rewrite HT.
    unfold lift. f_equal. rewrite length_map.
    apply sequence_all_ok. intros i _. fold x. fold (interp_i i).
    unfold ci_i, value_i. destruct (Hq i) as [q ->]. reflexivity.
  - now rewrite length_map, length_seq.
  - intros i Hi. destruct (Hq i) as [q Eq]. exists q.
    split; [exact Eq|].
    rewrite (nth_indep _ NaN (ci_i 0%nat))
      by (rewrite length_map, length_seq, HlT; exact Hi).
    rewrite (map_nth ci_i), seq_nth by (rewrite HlT; exact Hi).
    simpl Nat.add. unfold ci_i, value_i. rewrite Eq.
    f_equal.
    rewrite (nth_indep _ (Fin 0) (mul NaN (Fin 2)))
      by (rewrite length_map, HlT; exact Hi).
    apply (map_nth (fun e => mul e (Fin 2))).
Qed.

Lemma matrix_row_replicates (ns_run : ns_run_t)
    (estimator_list : list estimator_t) (n_simulate : Z) (g g1 : rng)
    (bs_values : list (list npfloat)) (i : nat) :
  bootstrap_values ns_run estimator_list n_simulate g = (Ok bs_values, g1) ->
  (i < length estimator_list)%nat ->
  matrix_row bs_values i = map (fun col => nth i col NaN) bs_values.
Proof.
  intros Hbs Hi.
  destruct (bootstrap_values_returns _ _ _ _ _ _ Hbs) as [_ [_ Hcols]].
  unfold matrix_row. apply map_ext_in. intros col Hin. apply nth_indep.
  rewrite Forall_forall in Hcols. destruct (Hcols col Hin) as [-> _].
  exact Hi.
Qed.

(** X28: when the replicates of estimator [i] are all finite and between [lo]
    and [hi], the quantile [run_ci_bootstrap] reads off them is finite and
    between [lo] and [hi]; so if the estimator on the run itself is the
    finite [t], the bound returned for it is finite and lies between
    [2 t - hi] and [2 t - lo]. *)
Theorem run_ci_bootstrap_between (ns_run : ns_run_t)
    (estimator_list : list estimator_t) (n_simulate : Z) (cred_int : float)
    (g g1 g2 : rng) (bs_values : list (list npfloat)) (T : list npfloat)
    (i : nat) (t lo hi : R) :
  guard_passes n_simulate cred_int ->
  bootstrap_values ns_run estimator_list n_simulate g = (Ok bs_values, g1) ->
  run_estimators ns_run estimator_list false g1 = (Ok T, g2) ->
  (i < length estimator_list)%nat ->
  Forall (fun col => within lo hi (nth i col NaN)) bs_values ->
  nth i T NaN = Fin t ->
  exists ci_output,
    run_ci_bootstrap ns_run estimator_list n_simulate cred_int g =
    (Ok ci_output, g2) /\
    within (2 * t - hi) (2 * t - lo) (nth i ci_output NaN).
Proof.
  intros Hc Hbs HT Hi Hw Ht.
  destruct (run_ci_bootstrap_value _ _ _ _ _ _ _ _ _ Hc Hbs HT)
    as [Hn [ci_output [Hrun [_ Hci]]]].
  exists ci_output. split; [exact Hrun|].
  destruct (Hci i Hi) as [q [Eq ->]].
  assert (Hrow : Forall (within lo hi) (matrix_row bs_values i)).
  { rewrite (matrix_row_replicates _ _ _ _ _ _ _ Hbs Hi).
    apply Forall_map. exact Hw. }
  destruct (cdf_grid_ascending (length bs_values)) as [Hgf Hgs].
  destruct (np_interp_within lo hi (float_value (1 - cred_int)%float)
              (cdf_grid (length bs_values))
              (np_sort (matrix_row bs_values i)))
    as [q' [Eq' Hq']]; auto.
  - apply (guard_passes_facts _ _ Hc).
  - unfold cdf_grid. destruct (length bs_values); [lia | discriminate].
  - unfold cdf_grid, np_sort, matrix_row.
    now rewrite length_sort_by, !length_map, length_seq.
  - unfold np_sort. apply (sort_by_sorted (fun x : npfloat => x)).
  - unfold np_sort. eapply Permutation_Forall; [|exact Hrow].
    apply Permutation_sym, sort_by_perm.
  - rewrite Eq in Eq'. injection Eq' as <-. rewrite Ht.
    destruct q as [| | |r]; try contradiction.
    simpl in *. lra.
Qed.

Lemma two_thread_run_sample_count (g : rng) :
  run_estimators two_thread_run [sample_count] false g = (Ok [Fin 2], g).
Proof.
  destruct (two_thread_run_estimators [sample_count] g) as [values E].
  destruct (run_estimators_values _ _ _ _ _ _ E) as [lrxp [logw [Hm Hv]]].
  rewrite E, Hv. f_equal. f_equal.
  rewrite merge_lrxp_eq in Hm.
  change (existsb is_present (threads two_thread_run)) with true in Hm.
  injection Hm as <-.
  unfold get_estimators, sample_count. cbn [map estimator].
  destruct (Rleb 1 2); simpl; replace (1 + 1) with 2 by lra; reflexivity.
Qed.

Lemma run_ci_bootstrap_between_witness :
  let g := mk_rng (fun k => k) (fun _ => 0) O in
  exists ci_output,
    run_ci_bootstrap two_thread_run [sample_count] 3 0.5%float g =
    (Ok ci_output, advance 6 g) /\
    within (2 * 2 - 2) (2 * 2 - 2) (nth 0 ci_output NaN).
Proof.
  intros g.
  assert (Hc : guard_passes 3 0.5%float)
    by (exists 3%float; split; reflexivity).
  assert (Hbs : bootstrap_values two_thread_run [sample_count] 3 g =
                (Ok [[Fin 2]; [Fin 2]; [Fin 2]], advance 6 g)).
  { unfold bootstrap_values. simpl. unfold bind.
    rewrite two_thread_run_resample.
    change (advance 1 (advance 1 g)) with (advance 2 g).
    rewrite two_thread_run_sample_count.
    rewrite two_thread_run_resample.
    change (advance 1 (advance 1 (advance 2 g))) with (advance 4 g).
    rewrite two_thread_run_sample_count.
    rewrite two_thread_run_resample.
    change (advance 1 (advance 1 (advance 4 g))) with (advance 6 g).
    rewrite two_thread_run_sample_count. reflexivity. }
  apply (run_ci_bootstrap_between two_thread_run [sample_count] 3 0.5%float
           g (advance 6 g) (advance 6 g) [[Fin 2]; [Fin 2]; [Fin 2]]
           [Fin 2] 0 2 2 2 Hc Hbs (two_thread_run_sample_count (advance 6 g))).
  - simpl. lia.
  - repeat constructor; simpl; lra.
  - reflexivity.
Defined.

(* ------------------------------------------------------------------ *)
(** ** np.interp is the linear interpolation *)

Lemma sorted_from_head (b : R) (xs : list R) (j : nat) :
  StronglySorted Rlt (b :: xs) -> (j < length (b :: xs))%nat ->
  b <= nth j (b :: xs) 0.
Proof.
  intros Hs Hj. inversion Hs as [|? ? _ Hall]; subst.
  destruct j as [|j]; [simpl; lra|].
  cbn [nth]. rewrite Forall_forall in Hall.
  left. apply Hall. apply nth_In. simpl in Hj. lia.
Qed.

Lemma not_le_and_lt (x : npfloat) (b c : R) :
  b <= c -> le (Fin c) x = true -> lt x (Fin b) = true -> False.
Proof.
  intros Hbc H1 H2. destruct (le_lt_between x c b H1 H2) as [v [_ Hv]]. lra.
Qed.

Lemma interp_from_linear (x : npfloat) (xs : list R) :
  isnan x = false -> StronglySorted Rlt xs ->
  forall fp : list npfloat,
    length fp = length xs -> xs <> [] -> le (Fin (hd 0 xs)) x = true ->
    (forall k, length xs = S k -> le (Fin (nth k xs 0)) x = true ->
               interp_from x (map Fin xs) fp = nth k fp NaN) /\
    (forall j, (S j < length xs)%nat ->
               le (Fin (nth j xs 0)) x = true ->
               lt x (Fin (nth (S j) xs 0)) = true ->
               interp_from x (map Fin xs) fp =
               add (mul (div (sub (nth (S j) fp NaN) (nth j fp NaN))
                             (Fin (nth (S j) xs 0 - nth j xs 0)))
                        (sub x (Fin (nth j xs 0))))
                   (nth j fp NaN)).
Proof.
  intros Hx Hs.
  induction Hs as [|a xs Hs IH Hall]; intros fp Hlen Hne Hle; [congruence|].
  destruct xs as [|b xs].
  - destruct fp as [|f0 [|f1 fp]]; simpl in Hlen; try discriminate. split.
    + intros k Hk _. injection Hk as <-. reflexivity.
    + intros j Hj. simpl in Hj. lia.
  - destruct fp as [|f0 [|f1 fp]]; simpl in Hlen; try discriminate.
    cbn [map]. rewrite interp_from_step.
    destruct (lt x (Fin b)) eqn:E.
    + split.
      * intros k Hk Hlast. exfalso.
        destruct k as [|k]; [simpl in Hk; lia|]. cbn [nth] in Hlast.
        refine (not_le_and_lt x b _ _ Hlast E).
        apply sorted_from_head; [exact Hs | simpl in *; lia].
      * intros j Hj Hlej Hltj. destruct j as [|j]; [reflexivity|].
        exfalso. cbn [nth] in Hlej.
        refine (not_le_and_lt x b _ _ Hlej E).
        apply sorted_from_head; [exact Hs | simpl in *; lia].
    + assert (Hle' : le (Fin b) x = true) by (apply lt_false_le; assumption).
      destruct (IH (f1 :: fp)) as [IH1 IH2];
        [simpl in *; lia | discriminate | exact Hle' |].
      split.
      * intros k Hk Hlast.
        destruct k as [|k]; [simpl in Hk; lia|]. cbn [nth] in *.
        apply IH1; [simpl in *; lia | exact Hlast].
      * intros j Hj Hlej Hltj. destruct j as [|j].
        -- cbn [nth] in Hltj. congruence.
        -- cbn [nth] in *. apply IH2; [simpl in *; lia | assumption..].
Qed.

Lemma grid_strictly_ascending (n len s : nat) :
  (0 < n)%nat ->
  StronglySorted Rlt (map (grid_point n) (seq s len)).
Proof.
  intros Hn. revert s.
  induction len as [|len IH]; intros s; cbn [map seq]; constructor;
    [apply IH|].
  apply Forall_map, Forall_forall. intros j Hj. apply in_seq in Hj.
  unfold grid_point. apply Rmult_lt_compat_r.
  - apply Rinv_0_lt_compat, lt_0_INR. exact Hn.
  - assert (INR s < INR j) by (apply lt_INR; lia). lra.
Qed.

Lemma nth_grid (n j : nat) :
  (j < n)%nat -> nth j (map (grid_point n) (seq 0 n)) 0 = grid_point n j.
Proof.
  intros H. rewrite (nth_indep _ 0 (grid_point n 0))
    by (now rewrite length_map, length_seq).
  rewrite (map_nth (grid_point n)), seq_nth by exact H. reflexivity.
Qed.

Lemma grid_point_le (n i j : nat) :
  (0 < n)%nat -> (i <= j)%nat -> grid_point n i <= grid_point n j.
Proof.
  intros Hn Hij. unfold grid_point. apply Rmult_le_compat_r.
  - left. apply Rinv_0_lt_compat, lt_0_INR. exact Hn.
  - assert (INR i <= INR j) by (apply le_INR; exact Hij). lra.
Qed.

(** [np.interp] over the grid of [n] points against [n] values. *)
Lemma np_interp_linear (n : nat) (s : list npfloat) (x : npfloat) :
  (0 < n)%nat -> length s = n ->
  exists q,
    np_interp x (cdf_grid n) s = Ok q /\ linear_interpolation n s x q.
Proof.
  intros Hn Hlen. destruct n as [|n']; [lia|].
  destruct s as [|f0 s']; [discriminate|].
  rewrite cdf_grid_values, <- (map_map (grid_point (S n')) Fin).
  set (xs := map (grid_point (S n')) (seq 0 (S n'))).
  assert (Hxl : length xs = S n')
    by (unfold xs; now rewrite length_map, length_seq).
  assert (Hnth : forall j, (j < S n')%nat -> nth j xs 0 = grid_point (S n') j)
    by (intros; apply nth_grid; assumption).
  assert (Hss : StronglySorted Rlt xs)
    by (apply grid_strictly_ascending; lia).
  assert (E : np_interp x (map Fin xs) (f0 :: s') =
              if isnan x then Ok NaN
              else if lt x (Fin (grid_point (S n') 0)) then Ok f0
              else Ok (interp_from x (map Fin xs) (f0 :: s'))).
  { unfold np_interp.
    change (map Fin xs) with
      (Fin (grid_point (S n') 0) ::
       map Fin (map (grid_point (S n')) (seq 1 n'))).
    cbn [length]. rewrite !length_map, length_seq.
    simpl in Hlen. injection Hlen as ->. rewrite Nat.eqb_refl. reflexivity. }
  rewrite E. clear E.
  destruct (isnan x) eqn:Hx.
  - exists NaN. split; [reflexivity|].
    destruct x; try discriminate.
    repeat split; try discriminate.
  - destruct (lt x (Fin (grid_point (S n') 0))) eqn:E.
    + exists f0. split; [reflexivity|].
      split; [congruence|]. split; [reflexivity|]. split.
      * intros H. exfalso. refine (not_le_and_lt x _ _ _ H E).
        apply grid_point_le; lia.
      * intros j Hj H _. exfalso. refine (not_le_and_lt x _ _ _ H E).
        apply grid_point_le; lia.
    + assert (Hle : le (Fin (grid_point (S n') 0)) x = true)
        by (apply lt_false_le; assumption).
      destruct (interp_from_linear x xs Hx Hss (f0 :: s')) as [H1 H2].
      * rewrite Hlen, Hxl. reflexivity.
      * intros Exs. rewrite Exs in Hxl. discriminate.
      * exact Hle.
      * eexists. split; [reflexivity|].
        split; [congruence|]. split; [congruence|]. split.
        -- intros H. apply H1.
           ++ rewrite Hxl. f_equal. lia.
           ++ rewrite Hnth by lia. exact H.
        -- intros j Hj Ha Hb.
           rewrite <- (Hnth j), <- (Hnth (S j)) by lia.
           apply H2.
           ++ rewrite Hxl. exact Hj.
           ++ rewrite Hnth by lia. exact Ha.
           ++ rewrite Hnth by lia. exact Hb.
Qed.

(* ------------------------------------------------------------------ *)
(** ** The formula of the confidence interval *)

(** C5: when the first assertion passes, the bootstrap replicates
    [bs_values] are obtained and the estimators on the run itself, weighted
    without simulation, are [T], [run_ci_bootstrap] returns for every
    estimator [i] the value [2 * T_i - q_i], where [q_i] is the linear
    interpolation at [1. - cred_int] through the points
    [((j + 0.5) / n_simulate, s_j)], with [s] the values of estimator [i] on
    the replicates sorted in ascending order. *)
Theorem run_ci_bootstrap_formula (ns_run : ns_run_t)
    (estimator_list : list estimator_t) (n_simulate : Z) (cred_int : float)
    (g g1 g2 : rng) (bs_values : list (list npfloat)) (T : list npfloat) :
  guard_passes n_simulate cred_int ->
  bootstrap_values ns_run estimator_list n_simulate g = (Ok bs_values, g1) ->
  run_estimators ns_run estimator_list false g1 = (Ok T, g2) ->
  let n := Z.to_nat n_simulate in
  let x := float_value (1 - cred_int)%float in
  exists ci_output,
    run_ci_bootstrap ns_run estimator_list n_simulate cred_int g =
    (Ok ci_output, g2) /\
    length ci_output = length estimator_list /\
    length bs_values = n /\
    Forall (bootstrap_replicate ns_run estimator_list) bs_values /\
    (forall i, (i < length estimator_list)%nat ->
       let replicates := map (fun col => nth i col NaN) bs_values in
       let sorted := np_sort replicates in
       Permutation sorted replicates /\
       Sorted (fun a b => sort_le a b = true) sorted /\
       exists q,
         linear_interpolation n sorted x q /\
         nth i ci_output NaN = sub (mul (nth i T NaN) (Fin 2)) q).
Proof.
  intros Hc Hbs HT n x.
  destruct (bootstrap_values_returns _ _ _ _ _ _ Hbs) as [Hn0 [Hlen Hcols]].
  destruct (run_ci_bootstrap_value _ _ _ _ _ _ _ _ _ Hc Hbs HT)
    as [Hn [ci_output [Hrun [Hl Hci]]]].
  exists ci_output.
  split; [exact Hrun|]. split; [exact Hl|]. split; [exact Hlen|].
  split; [eapply Forall_impl; [|exact Hcols]; simpl; intros col [_ H];
          exact H|].
  intros i Hi replicates sorted.
  split; [apply sort_by_perm|].
  split; [apply (sort_by_sorted (fun a : npfloat => a))|].
  destruct (Hci i Hi) as [q [Eq Hq]].
  rewrite (matrix_row_replicates _ _ _ _ _ _ _ Hbs Hi) in Eq.
  fold replicates sorted x in Eq.
  destruct (np_interp_linear (length bs_values) sorted x Hn) as [q' [Eq' Hq']].
  { unfold sorted, np_sort, replicates.
    now rewrite length_sort_by, length_map. }
  rewrite Eq in Eq'. injection Eq' as <-.
  exists q. split; [|exact Hq].
  unfold n. rewrite <- Hlen. exact Hq'.
Qed.

Lemma four_thread_run_resample (g : rng) :
  bootstrap_resample_run four_thread_run true g =
  (Ok (mk_run
         (take None four_threads
               (draws 0 2 2 g ++ draws 2 4 2 (advance 2 g)))
         (Some (take absent_lmm four_records
                     (draws 0 2 2 g ++ draws 2 4 2 (advance 2 g))))
         None (settings four_thread_run)),
   advance 4 g).
Proof.
  assert (Hw : all_within 0 4 (draws 0 2 2 g ++ draws 2 4 2 (advance 2 g))).
  { apply all_within_app;
      [apply (all_within_weaken 0 2) | apply (all_within_weaken 2 4)];
      try apply draws_within; lia. }
  rewrite (bootstrap_resample_with_inds four_thread_run true
             (draws 0 2 2 g ++ draws 2 4 2 (advance 2 g)) g (advance 4 g)).
  - change (thread_logl_min_max four_thread_run) with (Some four_records).
    cbv beta iota.
    rewrite (sequence_getitem absent_lmm); [reflexivity | exact Hw].
  - pose proof (stratified_inds 2 4 g ltac:(lia)) as H.
    rewrite advance_advance in H. exact H.
  - exact Hw.
Qed.

Lemma run_estimators_sample_count (ns_run : ns_run_t) (simulate : bool)
    (g g' : rng) (values : list npfloat) :
  run_estimators ns_run [sample_count] simulate g = (Ok values, g') ->
  values = [Fin (INR (length (present_rows (threads ns_run))))].
Proof.
  intros E.
  destruct (run_estimators_values _ _ _ _ _ _ E) as [lrxp [logw [Hm ->]]].
  rewrite merge_lrxp_eq in Hm.
  destruct (existsb is_present (threads ns_run)); [|discriminate].
  injection Hm as <-.
  unfold get_estimators, sample_count. cbn [map estimator].
  now rewrite length_map, length_sort_by.
Qed.

(** The number of samples of a dynamic run whose records are [lmm_ar] and
    give every sample a live point. *)
Ltac count_samples lmm_ar :=
  match goal with
  | |- run_estimators ?r [sample_count] false ?g = _ =>
      let values := fresh "values" in
      let E := fresh "E" in
      destruct (run_estimators_dynamic_returns r lmm_ar [sample_count] g)
        as [values E];
      [ reflexivity | reflexivity | repeat constructor | simpl; lia
      | simpl;
        repeat constructor;
        unfold positive, stabbing_sum, interval_contains, gt; simpl; Rbool;
        unfold sum; simpl; apply Rltb_lt; lra
      | rewrite E, (run_estimators_sample_count _ _ _ _ _ E);
        simpl; repeat f_equal; lra ]
  end.

Lemma four_thread_run_count (g : rng) :
  run_estimators four_thread_run [sample_count] false g = (Ok [Fin 7], g).
Proof. count_samples four_records. Qed.

Lemma resampled_counts (g : rng) :
  run_estimators (resampled [0; 1; 3; 3]%Z) [sample_count] false g =
  (Ok [Fin 9], g) /\
  run_estimators (resampled [0; 0; 2; 2]%Z) [sample_count] false g =
  (Ok [Fin 4], g) /\
  run_estimators (resampled [1; 1; 3; 3]%Z) [sample_count] false g =
  (Ok [Fin 10], g) /\
  run_estimators (resampled [1; 1; 2; 2]%Z) [sample_count] false g =
  (Ok [Fin 6], g).
Proof.
  split; [|split; [|split]].
  - count_samples (take absent_lmm four_records [0; 1; 3; 3]%Z).
  - count_samples (take absent_lmm four_records [0; 0; 2; 2]%Z).
  - count_samples (take absent_lmm four_records [1; 1; 3; 3]%Z).
  - count_samples (take absent_lmm four_records [1; 1; 2; 2]%Z).
Qed.

Lemma float_value_half :
  float_value (1 - 0.5)%float = Fin (1 / 2).
Proof.
  unfold float_value.
  change (Prim2SF (1 - 0.5)%float)
    with (S754_finite false 4503599627370496 (-53)).
  cbv beta iota. cbn [cond_Zopp].
  change (pow2 (-53)) with (/ IZR 9007199254740992).
  f_equal. lra.
Qed.

Lemma run_ci_bootstrap_formula_witness :
  let g :=
    listed_rng [0; 1; 1; 1; 0; 0; 0; 0; 1; 1; 1; 1; 1; 1; 0; 0]%nat in
  exists ci_output,
    run_ci_bootstrap four_thread_run [sample_count] 4 0.5%float g =
    (Ok ci_output, advance 16 g) /\
    nth 0 ci_output NaN = Fin (13 / 2).
Proof.
  intros g.
  assert (Hc : guard_passes 4 0.5%float)
    by (exists 4%float; split; reflexivity).
  destruct (resampled_counts (advance 4 g)) as [C1 _].
  destruct (resampled_counts (advance 8 g)) as [_ [C2 _]].
  destruct (resampled_counts (advance 12 g)) as [_ [_ [C3 _]]].
  destruct (resampled_counts (advance 16 g)) as [_ [_ [_ C4]]].
  assert (Hbs : bootstrap_values four_thread_run [sample_count] 4 g =
                (Ok [[Fin 9]; [Fin 4]; [Fin 10]; [Fin 6]], advance 16 g)).
  { unfold bootstrap_values. simpl. unfold bind.
    rewrite four_thread_run_resample.
    change (take None four_threads
              (draws 0 2 2 g ++ draws 2 4 2 (advance 2 g)))
      with (take None four_threads [0; 1; 3; 3]%Z).
    change (take absent_lmm four_records
              (draws 0 2 2 g ++ draws 2 4 2 (advance 2 g)))
      with (take absent_lmm four_records [0; 1; 3; 3]%Z).
    fold (resampled [0; 1; 3; 3]%Z). rewrite C1.
    rewrite four_thread_run_resample.
    change (take None four_threads
              (draws 0 2 2 (advance 4 g) ++
               draws 2 4 2 (advance 2 (advance 4 g))))
      with (take None four_threads [0; 0; 2; 2]%Z).
    change (take absent_lmm four_records
              (draws 0 2 2 (advance 4 g) ++
               draws 2 4 2 (advance 2 (advance 4 g))))
      with (take absent_lmm four_records [0; 0; 2; 2]%Z).
    fold (resampled [0; 0; 2; 2]%Z).
    change (advance 4 (advance 4 g)) with (advance 8 g). rewrite C2.
    rewrite four_thread_run_resample.
    change (take None four_threads
              (draws 0 2 2 (advance 8 g) ++
               draws 2 4 2 (advance 2 (advance 8 g))))
      with (take None four_threads [1; 1; 3; 3]%Z).
    change (take absent_lmm four_records
              (draws 0 2 2 (advance 8 g) ++
               draws 2 4 2 (advance 2 (advance 8 g))))
      with (take absent_lmm four_records [1; 1; 3; 3]%Z).
    fold (resampled [1; 1; 3; 3]%Z).
    change (advance 4 (advance 8 g)) with (advance 12 g). rewrite C3.
    rewrite four_thread_run_resample.
    change (take None four_threads
              (draws 0 2 2 (advance 12 g) ++
               draws 2 4 2 (advance 2 (advance 12 g))))
      with (take None four_threads [1; 1; 2; 2]%Z).
    change (take absent_lmm four_records
              (draws 0 2 2 (advance 12 g) ++
               draws 2 4 2 (advance 2 (advance 12 g))))
      with (take absent_lmm four_records [1; 1; 2; 2]%Z).
    fold (resampled [1; 1; 2; 2]%Z).
    change (advance 4 (advance 12 g)) with (advance 16 g). rewrite C4.
    reflexivity. }
  destruct (run_ci_bootstrap_formula four_thread_run [sample_count] 4
              0.5%float g (advance 16 g) (advance 16 g)
              [[Fin 9]; [Fin 4]; [Fin 10]; [Fin 6]] [Fin 7]
              Hc Hbs (four_thread_run_count (advance 16 g)))
    as [ci_output [Hrun [_ [_ [_ Hci]]]]].
  exists ci_output. split; [exact Hrun|].
  assert (H0 : (0 < length [sample_count])%nat) by (simpl; lia).
  destruct (Hci 0%nat H0) as [_ [_ [q [Hq ->]]]].
  assert (Es : np_sort (map (fun col => nth 0 col NaN)
                            [[Fin 9]; [Fin 4]; [Fin 10]; [Fin 6]]) =
               [Fin 4; Fin 6; Fin 9; Fin 10]).
  { unfold np_sort. repeat (simpl; Rbool). reflexivity. }
  rewrite Es, float_value_half in Hq.
  destruct Hq as [_ [_ [_ Hq]]].
  rewrite (Hq 1%nat).
  - cbn [nth]. unfold grid_point.
    rewrite !sub_Fin, div_Fin_nonzero by (simpl; lra).
    simpl. f_equal. field.
  - simpl. lia.
  - simpl. apply Rleb_le. unfold grid_point. simpl. lra.
  - simpl. apply Rltb_lt. unfold grid_point. simpl. lra.
Defined.

(* ------------------------------------------------------------------ *)
(** ** The first assertion is decided on rounded numbers *)

Lemma two_thread_run_replicates (estimator_list : list estimator_t)
    (n : nat) (g : rng) :
  exists bs_values,
    repeat_M n
      (bind (bootstrap_resample_run two_thread_run true)
            (fun ns_run_temp =>
               run_estimators ns_run_temp estimator_list false)) g =
    (Ok bs_values, advance (2 * n) g).
Proof.
  revert g. induction n as [|n IH]; intros g.
  - exists []. unfold advance. simpl. destruct g. simpl.
    now rewrite Nat.add_0_r.
  - destruct (two_thread_run_estimators estimator_list (advance 2 g))
      as [col Ec].
    destruct (IH (advance 2 g)) as [bs Ebs].
    exists (col :: bs). cbn [repeat_M]. unfold bind at 1. unfold bind at 1.
    rewrite two_thread_run_resample.
    rewrite (advance_advance 1 1 g). change (1 + 1)%nat with 2%nat.
    rewrite Ec.
    unfold bind at 1. rewrite Ebs. unfold ret.
    rewrite advance_advance. do 2 f_equal. lia.
Qed.

(** C6 as stated fails in both directions.  With [cred_int = 0.05] and
    [n_simulate = 20] the float 0.05 stands for a number above 1/20, so
    that the product exceeds 1, but the product as the source computes it
    is rounded to 1 and the error is raised.  With [cred_int = 0.95] and
    [n_simulate = 20] the product of the decimal numbers is 1, but
    [1. - 0.95] is a float above 0.05, the product computed exceeds 1 and
    [run_ci_bootstrap] goes on to return its intervals. *)
Lemma run_ci_bootstrap_guard_is_rounded :
  let g := mk_rng (fun k => k) (fun _ => 0) O in
  (exists v,
      float_value 0.05%float = Fin v /\ 1 / 20 < v /\
      1 < Rmin v (1 - v) * 20 /\
      run_ci_bootstrap two_thread_run [first_weight] 20 0.05%float g =
      (Raise (AssertionError (n_simulate_not_big_enough 20 0.05%float)),
       g)) /\
  (Rmin 0.95 (1 - 0.95) * 20 <= 1 /\
   exists ci_output,
     run_ci_bootstrap two_thread_run [first_weight] 20 0.95%float g =
     (Ok ci_output, advance 40 g)).
Proof.
  intros g. split.
  - exists (7205759403792794 / 144115188075855872).
    split; [|split; [|split]].
    + unfold float_value.
      change (Prim2SF 0.05%float)
        with (S754_finite false 7205759403792794 (-57)).
      cbv beta iota. cbn [cond_Zopp].
      change (pow2 (-57)) with (/ IZR 144115188075855872).
      reflexivity.
    + lra.
    + unfold Rmin. destruct (Rle_dec _ _); lra.
    + apply run_ci_bootstrap_assert_fails.
      exists 20%float. split; reflexivity.
  - split.
    + unfold Rmin. destruct (Rle_dec 0.95 (1 - 0.95)); simpl; lra.
    + assert (Hc : guard_passes 20 0.95%float)
        by (exists 20%float; split; reflexivity).
      destruct (two_thread_run_replicates [first_weight] 20 g)
        as [bs_values Hbs].
      destruct (two_thread_run_estimators [first_weight] (advance 40 g))
        as [T HT].
      destruct (run_ci_bootstrap_value two_thread_run [first_weight] 20
                  0.95%float g (advance 40 g) (advance 40 g) bs_values T
                  Hc Hbs HT)
        as [_ [ci_output [Hrun _]]].
      exists ci_output. exact Hrun.
Qed.
